(** * Badger Connect: matchmaking, sessions, relay, reputation and sign-in

    A shallow embedding of [backend/server.js] (the Express + Socket.IO
    server) and the properties of its pairing engine, session registry,
    relay router, reputation ledger and identity registry; then of the
    parts of the React client that are plain functions (the feedback
    ledger, the sign-in form and the banned list), with the properties that
    tie them to the server.

    Conventions of the embedding.
    - A JavaScript value that is either [undefined] or a string is an
      [option string]; the empty string is falsy ([truthy]).
    - [String.prototype.toLowerCase] is modelled on ASCII letters.
    - [uuidv4()] is modelled as a counter ([uuidCount]): every call returns
      an identifier never returned before.
    - [Date.now()] is an argument ([now]) of every handler.
    - A JavaScript [Map] iterated in insertion order ([sessions]) is an
      association list; the other two maps are [gmap]s; a [Set] of socket
      ids is a duplicate-free list in insertion order.
    - A handler that throws (an uncaught [TypeError] ends the Node process)
      returns [None].
    - The payload of an event is any JSON value, or none: [ClientMsg] says
      how a value that is no string is represented. *)

From Stdlib Require Import ZArith NArith Ascii String List Lia.
From stdpp Require Import base option list gmap strings.

Local Open Scope string_scope.
Local Open Scope list_scope.

(** ** JavaScript values *)

Definition truthy (v : option string) : bool :=
  match v with
  | Some s => negb (String.eqb s "")
  | None => false
  end.

(** [v || ''] *)
Definition orEmpty (v : option string) : string :=
  match v with
  | Some s => s
  | None => ""
  end.

Definition lowerAscii (c : ascii) : ascii :=
  let n := nat_of_ascii c in
  if (65 <=? n)%nat && (n <=? 90)%nat then ascii_of_nat (n + 32) else c.

Fixpoint toLowerCase (s : string) : string :=
  match s with
  | EmptyString => EmptyString
  | String c s' => String (lowerAscii c) (toLowerCase s')
  end.

(** ** Reputation ledger *)

Record Reputation := mkReputation {
  likes : N;
  dislikes : N;
  reports : N;
  banned : bool
}.

Definition REPORT_THRESHOLD : N := 3.
Definition DISLIKE_THRESHOLD : N := 10.

Definition zeroReputation : Reputation :=
  {| likes := 0; dislikes := 0; reports := 0; banned := false |}.

(** [getReputation]: returns the ledger after the call and the record. *)
Definition getReputation (reputations : gmap string Reputation) (email : string)
  : gmap string Reputation * Reputation :=
  if decide (email = "") then (reputations, zeroReputation)
  else match reputations !! email with
       | Some profile => (reputations, profile)
       | None => (<[email := zeroReputation]> reputations, zeroReputation)
       end.

(** The record returned by [getReputation] is the object stored in the map
    (except for the empty email, where it is a fresh object): a mutation of
    it is a write to the map. *)
Definition storeReputation (reputations : gmap string Reputation)
    (email : string) (profile : Reputation) : gmap string Reputation :=
  if decide (email = "") then reputations else <[email := profile]> reputations.

Definition bumpReaction (type : string) (profile : Reputation) : Reputation :=
  let profile :=
    if decide (type = "like")
    then {| likes := likes profile + 1; dislikes := dislikes profile;
            reports := reports profile; banned := banned profile |}
    else profile in
  let profile :=
    if decide (type = "dislike")
    then {| likes := likes profile; dislikes := dislikes profile + 1;
            reports := reports profile; banned := banned profile |}
    else profile in
  let profile :=
    if decide (type = "report")
    then {| likes := likes profile; dislikes := dislikes profile;
            reports := reports profile + 1; banned := banned profile |}
    else profile in
  if (REPORT_THRESHOLD <=? reports profile)%N
     || (DISLIKE_THRESHOLD <=? dislikes profile)%N
  then {| likes := likes profile; dislikes := dislikes profile;
          reports := reports profile; banned := true |}
  else profile.

Definition applyReaction (reputations : gmap string Reputation)
    (email : string) (type : string) : gmap string Reputation * Reputation :=
  let '(reputations, profile) := getReputation reputations email in
  let profile := bumpReaction type profile in
  (storeReputation reputations email profile, profile).

(** ** Profiles *)

(** The payload of [profile:update]. *)
Record ProfilePayload := mkProfilePayload {
  payload_name : option string;
  payload_email : option string;
  payload_interests : option (list string)
}.

(** [socket.data.profile]: the payload with its email replaced. *)
Record Profile := mkProfile {
  name : option string;
  email : string;
  interests : option (list string)
}.

Record SanitizedProfile := mkSanitizedProfile {
  sanitized_name : string;
  sanitized_email : string;
  sanitized_interests : list string
}.

Definition sanitizeProfile (profile : Profile) : SanitizedProfile :=
  {| sanitized_name := if truthy (name profile) then orEmpty (name profile)
                       else "Unknown Badger";
     sanitized_email := email profile;
     sanitized_interests := default [] (interests profile) |}.

(** ** Server state *)

Inductive Mode := ModeText | ModeVideo.

Global Instance Mode_eq_dec : EqDecision Mode.
Proof. solve_decision. Defined.

Record QueueEntry := mkQueueEntry { socketId : string }.

Global Instance QueueEntry_eq_dec : EqDecision QueueEntry.
Proof. solve_decision. Defined.

Record WaitingQueues := mkWaitingQueues {
  text : list QueueEntry;
  video : list QueueEntry
}.

Record Session := mkSession {
  session_id : nat;
  session_mode : Mode;
  participants : list string;
  startedAt : Z
}.

(** [socket.data] *)
Record SocketData := mkSocketData {
  data_profile : option Profile;
  data_mode : option string
}.

Record State := mkState {
  reputations : gmap string Reputation;
  waitingQueues : WaitingQueues;
  sessions : list (nat * Session);
  emailToSockets : gmap string (list string);
  (** [io.sockets.sockets]: the connected sockets *)
  sockets : gmap string SocketData;
  (** number of [uuidv4()] calls so far *)
  uuidCount : nat
}.

Definition initialState : State :=
  {| reputations := ∅;
     waitingQueues := {| text := []; video := [] |};
     sessions := [];
     emailToSockets := ∅;
     sockets := ∅;
     uuidCount := 0 |}.

Definition set_reputations (r : gmap string Reputation) (st : State) : State :=
  {| reputations := r; waitingQueues := waitingQueues st;
     sessions := sessions st; emailToSockets := emailToSockets st;
     sockets := sockets st; uuidCount := uuidCount st |}.

Definition set_waitingQueues (w : WaitingQueues) (st : State) : State :=
  {| reputations := reputations st; waitingQueues := w;
     sessions := sessions st; emailToSockets := emailToSockets st;
     sockets := sockets st; uuidCount := uuidCount st |}.

Definition set_sessions (s : list (nat * Session)) (st : State) : State :=
  {| reputations := reputations st; waitingQueues := waitingQueues st;
     sessions := s; emailToSockets := emailToSockets st;
     sockets := sockets st; uuidCount := uuidCount st |}.

Definition set_emailToSockets (e : gmap string (list string)) (st : State)
  : State :=
  {| reputations := reputations st; waitingQueues := waitingQueues st;
     sessions := sessions st; emailToSockets := e;
     sockets := sockets st; uuidCount := uuidCount st |}.

Definition set_sockets (s : gmap string SocketData) (st : State) : State :=
  {| reputations := reputations st; waitingQueues := waitingQueues st;
     sessions := sessions st; emailToSockets := emailToSockets st;
     sockets := s; uuidCount := uuidCount st |}.

Definition set_uuidCount (n : nat) (st : State) : State :=
  {| reputations := reputations st; waitingQueues := waitingQueues st;
     sessions := sessions st; emailToSockets := emailToSockets st;
     sockets := sockets st; uuidCount := n |}.

(** *** The [sessions] map *)

Definition sessions_get (m : list (nat * Session)) (k : nat) : option Session :=
  snd <$> List.find (λ e, Nat.eqb (fst e) k) m.

Definition sessions_has (m : list (nat * Session)) (k : nat) : bool :=
  bool_decide (is_Some (sessions_get m k)).

(** [Map.prototype.set]: an existing key keeps its position. *)
Definition sessions_set (m : list (nat * Session)) (k : nat) (v : Session)
  : list (nat * Session) :=
  if sessions_has m k
  then List.map (λ e, if Nat.eqb (fst e) k then (k, v) else e) m
  else m ++ [(k, v)].

Definition sessions_delete (m : list (nat * Session)) (k : nat)
  : list (nat * Session) :=
  filter (λ e, fst e ≠ k) m.

(** *** The [waitingQueues] object *)

Definition queueOf (mode : Mode) (w : WaitingQueues) : list QueueEntry :=
  match mode with
  | ModeText => text w
  | ModeVideo => video w
  end.

Definition setQueue (mode : Mode) (q : list QueueEntry) (w : WaitingQueues)
  : WaitingQueues :=
  match mode with
  | ModeText => {| text := q; video := video w |}
  | ModeVideo => {| text := text w; video := q |}
  end.

(** What [waitingQueues[mode]] evaluates to: one of the two arrays, a member
    inherited from [Object.prototype] (truthy, but not an array), or
    [undefined]. *)
Inductive Slot := OwnQueue (m : Mode) | Inherited | Absent.

Definition objectPrototypeKeys : list string :=
  [ "constructor"; "__proto__"; "hasOwnProperty"; "isPrototypeOf";
    "propertyIsEnumerable"; "toLocaleString"; "toString"; "valueOf";
    "__defineGetter__"; "__defineSetter__"; "__lookupGetter__";
    "__lookupSetter__" ].

Definition waitingQueuesSlot (mode : string) : Slot :=
  if decide (mode = "text") then OwnQueue ModeText
  else if decide (mode = "video") then OwnQueue ModeVideo
  else if bool_decide (mode ∈ objectPrototypeKeys) then Inherited
  else Absent.

(** ** Identity registry *)

Definition registerSocketForEmail (socket : string) (email : string)
    (m : gmap string (list string)) : gmap string (list string) :=
  if decide (email = "") then m
  else
    let normalized := toLowerCase email in
    let set := default [] (m !! normalized) in
    <[normalized := if bool_decide (socket ∈ set) then set
                    else set ++ [socket]]> m.

Definition unregisterSocket (socket : string) (m : gmap string (list string))
  : gmap string (list string) :=
  omap (λ set, let set := filter (λ s, s ≠ socket) set in
               match set with
               | [] => None
               | _ => Some set
               end) m.

(** ** Queues and session lookup *)

Definition removeFromQueues (socket : string) (w : WaitingQueues)
  : WaitingQueues :=
  {| text := filter (λ entry, socketId entry ≠ socket) (text w);
     video := filter (λ entry, socketId entry ≠ socket) (video w) |}.

Definition findSessionBySocket (m : list (nat * Session)) (socket : string)
  : option (nat * Session) :=
  List.find (λ e, bool_decide (socket ∈ participants (snd e))) m.

(** ** Events *)

Inductive SignalKind := Offer | Answer | IceCandidate.

(** Server-to-client events (and the two JSON responses). *)
Inductive ServerEvent :=
| ProfileReputation (email : option string) (rep : Reputation)
| SystemBanned (rep : Reputation)
| SystemError (message : string)
| MatchQueued (mode : Mode) (queueLength : nat)
| MatchPaired (sessionId : nat) (mode : Mode)
    (partnerProfile : SanitizedProfile) (initiator : bool)
| ChatText (sessionId : nat) (body : string) (from : option string)
    (timestamp : Z)
| SystemSessionEnded (sessionId : nat)
| SystemPartnerLeft (sessionId : nat)
| Webrtc (kind : SignalKind) (sessionId : nat) (blob : string)
| ReputationJson (rep : Reputation)
| HealthJson (textWaiting videoWaiting : nat).

(** [socket.emit] and [io.to(id).emit] address one socket, [io.emit] all of
    them, [res.json] the HTTP client. *)
Inductive Dest := ToSocket (socket : string) | ToAll | HttpResponse.

Abbreviation Emit := (Dest * ServerEvent)%type.

(** The events a socket has a handler for. *)
Inductive EventName :=
| EvProfileUpdate
| EvMatchRequest
| EvChatTextMessage
| EvChatLeave
| EvProfileReaction
| EvWebrtcOffer
| EvWebrtcAnswer
| EvWebrtcIce.

(** An absent payload: the event came without argument, or with [null]. *)
Inductive Nullish := JsUndefined | JsNull.

(** Client-to-server events, with any payload a client can send (a JSON
    value). In the first eight the payload is not [undefined] or [null], and
    a missing field is [None]. A field that is no string is represented by
    what the handlers make of it: a falsy value is a missing field or the
    empty string; a session id is one that names no session ([Map.get]
    compares without conversion); a mode is the property key it converts to;
    a type, body, sender, description, candidate or name is a string that
    stands for the value, which the handlers only test for truthiness,
    compare with [===] and pass on. The last four are the payloads that
    remain: no payload, an [email] or a [target] that is truthy and not a
    string (it has no [toLowerCase]), and a [mode] that is an object without
    a primitive value (such as [{toString: 1, valueOf: 1}]), which cannot be
    converted to a property key. *)
Inductive ClientMsg :=
| ProfileUpdate (profile : ProfilePayload)
| MatchRequest (mode : option string)
| ChatTextMessage (sessionId : option nat) (body : option string)
    (from : option string) (timestamp : option Z)
| ChatLeave (sessionId : option nat)
| ProfileReactionMsg (target : option string) (type : option string)
    (sessionId : option nat)
| WebrtcOffer (sessionId : option nat) (description : option string)
| WebrtcAnswer (sessionId : option nat) (description : option string)
| WebrtcIce (sessionId : option nat) (candidate : option string)
| NoPayload (event : EventName) (payload : Nullish)
| ProfileUpdateOddEmail
| ProfileReactionOddTarget (type : option string)
| MatchRequestOddMode.

Inductive Input :=
| Connection (socket : string)
| Disconnect (socket : string)
| Message (socket : string) (msg : ClientMsg)
| GetReputation (email : string)
| GetHealth.

(** ** Pairing engine *)

Definition pairedSession (sessionId : nat) (mode : Mode)
    (first second : QueueEntry) (now : Z) : Session :=
  {| session_id := sessionId; session_mode := mode;
     participants := [socketId first; socketId second]; startedAt := now |}.

(** The [while (queue.length >= 2)] loop of [attemptPair]; [queue] is the
    array being shifted, [st] carries [sessions], [sockets] and the uuid
    counter. *)
Fixpoint attemptPairLoop (now : Z) (mode : Mode) (queue : list QueueEntry)
    (st : State) : option (list QueueEntry * State * list Emit) :=
  match queue with
  | first :: second :: queue =>
      match sockets st !! socketId first, sockets st !! socketId second with
      | Some firstSocket, Some secondSocket =>
          let sessionId := uuidCount st in
          let st := set_uuidCount (S sessionId) st in
          let st :=
            set_sessions
              (sessions_set (sessions st) sessionId
                 (pairedSession sessionId mode first second now)) st in
          (* sanitizeProfile(null) throws *)
          profileA ← sanitizeProfile <$> data_profile secondSocket;
          profileB ← sanitizeProfile <$> data_profile firstSocket;
          '(queue, st, out) ← attemptPairLoop now mode queue st;
          Some (queue, st,
                (ToSocket (socketId first),
                 MatchPaired sessionId mode profileA true)
                :: (ToSocket (socketId second),
                    MatchPaired sessionId mode profileB false)
                :: out)
      | _, _ => attemptPairLoop now mode queue st
      end
  | _ => Some (queue, st, [])
  end.

Definition attemptPair (now : Z) (mode : Mode) (st : State)
  : option (State * list Emit) :=
  '(queue, st, out) ← attemptPairLoop now mode (queueOf mode (waitingQueues st)) st;
  Some (set_waitingQueues (setQueue mode queue (waitingQueues st)) st, out).

(** ** Session teardown and relay *)

Definition endSession (sessionId : nat) (leaverId : string) (st : State)
  : State * list Emit :=
  match sessions_get (sessions st) sessionId with
  | None => (st, [])
  | Some session =>
      (set_sessions (sessions_delete (sessions st) sessionId) st,
       flat_map
         (λ participantId,
            match sockets st !! participantId with
            | None => []
            | Some _ =>
                if decide (participantId = leaverId)
                then [(ToSocket participantId, SystemSessionEnded sessionId)]
                else [(ToSocket participantId, SystemPartnerLeft sessionId)]
            end)
         (participants session))
  end.

(** The target of a relay: [None] when the handler returns early. *)
Definition relayTarget (st : State) (sessionId : nat) (senderId : string)
  : option string :=
  session ← sessions_get (sessions st) sessionId;
  if bool_decide (senderId ∈ participants session)
  then
    let targetId :=
      List.find (λ id, bool_decide (id ≠ senderId)) (participants session) in
    if truthy targetId then targetId else None
  else None.

Definition relayToSessionPeer (st : State) (sessionId : nat)
    (senderId : string) (event : ServerEvent) : list Emit :=
  match relayTarget st sessionId senderId with
  | Some targetId => [(ToSocket targetId, event)]
  | None => []
  end.

(** ** Socket handlers *)

Definition onProfileUpdate (st : State) (socket : string) (data : SocketData)
    (profile : ProfilePayload) : State * list Emit :=
  let normalizedEmail := toLowerCase (orEmpty (payload_email profile)) in
  let data :=
    {| data_profile := Some {| name := payload_name profile;
                               email := normalizedEmail;
                               interests := payload_interests profile |};
       data_mode := data_mode data |} in
  let st := set_sockets (<[socket := data]> (sockets st)) st in
  let st :=
    set_emailToSockets
      (registerSocketForEmail socket normalizedEmail (emailToSockets st)) st in
  let '(reps, rep) := getReputation (reputations st) normalizedEmail in
  let st := set_reputations reps st in
  (st,
   (if banned rep then [(ToSocket socket, SystemBanned rep)] else [])
   ++ [(ToSocket socket, ProfileReputation None rep)]).

Definition onMatchRequest (now : Z) (st : State) (socket : string)
    (data : SocketData) (mode : option string) : option (State * list Emit) :=
  if negb (truthy mode) then Some (st, [])
  else
    match waitingQueuesSlot (orEmpty mode) with
    | Absent => Some (st, [])
    | slot =>
        match data_profile data with
        | None =>
            Some (st, [(ToSocket socket,
                        SystemError "Profile missing. Please log in again.")])
        | Some profile =>
            let '(reps, rep) := getReputation (reputations st) (email profile) in
            let st := set_reputations reps st in
            if banned rep then Some (st, [(ToSocket socket, SystemBanned rep)])
            else
              let st :=
                set_waitingQueues (removeFromQueues socket (waitingQueues st)) st in
              let data :=
                {| data_profile := data_profile data; data_mode := mode |} in
              let st := set_sockets (<[socket := data]> (sockets st)) st in
              match slot with
              | OwnQueue m =>
                  let queue :=
                    queueOf m (waitingQueues st) ++ [{| socketId := socket |}] in
                  let st :=
                    set_waitingQueues (setQueue m queue (waitingQueues st)) st in
                  '(st, out) ← attemptPair now m st;
                  Some (st, (ToSocket socket, MatchQueued m (length queue)) :: out)
              | _ => None (* waitingQueues[mode].push is not a function *)
              end
        end
    end.

Definition onChatTextMessage (now : Z) (st : State) (socket : string)
    (sessionId : option nat) (body from : option string) : list Emit :=
  match sessionId with
  | Some sessionId =>
      if truthy body
      then relayToSessionPeer st sessionId socket
             (ChatText sessionId (orEmpty body) from now)
      else []
  | None => []
  end.

Definition onChatLeave (st : State) (socket : string) (sessionId : option nat)
  : State * list Emit :=
  let '(st, out) :=
    match sessionId with
    | Some sessionId =>
        if sessions_has (sessions st) sessionId
        then endSession sessionId socket st
        else
          match findSessionBySocket (sessions st) socket with
          | Some lookup => endSession (fst lookup) socket st
          | None => (st, [])
          end
    | None =>
        match findSessionBySocket (sessions st) socket with
        | Some lookup => endSession (fst lookup) socket st
        | None => (st, [])
        end
    end in
  (set_waitingQueues (removeFromQueues socket (waitingQueues st)) st, out).

(** The handler destructures [{ target, type }] only: the [sessionId] the
    client sends is not read. *)
Definition onProfileReaction (st : State) (target type : option string)
  : State * list Emit :=
  if truthy target && truthy type
  then
    let normalized := toLowerCase (orEmpty target) in
    let '(reps, rep) := applyReaction (reputations st) normalized (orEmpty type) in
    let st := set_reputations reps st in
    (st,
     (ToAll, ProfileReputation (Some normalized) rep)
     :: (if banned rep
         then List.map (λ socketId, (ToSocket socketId, SystemBanned rep))
                (default [] (emailToSockets st !! normalized))
         else []))
  else (st, []).

Definition onWebrtc (st : State) (socket : string) (kind : SignalKind)
    (sessionId : option nat) (blob : option string) : list Emit :=
  match sessionId with
  | Some sessionId =>
      let present :=
        match kind with
        | IceCandidate => bool_decide (is_Some blob)
        | _ => truthy blob
        end in
      if present
      then relayToSessionPeer st sessionId socket
             (Webrtc kind sessionId (orEmpty blob))
      else []
  | None => []
  end.

Definition onDisconnect (st : State) (socket : string) : State * list Emit :=
  let st := set_waitingQueues (removeFromQueues socket (waitingQueues st)) st in
  let '(st, out) :=
    match findSessionBySocket (sessions st) socket with
    | Some existing => endSession (fst existing) socket st
    | None => (st, [])
    end in
  (set_emailToSockets (unregisterSocket socket (emailToSockets st)) st, out).

Definition onMessage (now : Z) (st : State) (socket : string)
    (data : SocketData) (msg : ClientMsg) : option (State * list Emit) :=
  match msg with
  | ProfileUpdate profile => Some (onProfileUpdate st socket data profile)
  | MatchRequest mode => onMatchRequest now st socket data mode
  | ChatTextMessage sessionId body from _ =>
      Some (st, onChatTextMessage now st socket sessionId body from)
  | ChatLeave sessionId => Some (onChatLeave st socket sessionId)
  | ProfileReactionMsg target type _ => Some (onProfileReaction st target type)
  | WebrtcOffer sessionId description =>
      Some (st, onWebrtc st socket Offer sessionId description)
  | WebrtcAnswer sessionId description =>
      Some (st, onWebrtc st socket Answer sessionId description)
  | WebrtcIce sessionId candidate =>
      Some (st, onWebrtc st socket IceCandidate sessionId candidate)
  | NoPayload EvProfileUpdate JsUndefined =>
      (* the default parameter: [profile = {}] *)
      Some (onProfileUpdate st socket data
              {| payload_name := None; payload_email := None;
                 payload_interests := None |})
  | NoPayload _ _ =>
      None (* [profile.email] of [null]; destructuring of no object *)
  | ProfileUpdateOddEmail =>
      None (* [(profile.email || '').toLowerCase] is not a function *)
  | ProfileReactionOddTarget type =>
      if truthy type then None (* [target.toLowerCase] is not a function *)
      else Some (st, [])
  | MatchRequestOddMode =>
      None (* [waitingQueues[mode]]: cannot convert object to primitive value *)
  end.

(** ** The server as a transition function *)

(** One event handled to completion. Messages of a socket that is not
    connected are not dispatched; ids of new connections are fresh. *)
Definition step (now : Z) (st : State) (i : Input) : option (State * list Emit) :=
  match i with
  | Connection socket =>
      match sockets st !! socket with
      | Some _ => Some (st, [])
      | None =>
          Some (set_sockets
                  (<[socket := {| data_profile := None; data_mode := None |}]>
                     (sockets st)) st, [])
      end
  | Disconnect socket =>
      match sockets st !! socket with
      | Some _ =>
          (* the socket leaves io.sockets.sockets before its handler runs *)
          Some (onDisconnect (set_sockets (delete socket (sockets st)) st) socket)
      | None => Some (st, [])
      end
  | Message socket msg =>
      match sockets st !! socket with
      | Some data => onMessage now st socket data msg
      | None => Some (st, [])
      end
  | GetReputation email =>
      let '(reps, rep) := getReputation (reputations st) (toLowerCase email) in
      Some (set_reputations reps st, [(HttpResponse, ReputationJson rep)])
  | GetHealth =>
      Some (st, [(HttpResponse,
                  HealthJson (length (text (waitingQueues st)))
                             (length (video (waitingQueues st))))])
  end.

Fixpoint run (st : State) (trace : list (Z * Input))
  : option (State * list Emit) :=
  match trace with
  | [] => Some (st, [])
  | (now, i) :: trace =>
      '(st, out) ← step now st i;
      '(st, out') ← run st trace;
      Some (st, out ++ out')
  end.

(** * Client: feedback ledger and sign-in form

    The parts of the React client that are plain functions of their
    arguments: the state updater of [recordReaction] in
    [src/context/FeedbackContext.tsx] and the handlers of
    [src/pages/LoginPage.tsx], with [handleAuthenticated] of [src/App.tsx].
    [nextList] is the list that [useBannedInterests] computes from the
    text it fetched.  Strings are ASCII: [trim], [\s], [toUpperCase] and
    [toLowerCase] are modelled on ASCII characters. *)

(** ** String operations of JavaScript, on ASCII strings *)

Module JsString.

(** [\s], and the characters [trim] removes: tab, line feed, vertical tab,
    form feed, carriage return and space. *)
Definition isSpace (c : ascii) : bool :=
  let n := nat_of_ascii c in
  ((9 <=? n)%nat && (n <=? 13)%nat) || (n =? 32)%nat.

Definition upperAscii (c : ascii) : ascii :=
  let n := nat_of_ascii c in
  if (97 <=? n)%nat && (n <=? 122)%nat then ascii_of_nat (n - 32) else c.

Fixpoint trimStart (s : string) : string :=
  match s with
  | String c s' => if isSpace c then trimStart s' else s
  | EmptyString => EmptyString
  end.

Fixpoint trimEnd (s : string) : string :=
  match s with
  | String c s' =>
      match trimEnd s' with
      | EmptyString => if isSpace c then EmptyString else String c EmptyString
      | rest => String c rest
      end
  | EmptyString => EmptyString
  end.

Definition trim (s : string) : string := trimEnd (trimStart s).

(** [s.replace(/\s+/g, ' ')]: every maximal run of white space becomes one
    space; [inRun] tells that the run the next character would belong to has
    been replaced already. *)
Fixpoint replaceSpaces (inRun : bool) (s : string) : string :=
  match s with
  | String c s' =>
      if isSpace c
      then if inRun then replaceSpaces true s'
           else String " " (replaceSpaces true s')
      else String c (replaceSpaces false s')
  | EmptyString => EmptyString
  end.

(** [s.split(' ')]; the empty string gives one empty chunk. *)
Fixpoint split (s : string) : list string :=
  match s with
  | String c s' =>
      if Ascii.eqb c " " then EmptyString :: split s'
      else match split s' with
           | chunk :: chunks => String c chunk :: chunks
           | [] => [String c EmptyString]
           end
  | EmptyString => [EmptyString]
  end.

(** [s.includes(entry)] *)
Fixpoint includes (s entry : string) : bool :=
  String.prefix entry s
  || match s with
     | String _ s' => includes s' entry
     | EmptyString => false
     end.

End JsString.

(** ** [src/context/FeedbackContext.tsx] *)

Module FeedbackContext.

Inductive ReactionType := Like | Dislike | Report.

(** The value of the type on the wire. *)
Definition typeName (type : ReactionType) : string :=
  match type with
  | Like => "like"
  | Dislike => "dislike"
  | Report => "report"
  end.

Definition defaultReputation : Reputation :=
  {| likes := 0; dislikes := 0; reports := 0; banned := false |}.

Definition REPORT_THRESHOLD : N := 3.
Definition DISLIKE_THRESHOLD : N := 10.

(** [reputations[email] ?? defaultReputation] on the state object, which
    starts as [{}]: an own entry; else, for a name that [Object.prototype]
    has, the inherited member, which is not nullish and is no
    [ProfileReputation] ([None]: the counters computed from it are [NaN]);
    else the default. *)
Definition getReputationFor (reputations : gmap string Reputation)
    (email : string) : option Reputation :=
  match reputations !! email with
  | Some profile => Some profile
  | None =>
      if bool_decide (email ∈ objectPrototypeKeys) then None
      else Some defaultReputation
  end.

(** The state updater that [recordReaction] passes to [setReputations]. *)
Definition recordReaction (current : gmap string Reputation) (email : string)
    (type : ReactionType) : option (gmap string Reputation) :=
  profile ← getReputationFor current email;
  let next :=
    match type with
    | Like => {| likes := likes profile + 1; dislikes := dislikes profile;
                 reports := reports profile; banned := banned profile |}
    | Dislike => {| likes := likes profile; dislikes := dislikes profile + 1;
                    reports := reports profile; banned := banned profile |}
    | Report => {| likes := likes profile; dislikes := dislikes profile;
                   reports := reports profile + 1; banned := banned profile |}
    end in
  let reachedReportBan := (REPORT_THRESHOLD <=? reports next)%N in
  let reachedDislikeBan := (DISLIKE_THRESHOLD <=? dislikes next)%N in
  let next :=
    if reachedReportBan || reachedDislikeBan
    then {| likes := likes next; dislikes := dislikes next;
            reports := reports next; banned := true |}
    else next in
  Some (<[email := next]> current).

End FeedbackContext.

(** ** [src/pages/LoginPage.tsx] *)

Module LoginPage.
Import JsString.

Definition suggestedInterests : list string :=
  [ "Badger Athletics"; "Lakeshore Trails"; "Bascom Hill Walks"; "UW Housing";
    "Memorial Union Events"; "Campus Esports"; "Research Meetups";
    "Live Music on State Street"; "Coffee Chats"; "Startup Ideas" ].

(** [chunk.charAt(0).toUpperCase() + chunk.slice(1).toLowerCase()] *)
Definition capitalize (chunk : string) : string :=
  match chunk with
  | String c rest => String (upperAscii c) (toLowerCase rest)
  | EmptyString => EmptyString
  end.

Definition normalizeInterest (value : string) : string :=
  String.concat " " (capitalize <$> split (replaceSpaces false (trim value))).

(** [/^([a-z0-9_.+-]+)@wisc\.edu$/i.test(s)].  The class does not contain
    [@], so the group takes the longest run of class characters at the start
    and the rest of [s] has to be [@wisc.edu], in any case. *)
Definition isLocalChar (c : ascii) : bool :=
  let n := nat_of_ascii c in
  ((97 <=? n)%nat && (n <=? 122)%nat)
  || ((65 <=? n)%nat && (n <=? 90)%nat)
  || ((48 <=? n)%nat && (n <=? 57)%nat)
  || Ascii.eqb c "_" || Ascii.eqb c "." || Ascii.eqb c "+" || Ascii.eqb c "-".

Fixpoint skipLocal (s : string) : string :=
  match s with
  | String c s' => if isLocalChar c then skipLocal s' else s
  | EmptyString => EmptyString
  end.

Definition isWiscEmail (s : string) : bool :=
  match s with
  | String c s' =>
      isLocalChar c && String.eqb (toLowerCase (skipLocal s')) "@wisc.edu"
  | EmptyString => false
  end.

(** *** The form *)

(** [UserProfile] of [src/types.ts]. *)
Record UserProfile := mkUserProfile {
  user_name : string;
  user_email : string;
  user_interests : list string
}.

(** The state of the component. *)
Record Form := mkForm {
  form_name : string;
  form_email : string;
  selectedInterests : list string;
  newInterest : string;
  error : string
}.

Definition initialForm : Form :=
  {| form_name := ""; form_email := ""; selectedInterests := [];
     newInterest := ""; error := "" |}.

Definition setName (value : string) (f : Form) : Form :=
  {| form_name := value; form_email := form_email f;
     selectedInterests := selectedInterests f; newInterest := newInterest f;
     error := error f |}.

Definition setEmail (value : string) (f : Form) : Form :=
  {| form_name := form_name f; form_email := value;
     selectedInterests := selectedInterests f; newInterest := newInterest f;
     error := error f |}.

Definition setSelectedInterests (updater : list string → list string)
    (f : Form) : Form :=
  {| form_name := form_name f; form_email := form_email f;
     selectedInterests := updater (selectedInterests f);
     newInterest := newInterest f; error := error f |}.

Definition setNewInterest (value : string) (f : Form) : Form :=
  {| form_name := form_name f; form_email := form_email f;
     selectedInterests := selectedInterests f; newInterest := value;
     error := error f |}.

Definition setError (value : string) (f : Form) : Form :=
  {| form_name := form_name f; form_email := form_email f;
     selectedInterests := selectedInterests f; newInterest := newInterest f;
     error := value |}.

Definition toggleInterest (interest : string) (f : Form) : Form :=
  setSelectedInterests
    (λ current,
       if bool_decide (interest ∈ current)
       then filter (λ item, item ≠ interest) current
       else current ++ [interest])
    f.

Definition handleAddInterest (bannedInterests : list string) (f : Form) : Form :=
  let f := setError "" f in
  let normalized := normalizeInterest (newInterest f) in
  if String.eqb normalized "" then f
  else
    let lower := toLowerCase normalized in
    let violates := existsb (λ entry, includes lower entry) bannedInterests in
    if violates
    then setError "That interest cannot be used on this platform. Please try another one." f
    else
      setNewInterest ""
        (setSelectedInterests
           (λ current,
              if bool_decide (normalized ∈ current) then current
              else current ++ [normalized])
           f).

(** [handleSubmit]: the form afterwards and the profile passed to
    [onAuthenticated], if any. *)
Definition handleSubmit (f : Form) : Form * option UserProfile :=
  let f := setError "" f in
  let trimmedName := trim (form_name f) in
  let trimmedEmail := toLowerCase (trim (form_email f)) in
  if String.eqb trimmedName ""
  then (setError "Please share your preferred name so classmates can recognize you." f,
        None)
  else if negb (isWiscEmail trimmedEmail)
  then (setError "This site only allows logins with a @wisc.edu email address." f,
        None)
  else (f, Some {| user_name := trimmedName; user_email := trimmedEmail;
                   user_interests := selectedInterests f |}).

(** The events of the form, with the handlers the markup binds them to. A
    click on [Add interest] sees the banned list loaded so far. An accepted
    submit leaves the page; a later visit starts from [initialForm] again. *)
Inductive Action :=
| ChangeName (value : string)
| ChangeEmail (value : string)
| ChangeNewInterest (value : string)
| ClickInterest (interest : string)
| ClickAddInterest (bannedInterests : list string)
| SubmitForm.

Definition dispatch (f : Form) (action : Action) : Form :=
  match action with
  | ChangeName value => setName value f
  | ChangeEmail value => setEmail value f
  | ChangeNewInterest value => setNewInterest value f
  | ClickInterest interest => toggleInterest interest f
  | ClickAddInterest bannedInterests => handleAddInterest bannedInterests f
  | SubmitForm => (handleSubmit f).1
  end.

End LoginPage.

(** ** [src/hooks/useBannedInterests.ts] *)

Module useBannedInterests.
Import JsString.

Definition consHead (c : ascii) (lines : list string) : list string :=
  match lines with
  | line :: lines => String c line :: lines
  | [] => [String c EmptyString]
  end.

(** [text.split(/\r?\n/)]: a line ends at a line feed, or at a carriage
    return that a line feed follows. *)
Fixpoint splitLines (text : string) : list string :=
  match text with
  | String c text' =>
      if Ascii.eqb c "010" then EmptyString :: splitLines text'
      else
        match text' with
        | String c' text'' =>
            if Ascii.eqb c "013" && Ascii.eqb c' "010"
            then EmptyString :: splitLines text''
            else consHead c (splitLines text')
        | EmptyString => [String c EmptyString]
        end
  | EmptyString => [EmptyString]
  end.

(** The list [load] stores from the text of [/banned-interests.txt]. *)
Definition nextList (text : string) : list string :=
  filter (λ entry, entry ≠ "")
    ((λ entry, toLowerCase (trim entry)) <$> splitLines text).

End useBannedInterests.

(** ** [src/App.tsx] *)

Module App.

(** The payload of the [profile:update] that [handleAuthenticated] sends:
    the profile object as it is. *)
Definition handleAuthenticated (profile : LoginPage.UserProfile)
  : ProfilePayload :=
  {| payload_name := Some (LoginPage.user_name profile);
     payload_email := Some (LoginPage.user_email profile);
     payload_interests := Some (LoginPage.user_interests profile) |}.

End App.

(** * Vocabulary of the properties *)

(** The record a read of [email] returns. *)
Definition recordOf (ledger : gmap string Reputation) (email : string)
  : Reputation :=
  (getReputation ledger email).2.

Definition banInvariant (r : Reputation) : Prop :=
  banned r = ((REPORT_THRESHOLD <=? reports r)%N
              || (DISLIKE_THRESHOLD <=? dislikes r)%N).

(** A sequence of [applyReaction(email, type)] calls. *)
Definition applyReactions (ledger : gmap string Reputation)
    (calls : list (string * string)) : gmap string Reputation :=
  foldl (λ ledger call, (applyReaction ledger call.1 call.2).1) ledger calls.

Definition ledgerOk (ledger : gmap string Reputation) : Prop :=
  ∀ email r, ledger !! email = Some r → banInvariant r.

(** No counter of [r'] is below that of [r], and [r'] is banned if [r] is. *)
Definition notDecreased (r r' : Reputation) : Prop :=
  (likes r ≤ likes r')%N
  ∧ (dislikes r ≤ dislikes r')%N
  ∧ (reports r ≤ reports r')%N
  ∧ (banned r = true → banned r' = true).

(** What one event does to the ledger: nothing, a read, or one reaction. *)
Inductive ledgerStep (ledger : gmap string Reputation)
  : gmap string Reputation → Prop :=
| ledger_same : ledgerStep ledger ledger
| ledger_read email : ledgerStep ledger (getReputation ledger email).1
| ledger_reaction email type :
    ledgerStep ledger (applyReaction ledger email type).1.

(** Every key of the map is below the uuid counter: the next [uuidv4()] is
    not a key yet. *)
Definition uuidFresh (st : State) : Prop :=
  ∀ k, (uuidCount st ≤ k)%nat → sessions_get (sessions st) k = None.

(** The session id carried by a relay message ([chat:text:message] and the
    three [webrtc:*] events). *)
Definition relaySessionId (msg : ClientMsg) : option (option nat) :=
  match msg with
  | ChatTextMessage sessionId _ _ _
  | WebrtcOffer sessionId _
  | WebrtcAnswer sessionId _
  | WebrtcIce sessionId _ => Some sessionId
  | _ => None
  end.

(** The carried id is missing, names no session, or names a session the
    sender does not take part in. *)
Definition notParticipant (st : State) (sender : string) (sessionId : option nat)
  : Prop :=
  match sessionId with
  | None => True
  | Some k =>
      match sessions_get (sessions st) k with
      | None => True
      | Some session => sender ∉ participants session
      end
  end.



(** [handlesFor(email)]: the sockets registered for [email]. *)
Definition handlesFor (st : State) (email : string) : list string :=
  default [] (emailToSockets st !! email).

Definition modeName (mode : Mode) : string :=
  match mode with
  | ModeText => "text"
  | ModeVideo => "video"
  end.

(** The socket is connected, has a profile attached, and the email of that
    profile is not banned: its [match:request] passes the ban check. *)
Definition eligible (st : State) (h : string) : Prop :=
  ∃ data profile,
    sockets st !! h = Some data
    ∧ data_profile data = Some profile
    ∧ banned (recordOf (reputations st) (email profile)) = false.

(** Consecutive arrivals two by two, numbered from [sessionId]; each session
    starts when its second participant arrives. *)
Fixpoint pairUp (mode : Mode) (sessionId : nat) (arrivals : list (Z * string))
  : list (nat * Session) :=
  match arrivals with
  | (_, h1) :: (t2, h2) :: arrivals =>
      (sessionId,
       pairedSession sessionId mode (mkQueueEntry h1) (mkQueueEntry h2) t2)
      :: pairUp mode (S sessionId) arrivals
  | _ => []
  end.

Fixpoint leftOver (arrivals : list (Z * string)) : list QueueEntry :=
  match arrivals with
  | _ :: _ :: arrivals => leftOver arrivals
  | [(_, h)] => [mkQueueEntry h]
  | [] => []
  end.

Definition requests (mode : Mode) (arrivals : list (Z * string))
  : list (Z * Input) :=
  (λ a, (a.1, Message a.2 (MatchRequest (Some (modeName mode))))) <$> arrivals.

(** The state in which [attemptPair] runs for an admitted request. *)
Definition enqueued (st : State) (h : string) (data : SocketData)
    (profile : Profile) (mode : Mode) : State :=
  let st := set_reputations (getReputation (reputations st) (email profile)).1 st in
  let st := set_waitingQueues (removeFromQueues h (waitingQueues st)) st in
  let st :=
    set_sockets (<[h := {| data_profile := data_profile data;
                           data_mode := Some (modeName mode) |}]> (sockets st)) st in
  set_waitingQueues
    (setQueue mode (queueOf mode (waitingQueues st) ++ [mkQueueEntry h])
       (waitingQueues st)) st.

Definition student (name email : string) : ProfilePayload :=
  {| payload_name := Some name; payload_email := Some email;
     payload_interests := Some [] |}.

Definition attached (name email : string) : SocketData :=
  {| data_profile := Some {| name := Some name; email := email;
                             interests := Some [] |};
     data_mode := None |}.

(** Three students sign in; [s1] and [s2] are paired in the video lounge;
    [s1] then presses "New match" (the client sends [match:request] without
    leaving), and [s3] asks for a match. *)
Definition newMatchTrace : list (Z * Input) :=
  [ (1, Connection "s1"); (2, Connection "s2"); (3, Connection "s3");
    (4, Message "s1" (ProfileUpdate (student "Ann" "ann@wisc.edu")));
    (5, Message "s2" (ProfileUpdate (student "Bo" "bo@wisc.edu")));
    (6, Message "s3" (ProfileUpdate (student "Cy" "cy@wisc.edu")));
    (7, Message "s1" (MatchRequest (Some "video")));
    (8, Message "s2" (MatchRequest (Some "video")));
    (9, Message "s1" (MatchRequest (Some "video")));
    (10, Message "s3" (MatchRequest (Some "video"))) ]%Z.


(** [s1] waits in the text queue; three reports ban its email; then [s2]
    asks for a match. *)
Definition bannedWhileWaiting : list (Z * Input) :=
  [ (1, Connection "s1"); (2, Connection "s2"); (3, Connection "s3");
    (4, Message "s1" (ProfileUpdate (student "Ann" "ann@wisc.edu")));
    (5, Message "s2" (ProfileUpdate (student "Bo" "bo@wisc.edu")));
    (6, Message "s1" (MatchRequest (Some "text")));
    (7, Message "s3" (ProfileReactionMsg (Some "ann@wisc.edu") (Some "report") None));
    (8, Message "s3" (ProfileReactionMsg (Some "ann@wisc.edu") (Some "report") None));
    (9, Message "s3" (ProfileReactionMsg (Some "ann@wisc.edu") (Some "report") None))
  ]%Z.

(** Four students signed in; nobody waits, nobody is paired. *)
Definition lounge : State :=
  {| reputations := ∅;
     waitingQueues := {| text := []; video := [] |};
     sessions := [];
     emailToSockets := ∅;
     sockets := <["s1" := attached "Ann" "ann@wisc.edu"]>
                  (<["s2" := attached "Bo" "bo@wisc.edu"]>
                     (<["s3" := attached "Cy" "cy@wisc.edu"]>
                        (<["s4" := attached "Di" "di@wisc.edu"]> ∅)));
     uuidCount := 0 |}.

(** [s1] and [s2] in text session 0. *)
Definition chatting : State :=
  {| reputations := ∅;
     waitingQueues := {| text := []; video := [] |};
     sessions := [(0%nat, mkSession 0 ModeText ["s1"; "s2"] 8)];
     emailToSockets := ∅;
     sockets := <["s1" := attached "Ann" "ann@wisc.edu"]>
                  (<["s2" := attached "Bo" "bo@wisc.edu"]> ∅);
     uuidCount := 1 |}.


(** [s1] signs in as Ann, asks for a text match, then signs in again under
    another address. *)
Definition twoEmails : list (Z * Input) :=
  (1%Z, Message "s1" (ProfileUpdate (student "Ann" "Ann@wisc.edu")))
  :: [(2%Z, Message "s1" (MatchRequest (Some "text")))]
  ++ [(3%Z, Message "s1" (ProfileUpdate (student "Ann" "ann2@wisc.edu")))].

Definition connected1 : State :=
  set_sockets {[ "s1" := mkSocketData None None ]} initialState.

Definition afterTwoEmails : State * list Emit :=
  default (initialState, []) (run connected1 twoEmails).

(** ** Well-formed server states *)

Definition otherMode (mode : Mode) : Mode :=
  match mode with
  | ModeText => ModeVideo
  | ModeVideo => ModeText
  end.

(** The socket is connected and has a profile attached. *)
Definition ready (st : State) (h : string) : Prop :=
  ∃ data profile,
    sockets st !! h = Some data ∧ data_profile data = Some profile.

(** The sockets waiting in either queue. *)
Definition queuedSockets (st : State) : list string :=
  socketId <$> (text (waitingQueues st) ++ video (waitingQueues st)).

(** Each queue holds at most one entry, no socket waits in both queues, and
    every waiting socket is connected with a profile attached. *)
Definition queuesOk (st : State) : Prop :=
  (∀ mode, (length (queueOf mode (waitingQueues st)) ≤ 1)%nat)
  ∧ (∀ mode a b,
       a ∈ queueOf mode (waitingQueues st) →
       b ∈ queueOf (otherMode mode) (waitingQueues st) →
       socketId a ≠ socketId b)
  ∧ (∀ mode a, a ∈ queueOf mode (waitingQueues st) → ready st (socketId a)).

(** The socket is connected with a profile whose email is not banned, and
    [m] names a member inherited from [Object.prototype]. *)
Definition admittedInherited (st : State) (h m : string) : Prop :=
  m ∈ objectPrototypeKeys
  ∧ ∃ data profile,
      sockets st !! h = Some data
      ∧ data_profile data = Some profile
      ∧ banned (recordOf (reputations st) (email profile)) = false.

(** The events on which a handler throws, each sent by a connected socket:
    an event without payload, other than a [profile:update] with
    [undefined]; a [profile:update] whose email is truthy and no string; a
    [profile:reaction] with a type and a target that is truthy and no string;
    a [match:request] whose mode has no property key; and a [match:request]
    whose mode names a member inherited from [Object.prototype], sent by a
    socket with a profile whose email is not banned. *)
Definition throwsOn (st : State) (i : Input) : Prop :=
  ∃ h msg,
    i = Message h msg
    ∧ is_Some (sockets st !! h)
    ∧ match msg with
      | NoPayload event payload =>
          event ≠ EvProfileUpdate ∨ payload = JsNull
      | ProfileUpdateOddEmail => True
      | ProfileReactionOddTarget type => truthy type = true
      | MatchRequestOddMode => True
      | MatchRequest (Some m) => admittedInherited st h m
      | _ => False
      end.

(** Ann is signed in on [s1]. *)
Definition signedIn : list (Z * Input) :=
  [ (1, Connection "s1");
    (2, Message "s1" (ProfileUpdate (student "Ann" "ann@wisc.edu"))) ]%Z.

(** Session ids are unique keys handed out by the counter, every session is
    stored under its own id and has exactly two distinct participants. *)
Definition sessionsOk (st : State) : Prop :=
  NoDup (sessions st).*1
  ∧ ∀ k session,
      (k, session) ∈ sessions st →
      session_id session = k
      ∧ (k < uuidCount st)%nat
      ∧ ∃ a b, participants session = [a; b] ∧ a ≠ b.

(** [h] is a participant of the session stored under [k]. *)
Definition inSession (st : State) (h : string) (k : nat) : Prop :=
  ∃ session, (k, session) ∈ sessions st ∧ h ∈ participants session.

(** [s3] is signed in next to the two students of [chatting]. *)
Definition chattingWithGuest : State :=
  set_sockets (<["s3" := attached "Cy" "cy@wisc.edu"]> (sockets chatting))
    chatting.

(** Ann waits alone in the text queue; Bo is signed in. *)
Definition oneWaiting : State :=
  set_waitingQueues {| text := [mkQueueEntry "s1"]; video := [] |}
    (set_sockets (<["s1" := attached "Ann" "ann@wisc.edu"]>
                    (<["s2" := attached "Bo" "bo@wisc.edu"]> ∅))
       initialState).

(** How many of the calls are [applyReaction(email, type)]. *)
Definition countCalls (email type : string) (calls : list (string * string))
  : N :=
  N.of_nat (length (filter (λ call, call.1 = email ∧ call.2 = type) calls)).

(** Every set of the identity registry is non-empty and duplicate-free, made
    of connected sockets, and stored under a non-empty lower-case email. *)
Definition registryOk (st : State) : Prop :=
  ∀ e set,
    emailToSockets st !! e = Some set →
    set ≠ []
    ∧ NoDup set
    ∧ e ≠ ""
    ∧ toLowerCase e = e
    ∧ ∀ h, h ∈ set → is_Some (sockets st !! h).

(** The state after [bannedWhileWaiting], and the events it emitted. *)
Definition afterBan : State * list Emit :=
  default (initialState, []) (run initialState bannedWhileWaiting).

(** The state after [newMatchTrace]. *)
Definition afterNewMatch : State * list Emit :=
  default (initialState, []) (run initialState newMatchTrace).

(** The state after [signedIn]. *)
Definition afterSignIn : State * list Emit :=
  default (initialState, []) (run initialState signedIn).

(** ** Vocabulary of the client's properties *)

(** A sequence of reactions recorded by one client. *)
Fixpoint recordReactions (current : gmap string Reputation)
    (calls : list (string * FeedbackContext.ReactionType))
  : option (gmap string Reputation) :=
  match calls with
  | [] => Some current
  | call :: calls =>
      next ← FeedbackContext.recordReaction current call.1 call.2;
      recordReactions next calls
  end.

(** The [profile:reaction] that [handleReaction] sends over socket [h] for a
    reaction it recorded. *)
Definition reactionSent (h : string)
    (call : string * FeedbackContext.ReactionType) (event : Z * Input) : Prop :=
  ∃ now sessionId,
    event = (now, Message h (ProfileReactionMsg (Some call.1)
                               (Some (FeedbackContext.typeName call.2))
                               sessionId)).

(** An email a client may react to: not empty, no name of a member of
    [Object.prototype], and in lower case as the server hands it out. *)
Definition plainEmail (email : string) : Prop :=
  email ≠ "" ∧ (email ∉ objectPrototypeKeys) ∧ toLowerCase email = email.

(** The form after a sequence of events, from the first render. *)
Definition formAfter (actions : list LoginPage.Action) : LoginPage.Form :=
  foldl LoginPage.dispatch LoginPage.initialForm actions.

Fixpoint allChars (p : ascii → bool) (s : string) : bool :=
  match s with
  | String c s' => p c && allChars p s'
  | EmptyString => true
  end.

(** A campus address in lower case: a non-empty local part of lower-case
    letters, digits and [_ . + -], then [@wisc.edu]. *)
Definition wiscAddress (email : string) : Prop :=
  ∃ localPart,
    email = localPart +:+ "@wisc.edu"
    ∧ localPart ≠ ""
    ∧ allChars (λ c, LoginPage.isLocalChar c && Ascii.eqb (lowerAscii c) c)
        localPart = true.

(** [s] does not start with white space. *)
Definition startsClean (s : string) : Prop :=
  match s with
  | String c _ => JsString.isSpace c = false
  | EmptyString => True
  end.

(** [s] does not end with white space. *)
Fixpoint endsClean (s : string) : Prop :=
  match s with
  | String c s' =>
      match s' with
      | EmptyString => JsString.isSpace c = false
      | String _ _ => endsClean s'
      end
  | EmptyString => True
  end.

(** Every white-space character of [s] is a space, and the character after
    it exists and is not white space. *)
Fixpoint tidy (s : string) : Prop :=
  match s with
  | String c s' =>
      (JsString.isSpace c = true → c = " "%char ∧ s' ≠ "" ∧ startsClean s')
      ∧ tidy s'
  | EmptyString => True
  end.

(** Title case, character by character: upper case at the start and after
    each space, lower case elsewhere. *)
Fixpoint titleCase (atStart : bool) (s : string) : string :=
  match s with
  | String c s' =>
      if Ascii.eqb c " " then String " " (titleCase true s')
      else String (if atStart then JsString.upperAscii c else lowerAscii c)
             (titleCase false s')
  | EmptyString => EmptyString
  end.

(** [entry] occurs in [s]. *)
Definition substringOf (entry s : string) : Prop :=
  ∃ pre post, s = pre +:+ entry +:+ post.

(** * Properties *)

(** The payloads that are no object, in a hypothesis [H : ... = Some _]: the
    handler threw, except where [profile:update] falls back to its default
    parameter and where a reaction without type is dropped. *)
Ltac odd_payloads :=
  repeat match goal with
    | H : match ?event with EvProfileUpdate => _ | _ => _ end = Some _ |- _ =>
        destruct event; try discriminate H
    | H : match ?payload with JsUndefined => _ | JsNull => _ end = Some _ |- _ =>
        destruct payload; try discriminate H
    | H : (if truthy ?type then None else Some _) = Some _ |- _ =>
        destruct (truthy type) eqn:?; [discriminate H|]
    | H : @None _ = Some _ |- _ => discriminate H
    end.

(** ** Runs *)

Lemma run_cons now i trace st st1 out1 st2 out2 :
  step now st i = Some (st1, out1) →
  run st1 trace = Some (st2, out2) →
  run st ((now, i) :: trace) = Some (st2, out1 ++ out2).
Proof. intros Hstep Hrun. simpl. rewrite Hstep. simpl. by rewrite Hrun. Qed.

Lemma run_cons_inv now i trace st st' out :
  run st ((now, i) :: trace) = Some (st', out) →
  ∃ st1 out1 out2,
    step now st i = Some (st1, out1)
    ∧ run st1 trace = Some (st', out2)
    ∧ out = out1 ++ out2.
Proof.
  simpl. destruct (step now st i) as [[st1 out1]|] eqn:Hstep; simpl; [|done].
  destruct (run st1 trace) as [[st2 out2]|] eqn:Hrest; simpl; [|done].
  intros [= <- <-]. by exists st1, out1, out2.
Qed.

Lemma run_one now i st st' out :
  run st [(now, i)] = Some (st', out) → step now st i = Some (st', out).
Proof.
  intros (st1 & out1 & out2 & Hstep & Hrest & ->)%run_cons_inv.
  simpl in Hrest. simplify_eq. by rewrite app_nil_r.
Qed.

Lemma run_app trace1 : ∀ trace2 st st' out,
  run st (trace1 ++ trace2) = Some (st', out) →
  ∃ st1 out1 out2,
    run st trace1 = Some (st1, out1) ∧ run st1 trace2 = Some (st', out2)
    ∧ out = out1 ++ out2.
Proof.
  induction trace1 as [|[now i] trace1 IH]; intros trace2 st st' out Hrun.
  - simpl in *. by eexists st, [], out.
  - rewrite <- app_comm_cons in Hrun.
    apply run_cons_inv in Hrun as (sta & outa & outb & Hstep & Hrest & ->).
    apply IH in Hrest as (st1 & out1 & out2 & H1 & H2 & ->).
    exists st1, (outa ++ out1), out2.
    split; [by eapply run_cons|]. split; [done|]. by rewrite app_assoc.
Qed.

(** A property that every allowed event preserves holds after every run of
    allowed events. *)
Section RunInvariant.
Context (allowed : Input → Prop) (P : State → Prop).
Hypothesis step_preserves :
  ∀ now st i st' out,
    allowed i → step now st i = Some (st', out) → P st → P st'.

Lemma run_preserves trace : ∀ st st' out,
  Forall (λ e, allowed e.2) trace →
  run st trace = Some (st', out) → P st → P st'.
Proof.
  induction trace as [|[now i] trace IH]; intros st st' out Hall Hrun HP.
  - simpl in Hrun. by simplify_eq.
  - apply Forall_cons in Hall as [Hi Hall].
    apply run_cons_inv in Hrun as (st1 & out1 & out2 & Hstep & Hrest & _).
    eapply IH; [exact Hall|exact Hrest|]. by eapply step_preserves.
Qed.
End RunInvariant.

Lemma run_preserves_all (P : State → Prop) :
  (∀ now st i st' out, step now st i = Some (st', out) → P st → P st') →
  ∀ trace st st' out, run st trace = Some (st', out) → P st → P st'.
Proof.
  intros Hstep trace st st' out.
  apply (run_preserves (λ _, True) P); [by eauto|].
  by apply Forall_forall.
Qed.

(** ** Reputation ledger *)

Lemma banInvariant_zero : banInvariant zeroReputation.
Proof. reflexivity. Qed.

Lemma bumpReaction_invariant type r :
  banInvariant r → banInvariant (bumpReaction type r).
Proof.
  unfold banInvariant, bumpReaction, REPORT_THRESHOLD, DISLIKE_THRESHOLD.
  destruct r as [l d p b]; simpl; intros ->.
  repeat case_decide; subst; try discriminate; simpl;
    repeat (match goal with
            | |- context [(?a <=? ?b)%N] => destruct (N.leb_spec a b)
            end; simpl in *); try reflexivity; lia.
Qed.

Lemma bumpReaction_monotone type r :
  (likes r ≤ likes (bumpReaction type r))%N
  ∧ (dislikes r ≤ dislikes (bumpReaction type r))%N
  ∧ (reports r ≤ reports (bumpReaction type r))%N
  ∧ (banned r = true → banned (bumpReaction type r) = true).
Proof.
  unfold bumpReaction. destruct r as [l d p b]; simpl.
  repeat case_decide; simpl;
    repeat match goal with
           | |- context [if ?c then _ else _] => destruct c
           end; simpl; repeat split; auto; lia.
Qed.

Lemma recordOf_lookup ledger email :
  recordOf ledger email =
  if decide (email = "") then zeroReputation
  else default zeroReputation (ledger !! email).
Proof.
  unfold recordOf, getReputation. case_decide; [done|].
  by destruct (ledger !! email).
Qed.

Lemma getReputation_ledger_lookup ledger email other :
  (getReputation ledger email).1 !! other =
  if decide (email ≠ "" ∧ other = email ∧ ledger !! email = None)
  then Some zeroReputation else ledger !! other.
Proof.
  unfold getReputation. destruct (decide (email = "")) as [He|He].
  - simpl. rewrite decide_False by tauto. done.
  - destruct (ledger !! email) eqn:Hl; simpl.
    + rewrite decide_False; [done|]. intros (_ & _ & ?). discriminate.
    + destruct (decide (email ≠ "" ∧ other = email ∧ None = None)) as [Hc|Hc].
      * destruct Hc as (_ & -> & _). by rewrite lookup_insert_eq.
      * rewrite lookup_insert_ne; [done|]. intros <-. tauto.
Qed.

(** A read never changes what any later read returns. *)
Lemma recordOf_getReputation ledger email other :
  recordOf (getReputation ledger email).1 other = recordOf ledger other.
Proof.
  rewrite !recordOf_lookup. case_decide; [done|].
  rewrite getReputation_ledger_lookup.
  case_decide as Hc; [|done].
  destruct Hc as (_ & -> & ->). done.
Qed.

Lemma getReputation_ok ledger email :
  ledgerOk ledger → ledgerOk (getReputation ledger email).1.
Proof.
  intros Hok other r. rewrite getReputation_ledger_lookup.
  case_decide; [|by apply Hok].
  intros [= <-]. apply banInvariant_zero.
Qed.

Lemma recordOf_ok ledger email : ledgerOk ledger → banInvariant (recordOf ledger email).
Proof.
  intros Hok. rewrite recordOf_lookup. case_decide; [apply banInvariant_zero|].
  destruct (ledger !! email) eqn:Hl; simpl; [by eapply Hok|apply banInvariant_zero].
Qed.

Lemma applyReaction_record ledger email type :
  (applyReaction ledger email type).2 = bumpReaction type (recordOf ledger email).
Proof.
  unfold applyReaction, recordOf. by destruct (getReputation ledger email).
Qed.

Lemma applyReaction_ledger_lookup ledger email type other :
  (applyReaction ledger email type).1 !! other =
  if decide (email ≠ "" ∧ other = email)
  then Some (bumpReaction type (recordOf ledger email))
  else ledger !! other.
Proof.
  unfold applyReaction, recordOf.
  pose proof (getReputation_ledger_lookup ledger email other) as Hg.
  destruct (getReputation ledger email) as [ledger' r]; simpl in *.
  unfold storeReputation. destruct (decide (email = "")) as [He|He].
  - rewrite Hg. rewrite !decide_False by tauto. done.
  - destruct (decide (email ≠ "" ∧ other = email)) as [Hc|Hc].
    + destruct Hc as [_ ->]. by rewrite lookup_insert_eq.
    + rewrite lookup_insert_ne by (intros <-; tauto).
      rewrite Hg. rewrite decide_False by tauto. done.
Qed.

Lemma recordOf_applyReaction ledger email type other :
  recordOf (applyReaction ledger email type).1 other =
  if decide (email ≠ "" ∧ other = email)
  then bumpReaction type (recordOf ledger email)
  else recordOf ledger other.
Proof.
  rewrite (recordOf_lookup _ other), applyReaction_ledger_lookup.
  destruct (decide (other = "")) as [He|He].
  - subst other. rewrite decide_False by (intros [? ?]; congruence).
    by rewrite recordOf_lookup.
  - destruct (decide (email ≠ "" ∧ other = email)) as [Hc|Hc]; [done|].
    by rewrite recordOf_lookup, decide_False.
Qed.

Lemma applyReaction_ok ledger email type :
  ledgerOk ledger → ledgerOk (applyReaction ledger email type).1.
Proof.
  intros Hok other r. rewrite applyReaction_ledger_lookup.
  case_decide; [|by apply Hok].
  intros [= <-]. by apply bumpReaction_invariant, recordOf_ok.
Qed.

Lemma applyReactions_ok calls : ∀ ledger,
  ledgerOk ledger → ledgerOk (applyReactions ledger calls).
Proof.
  induction calls as [|call calls IH]; intros ledger Hok; [done|].
  apply IH. by apply applyReaction_ok.
Qed.

Lemma ledgerOk_empty : ledgerOk ∅.
Proof. intros email r. by rewrite lookup_empty. Qed.

(** C9 as stated fails: a read of an unseen email through
    [GET /reputation/:email] adds an entry to the ledger. *)
Lemma getReputation_read_creates_entry :
  ∃ st out,
    step 0 initialState (GetReputation "New@wisc.edu") = Some (st, out)
    ∧ out = [(HttpResponse, ReputationJson zeroReputation)]
    ∧ reputations initialState !! "new@wisc.edu" = None
    ∧ reputations st !! "new@wisc.edu" = Some zeroReputation
    ∧ reputations st ≠ reputations initialState.
Proof.
  eexists _, _. split; [reflexivity|]. split; [reflexivity|].
  split; [reflexivity|]. split; [reflexivity|].
  intros Heq. apply (f_equal (λ m, m !! "new@wisc.edu")) in Heq.
  discriminate Heq.
Qed.

(** C9, amended. A read returns the zero-valued record for an unseen email
    and the stored record for a seen one. It leaves the ledger unchanged for
    the empty email and for an email already in the ledger; for an unseen
    non-empty email the read itself stores the zero-valued record under that
    email (get-or-create) and changes no other entry. *)
Theorem getReputation_get_or_create
    (ledger : gmap string Reputation) (email : string) :
  (email = "" →
   getReputation ledger email = (ledger, zeroReputation))
  ∧ (∀ r, email ≠ "" → ledger !! email = Some r →
     getReputation ledger email = (ledger, r))
  ∧ (email ≠ "" → ledger !! email = None →
     getReputation ledger email = (<[email := zeroReputation]> ledger, zeroReputation)
     ∧ (getReputation ledger email).1 ≠ ledger
     ∧ ∀ other, other ≠ email →
         (getReputation ledger email).1 !! other = ledger !! other).
Proof.
  unfold getReputation. split; [|split].
  - intros ->. done.
  - intros r He Hl. rewrite decide_False by done. by rewrite Hl.
  - intros He Hl. rewrite decide_False by done. rewrite Hl. simpl.
    split; [done|]. split.
    + intros Heq. apply (f_equal (λ m, m !! email)) in Heq.
      rewrite lookup_insert_eq, Hl in Heq. discriminate.
    + intros other Hne. by rewrite lookup_insert_ne.
Qed.

Lemma getReputation_get_or_create_witness :
  getReputation ∅ "" = (∅, zeroReputation)
  ∧ getReputation {[ "b@wisc.edu" := mkReputation 1 0 3 true ]} "b@wisc.edu"
    = ({[ "b@wisc.edu" := mkReputation 1 0 3 true ]}, mkReputation 1 0 3 true)
  ∧ getReputation ∅ "a@wisc.edu"
    = (<["a@wisc.edu" := zeroReputation]> ∅, zeroReputation).
Proof.
  split; [|split].
  - apply (proj1 (getReputation_get_or_create ∅ "")). reflexivity.
  - apply (proj1 (proj2 (getReputation_get_or_create
                           {[ "b@wisc.edu" := mkReputation 1 0 3 true ]}
                           "b@wisc.edu"))); [discriminate|reflexivity].
  - apply (proj2 (proj2 (getReputation_get_or_create ∅ "a@wisc.edu")));
      [discriminate|reflexivity].
Defined.

(** ** The session map *)

Lemma sessions_get_cons k' v m k :
  sessions_get ((k', v) :: m) k =
  if decide (k' = k) then Some v else sessions_get m k.
Proof.
  unfold sessions_get. simpl.
  destruct (Nat.eqb_spec k' k); [by rewrite decide_True|by rewrite decide_False].
Qed.

Lemma sessions_get_app m1 m2 k :
  sessions_get (m1 ++ m2) k =
  match sessions_get m1 k with
  | Some v => Some v
  | None => sessions_get m2 k
  end.
Proof.
  induction m1 as [|[k' v] m1 IH]; [done|].
  rewrite <- app_comm_cons, !sessions_get_cons. by case_decide.
Qed.

Lemma sessions_get_delete m j k :
  sessions_get (sessions_delete m j) k =
  if decide (k = j) then None else sessions_get m k.
Proof.
  unfold sessions_delete.
  induction m as [|[k' v] m IH].
  - by case_decide.
  - rewrite filter_cons. simpl. rewrite sessions_get_cons.
    destruct (decide (k' ≠ j)) as [Hne|Heq].
    + rewrite sessions_get_cons, IH.
      destruct (decide (k' = k)); [subst; by rewrite decide_False|done].
    + apply dec_stable in Heq. subst k'. rewrite IH.
      destruct (decide (k = j)); [done|]. by rewrite decide_False.
Qed.

Lemma sessions_has_true m k : sessions_has m k = true ↔ is_Some (sessions_get m k).
Proof. unfold sessions_has. by rewrite bool_decide_eq_true. Qed.

Lemma sessions_has_false m k : sessions_has m k = false ↔ sessions_get m k = None.
Proof.
  unfold sessions_has. rewrite bool_decide_eq_false.
  by rewrite eq_None_not_Some.
Qed.

Lemma sessions_set_fresh m k v :
  sessions_get m k = None → sessions_set m k v = m ++ [(k, v)].
Proof.
  intros Hk. unfold sessions_set.
  by rewrite (proj2 (sessions_has_false m k) Hk).
Qed.

Lemma sessions_get_set_fresh m j v k :
  sessions_get m j = None →
  sessions_get (sessions_set m j v) k =
  if decide (k = j) then Some v else sessions_get m k.
Proof.
  intros Hj. rewrite sessions_set_fresh by done.
  rewrite sessions_get_app, sessions_get_cons.
  destruct (decide (k = j)) as [->|Hne].
  - by rewrite Hj, decide_True.
  - rewrite decide_False by done. by destruct (sessions_get m k).
Qed.

Lemma list_pair_ind {A} (P : list A → Prop) :
  P [] → (∀ x, P [x]) → (∀ x y l, P l → P (x :: y :: l)) → ∀ l, P l.
Proof.
  intros Hnil Hone Hstep l.
  cut (P l ∧ ∀ x, P (x :: l)); [tauto|].
  induction l as [|y l [IH1 IH2]]; split; auto.
Qed.

(** ** Relay router *)

Lemma relayToSessionPeer_dropped st k sender event :
  notParticipant st sender (Some k) → relayToSessionPeer st k sender event = [].
Proof.
  unfold notParticipant, relayToSessionPeer, relayTarget.
  destruct (sessions_get (sessions st) k) as [session|]; simpl; [|done].
  intros Hnot. by rewrite bool_decide_eq_false_2.
Qed.

Lemma relay_dropped now st sender msg sessionId :
  relaySessionId msg = Some sessionId →
  notParticipant st sender sessionId →
  step now st (Message sender msg) = Some (st, []).
Proof.
  intros Hmsg Hnot. simpl.
  destruct (sockets st !! sender) as [data|]; [|done].
  destruct msg; simplify_eq/=; try done;
    unfold onChatTextMessage, onWebrtc;
    (destruct sessionId as [k|]; [|done]);
    rewrite relayToSessionPeer_dropped by done;
    repeat case_match; done.
Qed.

Lemma relayTarget_pair st k session a b sender :
  sessions_get (sessions st) k = Some session →
  participants session = [a; b] →
  a ≠ b → a ≠ "" → b ≠ "" →
  sender = a ∨ sender = b →
  relayTarget st k sender = Some (if decide (sender = a) then b else a).
Proof.
  intros Hget Hp Hab Ha Hb Hs. unfold relayTarget. rewrite Hget. simpl.
  rewrite Hp. rewrite bool_decide_eq_true_2 by (destruct Hs; subst; set_solver).
  simpl. destruct (decide (sender = a)) as [->|Hne].
  - rewrite (bool_decide_eq_false_2 (a ≠ a)) by tauto.
    rewrite (bool_decide_eq_true_2 (b ≠ a)) by done. simpl.
    destruct (String.eqb_spec b ""); done.
  - rewrite (bool_decide_eq_true_2 (a ≠ sender)) by done. simpl.
    destruct (String.eqb_spec a ""); done.
Qed.

Lemma truthy_Some s : s ≠ "" → truthy (Some s) = true.
Proof. intros Hs. simpl. by destruct (String.eqb_spec s ""). Qed.

(** C6 as stated fails: a reaction whose [sessionId] names no session, sent
    by a socket that is in no session, is not dropped: it changes the
    target's record and is broadcast. *)
Lemma reaction_without_session_is_applied :
  ∃ st st' out,
    run initialState [(1%Z, Connection "s1")] = Some (st, [])
    ∧ notParticipant st "s1" (Some 42)
    ∧ step 2 st (Message "s1" (ProfileReactionMsg (Some "bucky@wisc.edu")
                                 (Some "report") (Some 42)))
      = Some (st', out)
    ∧ out = [(ToAll, ProfileReputation (Some "bucky@wisc.edu")
                       (mkReputation 0 0 1 false))]
    ∧ reputations st !! "bucky@wisc.edu" = None
    ∧ reputations st' !! "bucky@wisc.edu" = Some (mkReputation 0 0 1 false).
Proof.
  eexists _, _, _. split; [reflexivity|]. split; [exact I|].
  split; [reflexivity|]. split; [reflexivity|]. split; reflexivity.
Qed.

(** C6, amended. The chat and signaling relays (chat message, offer, answer,
    ICE candidate) are dropped silently, with the state unchanged, when the
    carried [sessionId] is missing, names no session, or names a session the
    sender does not take part in. The reaction handler does not read the
    [sessionId]: it is dropped silently only when [target] or [type] is
    missing or empty; otherwise, whatever the sessions and the sender, it
    applies the reaction to the lower-cased target's record, broadcasts the
    updated record to every connection, and, if the record is banned, sends
    a ban notice to each socket registered for that email. *)
Theorem reaction_ignores_session_relays_check_it
    (now : Z) (st : State) (sender : string) (data : SocketData) :
  sockets st !! sender = Some data →
  (∀ msg sessionId,
     relaySessionId msg = Some sessionId →
     notParticipant st sender sessionId →
     step now st (Message sender msg) = Some (st, []))
  ∧ (∀ target type sessionId,
       truthy target && truthy type = false →
       step now st (Message sender (ProfileReactionMsg target type sessionId))
       = Some (st, []))
  ∧ (∀ target type sessionId,
       truthy target && truthy type = true →
       let email := toLowerCase (orEmpty target) in
       let result := applyReaction (reputations st) email (orEmpty type) in
       step now st (Message sender (ProfileReactionMsg target type sessionId))
       = Some (set_reputations result.1 st,
               (ToAll, ProfileReputation (Some email) result.2)
               :: (if banned result.2
                   then List.map (λ socket, (ToSocket socket, SystemBanned result.2))
                          (default [] (emailToSockets st !! email))
                   else []))).
Proof.
  intros Hconn. split; [|split].
  - intros msg sessionId. apply relay_dropped.
  - intros target type sessionId Hfalsy. simpl. rewrite Hconn. simpl.
    unfold onProfileReaction. by rewrite Hfalsy.
  - intros target type sessionId Htruthy email result. simpl.
    rewrite Hconn. simpl. unfold onProfileReaction. rewrite Htruthy.
    fold email. fold result. by destruct result.
Qed.

Lemma reaction_ignores_session_relays_check_it_witness :
  let st := set_sockets {[ "s1" := mkSocketData None None ]} initialState in
  step 5 st (Message "s1" (WebrtcOffer (Some 7) (Some "sdp"))) = Some (st, [])
  ∧ step 5 st (Message "s1" (ProfileReactionMsg None (Some "like") (Some 7)))
    = Some (st, [])
  ∧ step 5 st (Message "s1" (ProfileReactionMsg (Some "Bucky@wisc.edu")
                               (Some "like") (Some 7)))
    = Some (set_reputations {[ "bucky@wisc.edu" := mkReputation 1 0 0 false ]} st,
            [(ToAll, ProfileReputation (Some "bucky@wisc.edu")
                       (mkReputation 1 0 0 false))]).
Proof.
  intros st.
  pose proof (reaction_ignores_session_relays_check_it 5 st "s1"
                (mkSocketData None None) eq_refl) as (Hrelay & Hdrop & Happly).
  split; [|split].
  - apply (Hrelay (WebrtcOffer (Some 7) (Some "sdp")) (Some 7)); [reflexivity|exact I].
  - apply Hdrop. reflexivity.
  - apply (Happly (Some "Bucky@wisc.edu") (Some "like") (Some 7)). reflexivity.
Defined.

(** C8. A chat message relayed between the two participants of a session is
    delivered to the other participant with the body and [from] of the
    sender unchanged and with [timestamp] set to the server's clock reading
    taken while forwarding, whatever timestamp (or none) the client put in
    its payload; so the timestamp is no earlier than any instant that is not
    later than that reading, the send time in particular. *)
Theorem chat_message_server_timestamp
    (now : Z) (st : State) (sender : string) (data : SocketData)
    (sessionId : nat) (session : Session) (a b body : string)
    (from : option string) (clientTimestamp : option Z) :
  sockets st !! sender = Some data →
  sessions_get (sessions st) sessionId = Some session →
  participants session = [a; b] →
  a ≠ b → a ≠ "" → b ≠ "" →
  sender = a ∨ sender = b →
  body ≠ "" →
  let other := if decide (sender = a) then b else a in
  step now st (Message sender (ChatTextMessage (Some sessionId) (Some body)
                                 from clientTimestamp))
  = Some (st, [(ToSocket other, ChatText sessionId body from now)])
  ∧ ∀ sent timestamp dest sessionId' body' from',
      (sent ≤ now)%Z →
      step now st (Message sender (ChatTextMessage (Some sessionId) (Some body)
                                     from clientTimestamp))
      = Some (st, [(dest, ChatText sessionId' body' from' timestamp)]) →
      (sent ≤ timestamp)%Z ∧ body' = body ∧ from' = from.
Proof.
  intros Hconn Hget Hp Hab Ha Hb Hs Hbody other.
  assert (Hstep : step now st (Message sender (ChatTextMessage (Some sessionId)
                                 (Some body) from clientTimestamp))
                  = Some (st, [(ToSocket other, ChatText sessionId body from now)])).
  { unfold step. rewrite Hconn. unfold onMessage, onChatTextMessage.
    rewrite truthy_Some by done. unfold relayToSessionPeer, orEmpty.
    by rewrite (relayTarget_pair st sessionId session a b sender). }
  split; [exact Hstep|].
  intros sent timestamp dest sessionId' body' from' Hsent Hout.
  rewrite Hstep in Hout. by simplify_eq.
Qed.

(** ** Ended sessions stay ended *)

Lemma sessions_get_replace m j v k :
  sessions_get (List.map (λ e, if Nat.eqb (fst e) j then (j, v) else e) m) k =
  if decide (k = j) then sessions_get m j ≫= λ _, Some v else sessions_get m k.
Proof.
  induction m as [|[k' v'] m IH]; [by case_decide|].
  simpl. destruct (Nat.eqb_spec k' j) as [->|Hne].
  - rewrite !sessions_get_cons.
    destruct (decide (k = j)) as [->|Hkj].
    + by rewrite !decide_True.
    + rewrite !decide_False by done. exact IH.
  - rewrite !sessions_get_cons, IH.
    destruct (decide (k = j)) as [->|Hkj].
    + rewrite !decide_False by done. done.
    + done.
Qed.

Lemma sessions_get_set m j v k :
  sessions_get (sessions_set m j v) k =
  if decide (k = j) then Some v else sessions_get m k.
Proof.
  destruct (sessions_has m j) eqn:Hhas.
  - unfold sessions_set. rewrite Hhas, sessions_get_replace.
    case_decide; [|done].
    apply sessions_has_true in Hhas as [v' ->]. done.
  - apply sessions_has_false in Hhas. by apply sessions_get_set_fresh.
Qed.

Lemma endSession_sessions_get j leaver st k :
  sessions_get (sessions (endSession j leaver st).1) k =
  if decide (k = j) then None else sessions_get (sessions st) k.
Proof.
  unfold endSession. destruct (sessions_get (sessions st) j) eqn:Hj; simpl.
  - apply sessions_get_delete.
  - case_decide; [by subst|done].
Qed.

Lemma endSession_frame j leaver st :
  uuidCount (endSession j leaver st).1 = uuidCount st
  ∧ sockets (endSession j leaver st).1 = sockets st
  ∧ waitingQueues (endSession j leaver st).1 = waitingQueues st
  ∧ emailToSockets (endSession j leaver st).1 = emailToSockets st
  ∧ reputations (endSession j leaver st).1 = reputations st.
Proof.
  unfold endSession. by destruct (sessions_get (sessions st) j).
Qed.

(** For an [endSession j l s = (s', _)] in the context: what [s'] shares
    with [s]. *)
Ltac endSession_facts :=
  match goal with
  | H : endSession ?j ?l ?s = (?s', _) |- _ =>
      let Hu := fresh "Hu" in
      let Hk := fresh "Hk" in
      let Hq := fresh "Hq" in
      let He := fresh "He" in
      let Hr := fresh "Hr" in
      destruct (endSession_frame j l s) as (Hu & Hk & Hq & He & Hr);
      rewrite H in Hu, Hk, Hq, He, Hr; simpl in Hu, Hk, Hq, He, Hr
  end.







Lemma onProfileUpdate_frame st socket data profile :
  sessions (onProfileUpdate st socket data profile).1 = sessions st
  ∧ uuidCount (onProfileUpdate st socket data profile).1 = uuidCount st
  ∧ waitingQueues (onProfileUpdate st socket data profile).1 = waitingQueues st.
Proof. unfold onProfileUpdate. by destruct (getReputation _ _). Qed.

Lemma onProfileReaction_frame st target type :
  sessions (onProfileReaction st target type).1 = sessions st
  ∧ uuidCount (onProfileReaction st target type).1 = uuidCount st
  ∧ waitingQueues (onProfileReaction st target type).1 = waitingQueues st
  ∧ sockets (onProfileReaction st target type).1 = sockets st
  ∧ emailToSockets (onProfileReaction st target type).1 = emailToSockets st.
Proof.
  unfold onProfileReaction. destruct (truthy target && truthy type); [|done].
  by destruct (applyReaction _ _ _).
Qed.



(** ** Session ids are fresh in every reachable state *)

Lemma attemptPairLoop_uuidFresh now mode queue : ∀ st queue' st' out,
  attemptPairLoop now mode queue st = Some (queue', st', out) →
  uuidFresh st → uuidFresh st'.
Proof.
  induction queue as [| |first second queue IH] using list_pair_ind;
    intros st queue' st' out Hloop Hfresh; simpl in Hloop; simplify_eq; try done.
  destruct (sockets st !! socketId first) as [firstSocket|]; [|by eauto].
  destruct (sockets st !! socketId second) as [secondSocket|]; [|by eauto].
  destruct (data_profile secondSocket); simpl in Hloop; [|done].
  destruct (data_profile firstSocket); simpl in Hloop; [|done].
  destruct (attemptPairLoop _ _ _ _) as [[[q s] o]|] eqn:Hrec;
    simpl in Hloop; [|done].
  injection Hloop as -> -> _.
  eapply IH; [exact Hrec|].
  intros k Hk. simpl in *. rewrite sessions_get_set.
  rewrite decide_False by lia. apply Hfresh. lia.
Qed.

Lemma uuidFresh_ext st st' :
  (∀ k, sessions_get (sessions st) k = None →
        sessions_get (sessions st') k = None) →
  uuidCount st' = uuidCount st →
  uuidFresh st → uuidFresh st'.
Proof. intros Hs Hu Hfresh k Hk. apply Hs, Hfresh. lia. Qed.

Lemma endSession_uuidFresh j leaver st :
  uuidFresh st → uuidFresh (endSession j leaver st).1.
Proof.
  apply uuidFresh_ext; [|apply endSession_frame].
  intros k Hk. rewrite endSession_sessions_get. by case_decide.
Qed.

Lemma step_uuidFresh now st i st' out :
  step now st i = Some (st', out) → uuidFresh st → uuidFresh st'.
Proof.
  intros Hstep Hfresh.
  destruct i as [socket|socket|socket msg|email|]; simpl in Hstep.
  - by repeat case_match; simplify_eq/=.
  - destruct (sockets st !! socket); simplify_eq/=; [|done].
    unfold onDisconnect in Hstep. simpl in Hstep.
    repeat case_match; simplify_eq/=; try done.
    match goal with
    | H : endSession ?j ?l ?s = (?s', _) |- _ =>
        pose proof (endSession_uuidFresh j l s Hfresh) as Hf; by rewrite H in Hf
    end.
  - destruct (sockets st !! socket) as [data|]; simplify_eq/=; [|done].
    destruct msg; simplify_eq/=; odd_payloads; simplify_eq/=; try done.
    + destruct (onProfileUpdate_frame st socket data profile) as (Hs & Hu & _).
      rewrite Hstep in Hs, Hu. simpl in *.
      apply (uuidFresh_ext st); [by rewrite Hs|done|done].
    + unfold onMatchRequest in Hstep.
      repeat case_match; simplify_eq/=; try done.
      match goal with
      | H : attemptPair _ _ _ ≫= _ = Some _ |- _ =>
          unfold attemptPair in H; simpl in H;
          destruct (attemptPairLoop _ _ _ _) as [[[q s] o]|] eqn:Hloop;
          simplify_eq/=;
          by apply attemptPairLoop_uuidFresh in Hloop
      end.
    + unfold onChatLeave in Hstep.
      repeat case_match; simplify_eq/=; try done;
        match goal with
        | H : endSession ?j ?l ?s = (?s', _) |- _ =>
            pose proof (endSession_uuidFresh j l s Hfresh) as Hf;
            by rewrite H in Hf
        end.
    + destruct (onProfileReaction_frame st target type) as (Hs & Hu & _).
      rewrite Hstep in Hs, Hu. simpl in *.
      apply (uuidFresh_ext st); [by rewrite Hs|done|done].
    + destruct (onProfileUpdate_frame st socket data
                  (mkProfilePayload None None None)) as (Hs & Hu & _).
      rewrite Hstep in Hs, Hu. simpl in *.
      apply (uuidFresh_ext st); [by rewrite Hs|done|done].
  - by repeat case_match; simplify_eq/=.
  - by simplify_eq.
Qed.

(** In every state the server reaches, the next [uuidv4()] is a new key. *)
Lemma reachable_uuidFresh trace st out :
  run initialState trace = Some (st, out) → uuidFresh st.
Proof.
  intros Hrun. by apply (run_preserves_all uuidFresh step_uuidFresh) in Hrun.
Qed.

(** ** Session teardown *)


Lemma endSession_found st k session leaver :
  sessions_get (sessions st) k = Some session →
  endSession k leaver st =
  (set_sessions (sessions_delete (sessions st) k) st,
   flat_map
     (λ participantId,
        match sockets st !! participantId with
        | None => []
        | Some _ =>
            if decide (participantId = leaver)
            then [(ToSocket participantId, SystemSessionEnded k)]
            else [(ToSocket participantId, SystemPartnerLeft k)]
        end)
     (participants session)).
Proof. intros Hget. unfold endSession. by rewrite Hget. Qed.




(** ** Identity registry *)

Lemma lowerAscii_idemp c : lowerAscii (lowerAscii c) = lowerAscii c.
Proof. destruct c as [[] [] [] [] [] [] [] []]; reflexivity. Qed.

Lemma toLowerCase_idemp s : toLowerCase (toLowerCase s) = toLowerCase s.
Proof. induction s as [|c s IH]; simpl; [done|]. by rewrite lowerAscii_idemp, IH. Qed.

Lemma toLowerCase_empty s : toLowerCase s = "" ↔ s = "".
Proof. by destruct s. Qed.

Lemma truthy_orEmpty v : truthy v = true → orEmpty v ≠ "".
Proof.
  destruct v as [s|]; simpl; [|done].
  by destruct (String.eqb_spec s "").
Qed.

Lemma registerSocketForEmail_member socket email m :
  email ≠ "" →
  socket ∈ default [] (registerSocketForEmail socket email m !! toLowerCase email).
Proof.
  intros He. unfold registerSocketForEmail. rewrite decide_False by done.
  rewrite lookup_insert_eq. simpl.
  case_bool_decide; [done|]. set_solver.
Qed.

Lemma registerSocketForEmail_mono socket email m h e :
  h ∈ default [] (m !! e) →
  h ∈ default [] (registerSocketForEmail socket email m !! e).
Proof.
  intros Hh. unfold registerSocketForEmail.
  destruct (decide (email = "")); [done|].
  destruct (decide (toLowerCase email = e)) as [<-|Hne].
  - rewrite lookup_insert_eq. simpl. case_bool_decide; [done|]. set_solver.
  - by rewrite lookup_insert_ne.
Qed.

Lemma unregisterSocket_handles socket m e :
  default [] (unregisterSocket socket m !! e)
  = filter (λ s, s ≠ socket) (default [] (m !! e)).
Proof.
  unfold unregisterSocket. rewrite lookup_omap.
  destruct (m !! e) as [set|]; simpl; [|done].
  by destruct (filter _ set).
Qed.

Lemma attemptPairLoop_frame now mode queue : ∀ st queue' st' out,
  attemptPairLoop now mode queue st = Some (queue', st', out) →
  sockets st' = sockets st
  ∧ emailToSockets st' = emailToSockets st
  ∧ reputations st' = reputations st
  ∧ waitingQueues st' = waitingQueues st.
Proof.
  induction queue as [| |first second queue IH] using list_pair_ind;
    intros st queue' st' out Hloop; simplify_eq/=; try done.
  destruct (sockets st !! socketId first) as [firstSocket|]; [|by eauto].
  destruct (sockets st !! socketId second) as [secondSocket|]; [|by eauto].
  destruct (data_profile secondSocket); simplify_eq/=.
  destruct (data_profile firstSocket); simplify_eq/=.
  destruct (attemptPairLoop _ _ _ _) as [[[q s] o]|] eqn:Hrec; simplify_eq/=.
  by apply IH in Hrec.
Qed.

Lemma attemptPair_frame now mode st st' out :
  attemptPair now mode st = Some (st', out) →
  sockets st' = sockets st
  ∧ emailToSockets st' = emailToSockets st
  ∧ reputations st' = reputations st.
Proof.
  unfold attemptPair. intros Hpair.
  destruct (attemptPairLoop _ _ _ _) as [[[q s] o]|] eqn:Hloop; simplify_eq/=.
  apply attemptPairLoop_frame in Hloop. tauto.
Qed.

Lemma onMatchRequest_frame now st socket data mode st' out :
  onMatchRequest now st socket data mode = Some (st', out) →
  emailToSockets st' = emailToSockets st
  ∧ (sockets st' = sockets st
     ∨ sockets st' = <[socket := {| data_profile := data_profile data;
                                    data_mode := mode |}]> (sockets st)).
Proof.
  unfold onMatchRequest. intros Hreq.
  repeat case_match; simplify_eq/=; auto;
    match goal with
    | H : attemptPair _ _ _ ≫= _ = Some _ |- _ =>
        let Hp := fresh in
        destruct (attemptPair _ _ _) as [[s o]|] eqn:Hp; simplify_eq/=;
        apply attemptPair_frame in Hp as (-> & -> & _); auto
    end.
Qed.

Lemma onChatLeave_frame st socket sessionId :
  emailToSockets (onChatLeave st socket sessionId).1 = emailToSockets st
  ∧ sockets (onChatLeave st socket sessionId).1 = sockets st.
Proof.
  unfold onChatLeave.
  repeat case_match; simplify_eq/=; try done;
    endSession_facts; by rewrite He, Hk.
Qed.

Lemma onDisconnect_frame st socket :
  emailToSockets (onDisconnect st socket).1
  = unregisterSocket socket (emailToSockets st)
  ∧ sockets (onDisconnect st socket).1 = sockets st.
Proof.
  unfold onDisconnect.
  repeat case_match; simplify_eq/=; try done;
    endSession_facts; by rewrite He, Hk.
Qed.

(** No event other than the socket's own disconnect removes it from an
    email's set, or from the connected sockets. *)
Lemma step_keeps_registration now st i st' out h :
  step now st i = Some (st', out) →
  i ≠ Disconnect h →
  (is_Some (sockets st !! h) → is_Some (sockets st' !! h))
  ∧ ∀ e, h ∈ handlesFor st e → h ∈ handlesFor st' e.
Proof.
  unfold handlesFor.
  intros Hstep Hi. destruct i as [socket|socket|socket msg|email|]; simpl in Hstep.
  - destruct (sockets st !! socket) eqn:Hs; simplify_eq/=; [done|].
    split; [|done]. intros Hh. rewrite lookup_insert_is_Some'. tauto.
  - destruct (sockets st !! socket) eqn:Hs; simplify_eq/=; [|done].
    assert (Hne : h ≠ socket) by congruence.
    match goal with
    | H : onDisconnect ?s ?x = _ |- _ =>
        destruct (onDisconnect_frame s x) as [He Hk]; rewrite H in He, Hk
    end.
    simpl in *. rewrite He, Hk. split.
    + by rewrite lookup_delete_ne.
    + intros e Hh. rewrite unregisterSocket_handles.
      apply list_elem_of_filter. done.
  - destruct (sockets st !! socket) as [data|] eqn:Hs; simplify_eq/=; [|done].
    destruct msg; simplify_eq/=; odd_payloads; simplify_eq/=; try done.
    + unfold onProfileUpdate in Hstep.
      destruct (getReputation _ _) as [reps rep]; simplify_eq/=. split.
      * intros Hh. rewrite lookup_insert_is_Some'. tauto.
      * intros e Hh. by apply registerSocketForEmail_mono.
    + apply onMatchRequest_frame in Hstep as [-> [-> | ->]]; [done|].
      split; [|done]. intros Hh. rewrite lookup_insert_is_Some'. tauto.
    + destruct (onChatLeave_frame st socket sessionId) as [He Hk].
      rewrite Hstep in He, Hk. simpl in *. by rewrite He, Hk.
    + destruct (onProfileReaction_frame st target type) as (_ & _ & _ & Hk & He).
      rewrite Hstep in He, Hk. simpl in *. by rewrite He, Hk.
    + unfold onProfileUpdate in Hstep.
      destruct (getReputation _ _) as [reps rep]; simplify_eq/=. split.
      * intros Hh. rewrite lookup_insert_is_Some'. tauto.
      * intros e Hh. by apply registerSocketForEmail_mono.
  - by repeat case_match; simplify_eq/=.
  - by simplify_eq.
Qed.

Lemma run_keeps_registration trace h : ∀ st st' out,
  run st trace = Some (st', out) →
  (∀ now, (now, Disconnect h) ∉ trace) →
  (is_Some (sockets st !! h) → is_Some (sockets st' !! h))
  ∧ ∀ e, h ∈ handlesFor st e → h ∈ handlesFor st' e.
Proof.
  intros st st' out Hrun Hno.
  assert (Hall : Forall (λ e : Z * Input, e.2 ≠ Disconnect h) trace).
  { apply Forall_forall. intros [now i] Hin. simpl. intros ->.
    by apply (Hno now). }
  split.
  - apply (run_preserves (λ i, i ≠ Disconnect h)
             (λ s, is_Some (sockets s !! h))) with (trace := trace) (out := out);
      [|done|done].
    intros now s i s' o Hi Hstep Hconn.
    destruct (step_keeps_registration _ _ _ _ _ h Hstep Hi) as [Hk _]. auto.
  - intros e.
    apply (run_preserves (λ i, i ≠ Disconnect h)
             (λ s, h ∈ handlesFor s e)) with (trace := trace) (out := out);
      [|done|done].
    intros now s i s' o Hi Hstep Hh.
    destruct (step_keeps_registration _ _ _ _ _ h Hstep Hi) as [_ Hr]. auto.
Qed.

Lemma profileUpdate_registers now st h data p :
  sockets st !! h = Some data →
  truthy (payload_email p) = true →
  ∃ st' out,
    step now st (Message h (ProfileUpdate p)) = Some (st', out)
    ∧ h ∈ handlesFor st' (toLowerCase (orEmpty (payload_email p)))
    ∧ is_Some (sockets st' !! h).
Proof.
  intros Hconn Hemail. unfold step. rewrite Hconn. unfold onMessage, onProfileUpdate.
  destruct (getReputation _ _) as [reps rep]. eexists _, _.
  split; [done|]. unfold handlesFor. simpl. split.
  - pose proof (registerSocketForEmail_member h
                  (toLowerCase (orEmpty (payload_email p))) (emailToSockets st))
      as Hmem.
    rewrite toLowerCase_idemp in Hmem. apply Hmem.
    rewrite toLowerCase_empty. by apply truthy_orEmpty.
  - rewrite lookup_insert_is_Some'. tauto.
Qed.

Lemma disconnect_unregisters now st h data :
  sockets st !! h = Some data →
  ∃ st' out,
    step now st (Disconnect h) = Some (st', out)
    ∧ ∀ e, h ∉ handlesFor st' e.
Proof.
  intros Hconn. unfold step. rewrite Hconn.
  pose proof (proj1 (onDisconnect_frame
                       (set_sockets (delete h (sockets st)) st) h)) as He.
  destruct (onDisconnect _ h) as [st' out]. simpl in He.
  exists st', out. split; [done|].
  intros e. unfold handlesFor.
  rewrite He, unregisterSocket_handles, list_elem_of_filter. tauto.
Qed.

(** C10. A socket that sends [profile:update] with email E1 and later, not
    having disconnected in between, with email E2 is in the identity
    registry's set of (lower-cased) E1 as well as in that of E2, so a ban
    notice for E1 is still sent to it; no event other than the socket's own
    disconnect removes a socket from an email's set, and its disconnect
    removes it from every set. *)
Theorem profile_update_keeps_earlier_emails
    (st0 : State) (h : string) (data : SocketData) (p1 p2 : ProfilePayload)
    (t1 t2 : Z) (between : list (Z * Input)) (st : State) (out : list Emit) :
  sockets st0 !! h = Some data →
  truthy (payload_email p1) = true →
  truthy (payload_email p2) = true →
  (∀ t, (t, Disconnect h) ∉ between) →
  run st0 ((t1, Message h (ProfileUpdate p1))
           :: between ++ [(t2, Message h (ProfileUpdate p2))]) = Some (st, out) →
  let e1 := toLowerCase (orEmpty (payload_email p1)) in
  let e2 := toLowerCase (orEmpty (payload_email p2)) in
  h ∈ handlesFor st e1
  ∧ h ∈ handlesFor st e2
  ∧ (∀ t sender dataS target type sessionId,
       sockets st !! sender = Some dataS →
       truthy target && truthy type = true →
       toLowerCase (orEmpty target) = e1 →
       banned (applyReaction (reputations st) e1 (orEmpty type)).2 = true →
       ∃ st' out',
         step t st (Message sender (ProfileReactionMsg target type sessionId))
         = Some (st', out')
         ∧ (ToSocket h,
            SystemBanned (applyReaction (reputations st) e1 (orEmpty type)).2)
           ∈ out')
  ∧ (∀ t s i s' o e,
       step t s i = Some (s', o) → i ≠ Disconnect h →
       h ∈ handlesFor s e → h ∈ handlesFor s' e)
  ∧ (∃ st' out',
       step t2 st (Disconnect h) = Some (st', out')
       ∧ ∀ e, h ∉ handlesFor st' e).
Proof.
  intros Hconn He1 He2 Hno Hrun e1 e2.
  change (run st0 ([(t1, Message h (ProfileUpdate p1))]
                   ++ (between ++ [(t2, Message h (ProfileUpdate p2))]))
          = Some (st, out)) in Hrun.
  apply run_app in Hrun as (st1 & o1 & o1' & Hfirst & Hrun & _).
  apply run_app in Hrun as (st2 & o2 & o3 & Hbetween & Hlast & _).
  destruct (profileUpdate_registers t1 st0 h data p1 Hconn He1)
    as (st1' & o1'' & Hstep1 & Hreg1 & Hconn1).
  apply run_one in Hfirst. rewrite Hstep1 in Hfirst. simplify_eq.
  apply (run_keeps_registration _ h) in Hbetween as [Hconn2 Hreg2]; [|done].
  destruct (Hconn2 Hconn1) as [data2 Hdata2].
  destruct (profileUpdate_registers t2 st2 h data2 p2 Hdata2 He2)
    as (st3 & o3' & Hstep3 & Hreg3 & [data3 Hconn3]).
  apply run_one in Hlast. rewrite Hstep3 in Hlast. simplify_eq.
  assert (Hin1 : h ∈ handlesFor st e1).
  { eapply step_keeps_registration; [exact Hstep3|discriminate|]. by apply Hreg2. }
  split; [done|]. split; [done|]. split; [|split].
  - intros t sender dataS target type sessionId HconnS Htruthy Htarget Hbanned.
    unfold step. rewrite HconnS. unfold onMessage, onProfileReaction.
    rewrite Htruthy, Htarget.
    destruct (applyReaction (reputations st) e1 (orEmpty type)) as [reps rep].
    simpl in *. rewrite Hbanned. eexists _, _. split; [done|].
    apply elem_of_cons. right. apply list_elem_of_fmap.
    exists h. split; [done|]. exact Hin1.
  - intros t s i s' o e Hstep Hi.
    by apply (step_keeps_registration t s i s' o h).
  - by apply disconnect_unregisters with (data := data3).
Qed.

(** ** The ledger along a run *)

Lemma notDecreased_refl r : notDecreased r r.
Proof. unfold notDecreased. repeat split; auto; lia. Qed.

Lemma notDecreased_trans r1 r2 r3 :
  notDecreased r1 r2 → notDecreased r2 r3 → notDecreased r1 r3.
Proof. unfold notDecreased. intros (?&?&?&?) (?&?&?&?). repeat split; auto; lia. Qed.

Lemma applyReaction_notDecreased ledger email type other :
  notDecreased (recordOf ledger other)
    (recordOf (applyReaction ledger email type).1 other).
Proof.
  rewrite recordOf_applyReaction. case_decide as Hc.
  - destruct Hc as [_ ->]. apply bumpReaction_monotone.
  - apply notDecreased_refl.
Qed.

Lemma onMatchRequest_ledger now st socket data mode st' out :
  onMatchRequest now st socket data mode = Some (st', out) →
  ledgerStep (reputations st) (reputations st').
Proof.
  unfold onMatchRequest. intros Hreq.
  repeat case_match; simplify_eq/=; try apply ledger_same;
    try match goal with
        | H : attemptPair _ _ _ ≫= _ = Some _ |- _ =>
            let Hp := fresh in
            destruct (attemptPair _ _ _) as [[s o]|] eqn:Hp; simplify_eq/=;
            apply attemptPair_frame in Hp as (_ & _ & ->); simpl
        end;
    match goal with
    | H : getReputation ?l ?e = (?l', _) |- ledgerStep ?l ?l' =>
        replace l' with (getReputation l e).1 by (by rewrite H);
        apply ledger_read
    end.
Qed.

Lemma step_ledger now st i st' out :
  step now st i = Some (st', out) →
  ledgerStep (reputations st) (reputations st').
Proof.
  intros Hstep. destruct i as [socket|socket|socket msg|email|]; simpl in Hstep.
  - repeat case_match; simplify_eq/=; apply ledger_same.
  - destruct (sockets st !! socket); simplify_eq/=; [|apply ledger_same].
    unfold onDisconnect in Hstep. simpl in Hstep.
    repeat case_match; simplify_eq/=; try apply ledger_same.
    endSession_facts. rewrite Hr. apply ledger_same.
  - destruct (sockets st !! socket) as [data|]; simplify_eq/=;
      [|apply ledger_same].
    destruct msg; simplify_eq/=; odd_payloads; simplify_eq/=;
      try apply ledger_same.
    + unfold onProfileUpdate in Hstep.
      destruct (getReputation _ _) as [reps rep] eqn:Hg; simplify_eq/=.
      replace reps with (getReputation (reputations st)
                           (toLowerCase (orEmpty (payload_email profile)))).1
        by (by rewrite Hg).
      apply ledger_read.
    + by eapply onMatchRequest_ledger.
    + unfold onChatLeave in Hstep.
      repeat case_match; simplify_eq/=; try apply ledger_same;
        endSession_facts; rewrite Hr; apply ledger_same.
    + unfold onProfileReaction in Hstep.
      destruct (truthy target && truthy type); simplify_eq/=;
        [|apply ledger_same].
      destruct (applyReaction _ _ _) as [reps rep] eqn:Ha; simplify_eq/=.
      replace reps with (applyReaction (reputations st)
                           (toLowerCase (orEmpty target)) (orEmpty type)).1
        by (by rewrite Ha).
      apply ledger_reaction.
    + unfold onProfileUpdate in Hstep.
      destruct (getReputation _ _) as [reps rep] eqn:Hg; simplify_eq/=.
      replace reps with (getReputation (reputations st) "").1
        by (by rewrite Hg).
      apply ledger_read.
  - destruct (getReputation _ _) as [reps rep] eqn:Hg; simplify_eq/=.
    replace reps with (getReputation (reputations st) (toLowerCase email)).1
      by (by rewrite Hg).
    apply ledger_read.
  - simplify_eq. apply ledger_same.
Qed.

Lemma ledgerStep_ok ledger ledger' :
  ledgerStep ledger ledger' → ledgerOk ledger → ledgerOk ledger'.
Proof.
  intros [ | email | email type] Hok;
    [done|by apply getReputation_ok|by apply applyReaction_ok].
Qed.

Lemma ledgerStep_notDecreased ledger ledger' other :
  ledgerStep ledger ledger' →
  notDecreased (recordOf ledger other) (recordOf ledger' other).
Proof.
  intros [ | email | email type].
  - apply notDecreased_refl.
  - rewrite recordOf_getReputation. apply notDecreased_refl.
  - apply applyReaction_notDecreased.
Qed.

Lemma run_ledger trace st st' out :
  run st trace = Some (st', out) →
  (ledgerOk (reputations st) → ledgerOk (reputations st'))
  ∧ ∀ other,
      notDecreased (recordOf (reputations st) other)
        (recordOf (reputations st') other).
Proof.
  intros Hrun. split.
  - revert Hrun. apply (run_preserves_all (λ s, ledgerOk (reputations s))).
    intros now s i s' o Hstep. by apply ledgerStep_ok, (step_ledger now s i s' o).
  - intros other. revert Hrun.
    intros Hrun.
    apply (run_preserves_all
             (λ s, notDecreased (recordOf (reputations st) other)
                     (recordOf (reputations s) other)))
      with (trace := trace) (st := st) (out := out);
      [|done|apply notDecreased_refl].
    intros now s i s' o Hstep Hs. eapply notDecreased_trans; [exact Hs|].
    by apply ledgerStep_notDecreased, (step_ledger now s i s' o).
Qed.

(** C2. After any sequence of [applyReaction] calls every stored record and
    every returned record satisfies
    [banned = (reports >= 3 || dislikes >= 10)]; a further call never
    decreases the likes, dislikes or reports of any email's record, and
    never turns [banned] from true back to false. The same holds along every
    run of the server: every record of every reachable ledger satisfies the
    equation, and no sequence of events decreases a counter or resets
    [banned]. *)
Theorem applyReaction_ban_invariant_monotone
    (calls : list (string * string)) (email type other : string) :
  let ledger := applyReactions ∅ calls in
  let ledger' := (applyReaction ledger email type).1 in
  ledgerOk ledger
  ∧ banInvariant (applyReaction ledger email type).2
  ∧ ledgerOk ledger'
  ∧ notDecreased (recordOf ledger other) (recordOf ledger' other)
  ∧ (∀ trace st out,
       run initialState trace = Some (st, out) →
       ledgerOk (reputations st)
       ∧ banInvariant (recordOf (reputations st) other))
  ∧ (∀ trace st st' out,
       run st trace = Some (st', out) →
       notDecreased (recordOf (reputations st) other)
         (recordOf (reputations st') other)).
Proof.
  intros ledger ledger'.
  assert (Hok : ledgerOk ledger) by apply applyReactions_ok, ledgerOk_empty.
  split; [done|]. split.
  { rewrite applyReaction_record. by apply bumpReaction_invariant, recordOf_ok. }
  split; [by apply applyReaction_ok|].
  split; [apply applyReaction_notDecreased|]. split.
  - intros trace st out Hrun. apply run_ledger in Hrun as [Hrun _].
    assert (ledgerOk (reputations st)) by apply Hrun, ledgerOk_empty.
    split; [done|]. by apply recordOf_ok.
  - intros trace st st' out Hrun. by apply run_ledger in Hrun as [_ Hrun].
Qed.

(** ** Pairing engine *)

Lemma waitingQueuesSlot_mode mode : waitingQueuesSlot (modeName mode) = OwnQueue mode.
Proof. by destruct mode. Qed.

Lemma truthy_mode mode : truthy (Some (modeName mode)) = true.
Proof. by destruct mode. Qed.

Lemma queueOf_setQueue mode q w : queueOf mode (setQueue mode q w) = q.
Proof. by destruct mode. Qed.

Lemma queueOf_removeFromQueues mode h w :
  queueOf mode (removeFromQueues h w)
  = filter (λ entry, socketId entry ≠ h) (queueOf mode w).
Proof. by destruct mode. Qed.

Lemma onMatchRequest_admitted now st h data profile mode :
  data_profile data = Some profile →
  banned (recordOf (reputations st) (email profile)) = false →
  onMatchRequest now st h data (Some (modeName mode))
  = '(st', out) ← attemptPair now mode (enqueued st h data profile mode);
    Some (st', (ToSocket h,
                MatchQueued mode
                  (length (queueOf mode
                             (waitingQueues (enqueued st h data profile mode)))))
               :: out).
Proof.
  intros Hprofile Hrep. unfold onMatchRequest.
  rewrite truthy_mode. unfold orEmpty, negb.
  rewrite waitingQueuesSlot_mode, Hprofile.
  unfold recordOf in Hrep.
  unfold enqueued. rewrite Hprofile.
  destruct (getReputation _ _) as [reps rep]. simpl in *.
  rewrite Hrep. by rewrite queueOf_setQueue.
Qed.

Lemma eligible_enqueued st h data profile mode x :
  sockets st !! h = Some data →
  eligible st x → eligible (enqueued st h data profile mode) x.
Proof.
  intros Hconn (dx & px & Hx & Hpx & Hbx). unfold eligible, enqueued. simpl.
  setoid_rewrite recordOf_getReputation.
  destruct (decide (x = h)) as [->|Hne].
  - rewrite lookup_insert_eq. eexists _, px. split; [done|]. simpl.
    split; [congruence|done].
  - rewrite lookup_insert_ne by done. by exists dx, px.
Qed.

Lemma queueOf_enqueued st h data profile mode :
  queueOf mode (waitingQueues (enqueued st h data profile mode))
  = filter (λ entry, socketId entry ≠ h) (queueOf mode (waitingQueues st))
    ++ [mkQueueEntry h].
Proof.
  unfold enqueued. simpl. by rewrite queueOf_setQueue, queueOf_removeFromQueues.
Qed.

Lemma eligible_ext st st' x :
  sockets st' = sockets st → reputations st' = reputations st →
  eligible st x → eligible st' x.
Proof. unfold eligible. by intros -> ->. Qed.

Lemma attemptPairLoop_two now mode first second st da db pa pb :
  sockets st !! socketId first = Some da →
  sockets st !! socketId second = Some db →
  data_profile da = Some pa →
  data_profile db = Some pb →
  attemptPairLoop now mode [first; second] st
  = Some ([],
          set_sessions
            (sessions_set (sessions st) (uuidCount st)
               (pairedSession (uuidCount st) mode first second now))
            (set_uuidCount (S (uuidCount st)) st),
          [(ToSocket (socketId first),
            MatchPaired (uuidCount st) mode (sanitizeProfile pb) true);
           (ToSocket (socketId second),
            MatchPaired (uuidCount st) mode (sanitizeProfile pa) false)]).
Proof. intros Ha Hb Hpa Hpb. simpl. rewrite Ha, Hb. simpl. by rewrite Hpa, Hpb. Qed.

(** A request that finds its mode's queue empty waits. *)
Lemma request_waits now st h mode :
  queueOf mode (waitingQueues st) = [] →
  eligible st h →
  ∃ st',
    step now st (Message h (MatchRequest (Some (modeName mode))))
    = Some (st', [(ToSocket h, MatchQueued mode 1)])
    ∧ queueOf mode (waitingQueues st') = [mkQueueEntry h]
    ∧ sessions st' = sessions st
    ∧ uuidCount st' = uuidCount st
    ∧ ∀ x, eligible st x → eligible st' x.
Proof.
  intros Hq (data & profile & Hconn & Hprofile & Hrep).
  unfold step. rewrite Hconn. unfold onMessage.
  rewrite (onMatchRequest_admitted now st h data profile mode Hprofile Hrep).
  unfold attemptPair. rewrite queueOf_enqueued, Hq. simpl.
  eexists. split; [done|]. simpl. rewrite queueOf_setQueue.
  split; [done|]. split; [done|]. split; [done|].
  intros x Hx.
  apply (eligible_ext (enqueued st h data profile mode));
    [done|done|by apply eligible_enqueued].
Qed.

(** A request that finds one other socket waiting is paired with it. *)
Lemma request_pairs now st h1 h2 mode :
  queueOf mode (waitingQueues st) = [mkQueueEntry h1] →
  h1 ≠ h2 →
  eligible st h1 →
  eligible st h2 →
  uuidFresh st →
  ∃ st' out,
    step now st (Message h2 (MatchRequest (Some (modeName mode))))
    = Some (st', out)
    ∧ queueOf mode (waitingQueues st') = []
    ∧ sessions st'
      = sessions st
        ++ [(uuidCount st,
             pairedSession (uuidCount st) mode (mkQueueEntry h1)
               (mkQueueEntry h2) now)]
    ∧ uuidCount st' = S (uuidCount st)
    ∧ ∀ x, eligible st x → eligible st' x.
Proof.
  intros Hq Hne Hel1 Hel2 Hfresh.
  pose proof Hel2 as (data & profile & Hconn & Hprofile & Hrep).
  destruct (eligible_enqueued st h2 data profile mode h1 Hconn Hel1)
    as (d1 & p1 & Hl1 & Hp1 & _).
  destruct (eligible_enqueued st h2 data profile mode h2 Hconn Hel2)
    as (d2 & p2 & Hl2 & Hp2 & _).
  unfold step. rewrite Hconn. unfold onMessage.
  rewrite (onMatchRequest_admitted now st h2 data profile mode Hprofile Hrep).
  unfold attemptPair. rewrite queueOf_enqueued, Hq.
  rewrite filter_cons, decide_True by done. rewrite filter_nil.
  change ([mkQueueEntry h1] ++ [mkQueueEntry h2])
    with [mkQueueEntry h1; mkQueueEntry h2].
  rewrite (attemptPairLoop_two now mode (mkQueueEntry h1) (mkQueueEntry h2)
             _ d1 d2 p1 p2 Hl1 Hl2 Hp1 Hp2).
  eexists _, _. split; [done|]. simpl. rewrite queueOf_setQueue.
  split; [done|]. split; [|split; [done|]].
  - apply sessions_set_fresh. by apply Hfresh.
  - intros x Hx.
    apply (eligible_ext (enqueued st h2 data profile mode));
      [done|done|by apply eligible_enqueued].
Qed.

Lemma uuidFresh_paired st st' session :
  uuidFresh st →
  sessions st' = sessions st ++ [(uuidCount st, session)] →
  uuidCount st' = S (uuidCount st) →
  uuidFresh st'.
Proof.
  intros Hfresh Hs Hu k Hk. rewrite Hs, sessions_get_app, sessions_get_cons.
  rewrite Hfresh by lia. rewrite decide_False by lia. done.
Qed.

(** The loop only adds keys handed out during the loop. *)
Lemma attemptPairLoop_keeps now mode queue : ∀ st queue' st' out k,
  attemptPairLoop now mode queue st = Some (queue', st', out) →
  (k < uuidCount st)%nat →
  sessions_get (sessions st') k = sessions_get (sessions st) k.
Proof.
  induction queue as [| |first second queue IH] using list_pair_ind;
    intros st queue' st' out k Hloop Hk; simplify_eq/=; try done.
  destruct (sockets st !! socketId first) as [firstSocket|]; [|by eauto].
  destruct (sockets st !! socketId second) as [secondSocket|]; [|by eauto].
  destruct (data_profile secondSocket); simplify_eq/=.
  destruct (data_profile firstSocket); simplify_eq/=.
  destruct (attemptPairLoop _ _ _ _) as [[[q s] o]|] eqn:Hrec; simplify_eq/=.
  apply (IH _ _ _ _ k) in Hrec; [|simpl; lia].
  rewrite Hrec. simpl. rewrite sessions_get_set. by rewrite decide_False by lia.
Qed.

(** Every session the loop creates is made of two entries that were next to
    each other at an even offset from the head of the queue: the loop never
    pairs an entry with one behind its neighbour. *)
Lemma attemptPairLoop_adjacent now mode queue : ∀ st queue' st' out k session,
  attemptPairLoop now mode queue st = Some (queue', st', out) →
  uuidFresh st →
  (uuidCount st ≤ k)%nat →
  sessions_get (sessions st') k = Some session →
  ∃ i first second,
    queue !! (2 * i)%nat = Some first
    ∧ queue !! (2 * i + 1)%nat = Some second
    ∧ participants session = [socketId first; socketId second].
Proof.
  induction queue as [| |first second queue IH] using list_pair_ind;
    intros st queue' st' out k session Hloop Hfresh Hk Hget; simpl in Hloop.
  - simplify_eq. by rewrite Hfresh in Hget.
  - simplify_eq. by rewrite Hfresh in Hget.
  - assert (Hshift : ∀ st1 out1,
              attemptPairLoop now mode queue st1 = Some (queue', st', out1) →
              uuidFresh st1 → (uuidCount st1 ≤ k)%nat →
              ∃ i a b,
                (first :: second :: queue) !! (2 * i)%nat = Some a
                ∧ (first :: second :: queue) !! (2 * i + 1)%nat = Some b
                ∧ participants session = [socketId a; socketId b]).
    { intros st1 out1 Hrec Hfresh1 Hk1.
      destruct (IH _ _ _ _ _ _ Hrec Hfresh1 Hk1 Hget) as (i & a & b & Ha & Hb & Hp).
      exists (S i), a, b.
      replace (2 * S i)%nat with (S (S (2 * i))) by lia.
      replace (S (S (2 * i)) + 1)%nat with (S (S (2 * i + 1))) by lia.
      done. }
    destruct (sockets st !! socketId first) as [firstSocket|]; [|by eauto].
    destruct (sockets st !! socketId second) as [secondSocket|]; [|by eauto].
    destruct (data_profile secondSocket); simpl in Hloop; [|done].
    destruct (data_profile firstSocket); simpl in Hloop; [|done].
    destruct (attemptPairLoop _ _ _ _) as [[[q s] o]|] eqn:Hrec;
      simpl in Hloop; [|done].
    injection Hloop as -> -> _.
    destruct (decide (k = uuidCount st)) as [->|Hne].
    + rewrite (attemptPairLoop_keeps _ _ _ _ _ _ _ _ Hrec) in Hget by (simpl; lia).
      simpl in Hget. rewrite sessions_get_set, decide_True in Hget by done.
      injection Hget as <-. by exists 0%nat, first, second.
    + eapply Hshift; [exact Hrec| |simpl; lia].
      intros j Hj. simpl in *. rewrite sessions_get_set.
      rewrite decide_False by lia. apply Hfresh. lia.
Qed.

(** C1. Match requests for one mode that arrive, with no disconnects, from
    distinct sockets that pass the ban check, starting with that mode's queue
    empty, are paired strictly in arrival order: the sessions created are
    exactly (h1,h2), (h3,h4), ... in that order, each made of the two
    longest-waiting sockets, and only a last unpaired arrival is left
    waiting. Moreover, on any queue, every session [attemptPair] creates is
    made of two entries that stood next to each other, at offsets 2i and
    2i+1 from the head: no older waiting entry is ever skipped. *)
Theorem pairing_is_fifo (mode : Mode) :
  (∀ (arrivals : list (Z * string)) st,
     queueOf mode (waitingQueues st) = [] →
     uuidFresh st →
     NoDup arrivals.*2 →
     Forall (eligible st) arrivals.*2 →
     ∃ st' out,
       run st (requests mode arrivals) = Some (st', out)
       ∧ sessions st' = sessions st ++ pairUp mode (uuidCount st) arrivals
       ∧ queueOf mode (waitingQueues st') = leftOver arrivals)
  ∧ (∀ now st st' out k session,
       attemptPair now mode st = Some (st', out) →
       uuidFresh st →
       (uuidCount st ≤ k)%nat →
       sessions_get (sessions st') k = Some session →
       ∃ i first second,
         queueOf mode (waitingQueues st) !! (2 * i)%nat = Some first
         ∧ queueOf mode (waitingQueues st) !! (2 * i + 1)%nat = Some second
         ∧ participants session = [socketId first; socketId second]).
Proof.
  split.
  2:{ intros now st st' out k session Hpair Hfresh Hk Hget.
      unfold attemptPair in Hpair.
      destruct (attemptPairLoop _ _ _ _) as [[[q s] o]|] eqn:Hloop; simplify_eq/=.
      by eapply attemptPairLoop_adjacent. }
  intros arrivals.
  induction arrivals as [|[t1 h1]|[t1 h1] [t2 h2] arrivals IH] using list_pair_ind;
    intros st Hq Hfresh Hnodup Hel.
  - exists st, []. simpl. by rewrite app_nil_r.
  - apply Forall_cons in Hel as [Hel1 _].
    destruct (request_waits t1 st h1 mode Hq Hel1) as (st1 & Hstep & Hq1 & Hs1 & _).
    eexists _, _. split; [by eapply (run_cons t1 _ [] st st1 _ st1 [])|].
    simpl. by rewrite app_nil_r.
  - simpl in Hnodup, Hel.
    apply NoDup_cons in Hnodup as [Hnot1 Hnodup].
    apply NoDup_cons in Hnodup as [Hnot2 Hnodup].
    apply Forall_cons in Hel as [Hel1 Hel]. apply Forall_cons in Hel as [Hel2 Hel].
    assert (Hne : h1 ≠ h2) by set_solver.
    destruct (request_waits t1 st h1 mode Hq Hel1)
      as (st1 & Hstep1 & Hq1 & Hs1 & Hu1 & Hkeep1).
    assert (Hfresh1 : uuidFresh st1).
    { intros k Hk. rewrite Hs1. apply Hfresh. lia. }
    destruct (request_pairs t2 st1 h1 h2 mode Hq1 Hne (Hkeep1 _ Hel1)
                (Hkeep1 _ Hel2) Hfresh1)
      as (st2 & out2 & Hstep2 & Hq2 & Hs2 & Hu2 & Hkeep2).
    destruct (IH st2) as (st' & out & Hrun & Hs & Hleft); [done| |done| |].
    { by eapply uuidFresh_paired. }
    { eapply Forall_impl; [exact Hel|]. intros x Hx. by apply Hkeep2, Hkeep1. }
    eexists _, _. split.
    { change (requests mode ((t1, h1) :: (t2, h2) :: arrivals))
        with ((t1, Message h1 (MatchRequest (Some (modeName mode))))
              :: (t2, Message h2 (MatchRequest (Some (modeName mode))))
              :: requests mode arrivals).
      eapply run_cons; [exact Hstep1|]. eapply run_cons; [exact Hstep2|exact Hrun]. }
    split; [|done].
    rewrite Hs, Hs2, Hs1, Hu2, Hu1. simpl. by rewrite <- app_assoc.
Qed.

(** ** Scenarios *)

(** C3 fails on the code: a socket that sends [match:request] while it is in
    a session is queued again and paired again, and is then a participant of
    two stored sessions; its disconnect ends only the first of them and
    leaves the other in the registry. *)
Theorem match_request_inside_session_joins_second_session :
  ∃ st out s0 s1 st' out',
    run initialState newMatchTrace = Some (st, out)
    ∧ sessions_get (sessions st) 0 = Some s0
    ∧ sessions_get (sessions st) 1 = Some s1
    ∧ participants s0 = ["s1"; "s2"]
    ∧ participants s1 = ["s1"; "s3"]
    ∧ step 11 st (Disconnect "s1") = Some (st', out')
    ∧ out' = [(ToSocket "s2", SystemPartnerLeft 0)]
    ∧ sessions_get (sessions st') 1 = Some s1
    ∧ sockets st' !! "s1" = None.
Proof.
  eexists _, _, _, _, _, _.
  split; [vm_compute; reflexivity|].
  split; [reflexivity|]. split; [reflexivity|].
  split; [reflexivity|]. split; [reflexivity|].
  split; [vm_compute; reflexivity|].
  split; [reflexivity|]. split; reflexivity.
Qed.



Lemma getReputation_banned ledger email :
  banned (recordOf ledger email) = true →
  getReputation ledger email = (ledger, recordOf ledger email).
Proof.
  unfold recordOf, getReputation.
  destruct (decide (email = "")); [done|].
  by destruct (ledger !! email).
Qed.

Lemma set_reputations_same st : set_reputations (reputations st) st = st.
Proof. by destruct st. Qed.

Lemma objectPrototypeKeys_truthy m :
  m ∈ objectPrototypeKeys → truthy (Some m) = true.
Proof.
  intros Hin. apply truthy_Some. intros ->.
  apply (bool_decide_pack _) in Hin. by vm_compute in Hin.
Qed.



(** ** The theorems at concrete inputs *)

Lemma applyReaction_ban_invariant_monotone_witness :
  banInvariant
    (applyReaction
       (applyReactions ∅ [("bo@wisc.edu", "report"); ("bo@wisc.edu", "report")])
       "bo@wisc.edu" "report").2
  ∧ ledgerOk (reputations (default (initialState, [])
                             (run initialState bannedWhileWaiting)).1).
Proof.
  pose proof (applyReaction_ban_invariant_monotone
                [("bo@wisc.edu", "report"); ("bo@wisc.edu", "report")]
                "bo@wisc.edu" "report" "ann@wisc.edu")
    as (_ & Hrecord & _ & _ & Hrun & _).
  split; [exact Hrecord|].
  apply (Hrun bannedWhileWaiting _
           (default (initialState, []) (run initialState bannedWhileWaiting)).2).
  vm_compute. reflexivity.
Defined.

Lemma pairing_is_fifo_witness :
  ∃ st out,
    run lounge (requests ModeText [(1%Z, "s1"); (2%Z, "s2"); (3%Z, "s3"); (4%Z, "s4")])
    = Some (st, out)
    ∧ sessions st = [(0%nat, mkSession 0 ModeText ["s1"; "s2"] 2);
                     (1%nat, mkSession 1 ModeText ["s3"; "s4"] 4)]
    ∧ queueOf ModeText (waitingQueues st) = [].
Proof.
  apply (proj1 (pairing_is_fifo ModeText)
           [(1%Z, "s1"); (2%Z, "s2"); (3%Z, "s3"); (4%Z, "s4")] lounge).
  - reflexivity.
  - intros k _. reflexivity.
  - apply (bool_decide_unpack _). vm_compute. exact I.
  - repeat apply Forall_cons_2; try apply Forall_nil_2;
      eexists _, _; (split; [reflexivity|split; reflexivity]).
Defined.



Lemma chat_message_server_timestamp_witness :
  step 99 chatting
    (Message "s2" (ChatTextMessage (Some 0%nat) (Some "On, Wisconsin!")
                     (Some "bo@wisc.edu") (Some 3%Z)))
  = Some (chatting,
          [(ToSocket "s1",
            ChatText 0 "On, Wisconsin!" (Some "bo@wisc.edu") 99)]).
Proof.
  apply (chat_message_server_timestamp 99 chatting "s2"
           (attached "Bo" "bo@wisc.edu") 0
           (mkSession 0 ModeText ["s1"; "s2"] 8) "s1" "s2" "On, Wisconsin!"
           (Some "bo@wisc.edu") (Some 3%Z)).
  - reflexivity.
  - reflexivity.
  - reflexivity.
  - discriminate.
  - discriminate.
  - discriminate.
  - right. reflexivity.
  - discriminate.
Defined.

Lemma profile_update_keeps_earlier_emails_witness :
  "s1" ∈ handlesFor afterTwoEmails.1 "ann@wisc.edu"
  ∧ "s1" ∈ handlesFor afterTwoEmails.1 "ann2@wisc.edu".
Proof.
  destruct (profile_update_keeps_earlier_emails connected1 "s1"
              (mkSocketData None None)
              (student "Ann" "Ann@wisc.edu") (student "Ann" "ann2@wisc.edu")
              1 3 [(2%Z, Message "s1" (MatchRequest (Some "text")))]
              afterTwoEmails.1 afterTwoEmails.2)
    as (H1 & H2 & _).
  - reflexivity.
  - reflexivity.
  - reflexivity.
  - intros t Hin. apply elem_of_cons in Hin as [Heq|Hin];
      [discriminate Heq|by apply elem_of_nil in Hin].
  - vm_compute. reflexivity.
  - split; [exact H1|exact H2].
Defined.

(** * Further properties of the server *)

(** ** What [attemptPair] leaves in the queue *)

Lemma attemptPairLoop_leftover now mode queue : ∀ st queue' st' out,
  attemptPairLoop now mode queue st = Some (queue', st', out) →
  (length queue' ≤ 1)%nat ∧ queue' `suffix_of` queue.
Proof.
  induction queue as [| |first second queue IH] using list_pair_ind;
    intros st queue' st' out Hloop; simpl in Hloop.
  - simplify_eq. split; [simpl; lia|done].
  - simplify_eq. split; [simpl; lia|done].
  - assert (Hrec : ∀ st1 out1,
              attemptPairLoop now mode queue st1 = Some (queue', st', out1) →
              (length queue' ≤ 1)%nat
              ∧ queue' `suffix_of` first :: second :: queue).
    { intros st1 out1 [Hlen Hsuf]%IH. split; [done|].
      by do 2 apply suffix_cons_r. }
    destruct (sockets st !! socketId first) as [firstSocket|]; [|by eauto].
    destruct (sockets st !! socketId second) as [secondSocket|]; [|by eauto].
    destruct (data_profile secondSocket); simpl in Hloop; [|done].
    destruct (data_profile firstSocket); simpl in Hloop; [|done].
    destruct (attemptPairLoop _ _ _ _) as [[[q s] o]|] eqn:Hloop';
      simpl in Hloop; [|done].
    injection Hloop as -> -> _. by eapply Hrec.
Qed.

(** On a queue of connected sockets with profiles the loop neither throws
    nor takes its stale branch. *)
Lemma attemptPairLoop_ready now mode queue : ∀ st,
  Forall (λ entry, ready st (socketId entry)) queue →
  is_Some (attemptPairLoop now mode queue st).
Proof.
  induction queue as [| |first second queue IH] using list_pair_ind;
    intros st Hready; simpl; [done|done|].
  apply Forall_cons in Hready as [(d1 & p1 & Hl1 & Hp1) Hready].
  apply Forall_cons in Hready as [(d2 & p2 & Hl2 & Hp2) Hready].
  rewrite Hl1, Hl2. simpl. rewrite Hp2, Hp1. simpl.
  match goal with
  | |- is_Some (attemptPairLoop now mode queue ?s ≫= _) =>
      destruct (IH s) as [[[q s'] o] ->]; [exact Hready|done]
  end.
Qed.

(** ** What each handler does to queues and sockets *)

Lemma waitingQueuesSlot_own s mode :
  waitingQueuesSlot s = OwnQueue mode → s = modeName mode.
Proof.
  unfold waitingQueuesSlot. repeat case_decide; repeat case_match;
    intros; simplify_eq; done.
Qed.

(** A [match:request] is either turned away, changing at most the ledger (by
    the read of the ban check) and emitting at most one event to its sender,
    or admitted: [attemptPair] then runs on the state with the sender
    appended to the queue of its mode. *)
Lemma onMatchRequest_cases now st h data mode st' out :
  onMatchRequest now st h data mode = Some (st', out) →
  (∃ reps, st' = set_reputations reps st
           ∧ (out = [] ∨ ∃ event, out = [(ToSocket h, event)]))
  ∨ (∃ m profile out',
       mode = Some (modeName m)
       ∧ data_profile data = Some profile
       ∧ banned (recordOf (reputations st) (email profile)) = false
       ∧ attemptPair now m (enqueued st h data profile m) = Some (st', out')
       ∧ out = (ToSocket h,
                MatchQueued m
                  (length (queueOf m
                             (waitingQueues (enqueued st h data profile m)))))
               :: out').
Proof.
  intros Hreq.
  assert (Hturned : ∀ event : ServerEvent,
            (∃ reps, st = set_reputations reps st
                     ∧ (([(ToSocket h, event)] : list Emit) = []
                        ∨ ∃ event', ([(ToSocket h, event)] : list Emit)
                                    = [(ToSocket h, event')]))).
  { intros event. exists (reputations st). rewrite set_reputations_same. eauto. }
  unfold onMatchRequest in Hreq.
  destruct (truthy mode) eqn:Htruthy; simpl in Hreq.
  2:{ injection Hreq as <- <-. left. exists (reputations st).
      rewrite set_reputations_same. eauto. }
  destruct (waitingQueuesSlot (orEmpty mode)) as [m| |] eqn:Hslot.
  - apply waitingQueuesSlot_own in Hslot.
    destruct mode as [s|]; [|done]. simpl in Hslot. subst s.
    destruct (data_profile data) as [profile|] eqn:Hprofile.
    2:{ injection Hreq as <- <-. left. apply Hturned. }
    destruct (getReputation (reputations st) (email profile)) as [reps rep] eqn:Hg.
    destruct (banned rep) eqn:Hb.
    { injection Hreq as <- <-. left. exists reps. eauto. }
    right. exists m, profile.
    assert (Hrec : banned (recordOf (reputations st) (email profile)) = false).
    { unfold recordOf. by rewrite Hg. }
    pose proof (onMatchRequest_admitted now st h data profile m Hprofile Hrec)
      as Hadm.
    unfold onMatchRequest in Hadm. rewrite truthy_mode in Hadm. simpl in Hadm.
    rewrite waitingQueuesSlot_mode, Hprofile, Hg, Hb in Hadm.
    rewrite Hadm in Hreq.
    destruct (attemptPair now m (enqueued st h data profile m))
      as [[s o]|]; simpl in Hreq; [|done].
    injection Hreq as <- <-. by exists o.
  - destruct (data_profile data) as [profile|] eqn:Hprofile.
    2:{ injection Hreq as <- <-. left. apply Hturned. }
    destruct (getReputation (reputations st) (email profile)) as [reps rep] eqn:Hg.
    destruct (banned rep) eqn:Hb; [|done].
    injection Hreq as <- <-. left. exists reps. eauto.
  - injection Hreq as <- <-. left. exists (reputations st).
    rewrite set_reputations_same. eauto.
Qed.

Lemma onDisconnect_queues st h :
  waitingQueues (onDisconnect st h).1 = removeFromQueues h (waitingQueues st).
Proof.
  unfold onDisconnect.
  repeat case_match; simplify_eq/=; try done.
  endSession_facts. by rewrite Hq.
Qed.

Lemma onChatLeave_queues st h sessionId :
  waitingQueues (onChatLeave st h sessionId).1
  = removeFromQueues h (waitingQueues st).
Proof.
  unfold onChatLeave.
  repeat case_match; simplify_eq/=; try done;
    endSession_facts; by rewrite Hq.
Qed.

Lemma onProfileUpdate_sockets st h data profile :
  ∃ attachedProfile,
    sockets (onProfileUpdate st h data profile).1
    = <[h := {| data_profile := Some attachedProfile;
                data_mode := data_mode data |}]> (sockets st).
Proof.
  unfold onProfileUpdate. destruct (getReputation _ _). simpl. eauto.
Qed.

Lemma queueOf_setQueue_other mode q w :
  queueOf (otherMode mode) (setQueue mode q w) = queueOf (otherMode mode) w.
Proof. by destruct mode. Qed.

Lemma otherMode_involutive mode : otherMode (otherMode mode) = mode.
Proof. by destruct mode. Qed.

Lemma ready_insert st st' h data profile x :
  sockets st' = <[h := data]> (sockets st) →
  data_profile data = Some profile →
  ready st x → ready st' x.
Proof.
  intros Hs Hp (dx & px & Hx & Hpx). unfold ready. rewrite Hs.
  destruct (decide (x = h)) as [->|Hne].
  - rewrite lookup_insert_eq. eauto.
  - rewrite lookup_insert_ne by done. eauto.
Qed.

Lemma ready_ext st st' x :
  sockets st' = sockets st → ready st x → ready st' x.
Proof. unfold ready. by intros ->. Qed.

(** Removing a socket from the queues keeps them well formed. *)
Lemma queuesOk_removeFromQueues st st' h :
  waitingQueues st' = removeFromQueues h (waitingQueues st) →
  (∀ x, x ≠ h → ready st x → ready st' x) →
  queuesOk st → queuesOk st'.
Proof.
  intros Hq Hready (Hlen & Hcross & Hre). unfold queuesOk. rewrite Hq.
  split; [|split].
  - intros mode. rewrite queueOf_removeFromQueues.
    etrans; [apply length_filter|apply Hlen].
  - intros mode a b. rewrite !queueOf_removeFromQueues.
    intros [_ Ha]%list_elem_of_filter [_ Hb]%list_elem_of_filter.
    by eapply Hcross.
  - intros mode a. rewrite queueOf_removeFromQueues.
    intros [Hne Ha]%list_elem_of_filter. apply Hready; [done|]. by eapply Hre.
Qed.

(** ** Queues stay well formed *)

Lemma mode_cases (mode mode' : Mode) : mode' = mode ∨ mode' = otherMode mode.
Proof. destruct mode, mode'; auto. Qed.

Lemma queueOf_enqueued_other st h data profile mode :
  queueOf (otherMode mode) (waitingQueues (enqueued st h data profile mode))
  = filter (λ entry, socketId entry ≠ h)
      (queueOf (otherMode mode) (waitingQueues st)).
Proof.
  unfold enqueued. simpl.
  by rewrite queueOf_setQueue_other, queueOf_removeFromQueues.
Qed.

Lemma sockets_enqueued st h data profile mode :
  sockets (enqueued st h data profile mode)
  = <[h := {| data_profile := data_profile data;
              data_mode := Some (modeName mode) |}]> (sockets st).
Proof. done. Qed.

Lemma attemptPair_enqueued_queuesOk now st h data profile mode st' out :
  sockets st !! h = Some data →
  data_profile data = Some profile →
  attemptPair now mode (enqueued st h data profile mode) = Some (st', out) →
  queuesOk st → queuesOk st'.
Proof.
  intros Hconn Hprofile Hpair (Hlen & Hcross & Hready).
  unfold attemptPair in Hpair.
  destruct (attemptPairLoop _ _ _ _) as [[[q' sl] o]|] eqn:Hloop;
    simpl in Hpair; [|done].
  injection Hpair as <- <-.
  destruct (attemptPairLoop_leftover _ _ _ _ _ _ _ Hloop) as [Hq' Hsuffix].
  destruct (attemptPairLoop_frame _ _ _ _ _ _ _ Hloop) as (Hsock & _ & _ & Hwq).
  rewrite queueOf_enqueued in Hsuffix.
  assert (Hfrom : ∀ a, a ∈ q' →
            a = mkQueueEntry h
            ∨ (a ∈ queueOf mode (waitingQueues st) ∧ socketId a ≠ h)).
  { intros a Ha. destruct Hsuffix as [pre Hpre].
    assert (Hin : a ∈ filter (λ entry, socketId entry ≠ h)
                      (queueOf mode (waitingQueues st)) ++ [mkQueueEntry h]).
    { rewrite Hpre. apply elem_of_app. by right. }
    apply elem_of_app in Hin as [[? ?]%list_elem_of_filter|Hin]; [by right|].
    left. by apply list_elem_of_singleton in Hin. }
  assert (Hnew : ∀ x, ready st x → ready sl x).
  { intros x Hx. apply (ready_ext (enqueued st h data profile mode)); [done|].
    eapply ready_insert; [apply sockets_enqueued|done|done]. }
  assert (Hh : ready sl h).
  { apply Hnew. by exists data, profile. }
  unfold queuesOk. simpl. rewrite Hwq. split; [|split].
  - intros mode'. destruct (mode_cases mode mode') as [-> | ->].
    + by rewrite queueOf_setQueue.
    + rewrite queueOf_setQueue_other, queueOf_enqueued_other.
      etrans; [apply length_filter|apply Hlen].
  - intros mode' a b. destruct (mode_cases mode mode') as [-> | ->].
    + rewrite queueOf_setQueue, queueOf_setQueue_other, queueOf_enqueued_other.
      intros [-> | [Ha Hne]]%Hfrom [Hb Hin]%list_elem_of_filter.
      * simpl. congruence.
      * by eapply Hcross.
    + rewrite otherMode_involutive.
      rewrite queueOf_setQueue, queueOf_setQueue_other, queueOf_enqueued_other.
      intros [Ha Hin]%list_elem_of_filter [-> | [Hb Hne]]%Hfrom.
      * simpl. congruence.
      * intros Heq. eapply (Hcross mode b a); [done|done|congruence].
  - intros mode' a. destruct (mode_cases mode mode') as [-> | ->].
    + rewrite queueOf_setQueue. intros [-> | [Ha Hne]]%Hfrom; [done|].
      apply Hnew. by eapply Hready.
    + rewrite queueOf_setQueue_other, queueOf_enqueued_other.
      intros [_ Ha]%list_elem_of_filter. apply Hnew. by eapply Hready.
Qed.

Lemma queuesOk_ext st st' :
  waitingQueues st' = waitingQueues st →
  (∀ x, ready st x → ready st' x) →
  queuesOk st → queuesOk st'.
Proof.
  intros Hq Hready (Hlen & Hcross & Hre). unfold queuesOk. rewrite Hq.
  split; [done|]. split; [done|]. intros mode a Ha. by eapply Hready, Hre.
Qed.

Lemma step_queuesOk now st i st' out :
  step now st i = Some (st', out) → queuesOk st → queuesOk st'.
Proof.
  intros Hstep Hok.
  destruct i as [h|h|h msg|email|]; simpl in Hstep.
  - destruct (sockets st !! h) eqn:Hconn; simplify_eq; [done|].
    apply (queuesOk_ext st); [done| |done].
    intros x (dx & px & Hx & Hpx). exists dx, px. split; [|done]. simpl.
    rewrite lookup_insert_ne; [done|]. intros <-. congruence.
  - destruct (sockets st !! h) eqn:Hconn; simplify_eq; [|done].
    pose proof (onDisconnect_queues (set_sockets (delete h (sockets st)) st) h)
      as Hq.
    pose proof (proj2 (onDisconnect_frame
                         (set_sockets (delete h (sockets st)) st) h)) as Hs.
    rewrite Hstep in Hq, Hs. simpl in Hq, Hs.
    apply (queuesOk_removeFromQueues st _ h); [done| |done].
    intros x Hne (dx & px & Hx & Hpx). exists dx, px. rewrite Hs.
    by rewrite lookup_delete_ne.
  - destruct (sockets st !! h) as [data|] eqn:Hconn; simplify_eq; [|done].
    destruct msg; simpl in Hstep; odd_payloads; simplify_eq; try done.
    + destruct (onProfileUpdate_frame st h data profile) as (_ & _ & Hq).
      destruct (onProfileUpdate_sockets st h data profile) as [p Hs].
      rewrite Hstep in Hq, Hs. simpl in Hq, Hs.
      apply (queuesOk_ext st); [done| |done].
      intros x Hx. by eapply ready_insert.
    + apply onMatchRequest_cases in Hstep
        as [(reps & -> & _) | (m & profile & out' & -> & Hp & _ & Hpair & _)].
      * by apply (queuesOk_ext st).
      * by eapply attemptPair_enqueued_queuesOk.
    + pose proof (onChatLeave_queues st h sessionId) as Hq.
      pose proof (proj2 (onChatLeave_frame st h sessionId)) as Hs.
      rewrite Hstep in Hq, Hs. simpl in Hq, Hs.
      apply (queuesOk_removeFromQueues st _ h); [done| |done].
      intros x _. by apply ready_ext.
    + destruct (onProfileReaction_frame st target type) as (_ & _ & Hq & Hs & _).
      rewrite Hstep in Hq, Hs. simpl in Hq, Hs.
      apply (queuesOk_ext st); [done| |done]. intros x. by apply ready_ext.
    + destruct (onProfileUpdate_frame st h data
                  (mkProfilePayload None None None)) as (_ & _ & Hq).
      destruct (onProfileUpdate_sockets st h data
                  (mkProfilePayload None None None)) as [p Hs].
      rewrite Hstep in Hq, Hs. simpl in Hq, Hs.
      apply (queuesOk_ext st); [done| |done].
      intros x Hx. by eapply ready_insert.
  - destruct (getReputation _ _); simplify_eq. by apply (queuesOk_ext st).
  - by simplify_eq.
Qed.

Lemma queuesOk_initial : queuesOk initialState.
Proof.
  split; [intros []; simpl; lia|].
  split; [by intros [] a b ?%elem_of_nil|].
  by intros [] a ?%elem_of_nil.
Qed.

Lemma reachable_queuesOk trace st out :
  run initialState trace = Some (st, out) → queuesOk st.
Proof.
  intros Hrun.
  apply (run_preserves_all queuesOk step_queuesOk) in Hrun; [done|].
  apply queuesOk_initial.
Qed.

(** X1. In every state the server reaches, each mode's queue holds at most
    one entry, no socket waits twice or in both queues, and every waiting
    socket is connected with a profile attached; so [GET /health], which
    changes nothing, reports 0 or 1 waiting for each mode. *)
Theorem waiting_queues_hold_at_most_one trace st out :
  run initialState trace = Some (st, out) →
  (length (text (waitingQueues st)) ≤ 1)%nat
  ∧ (length (video (waitingQueues st)) ≤ 1)%nat
  ∧ NoDup (queuedSockets st)
  ∧ (∀ h, h ∈ queuedSockets st → ready st h)
  ∧ ∀ now, ∃ textWaiting videoWaiting,
      step now st GetHealth
      = Some (st, [(HttpResponse, HealthJson textWaiting videoWaiting)])
      ∧ (textWaiting ≤ 1)%nat ∧ (videoWaiting ≤ 1)%nat.
Proof.
  intros (Hlen & Hcross & Hready)%reachable_queuesOk.
  cut ((length (text (waitingQueues st)) ≤ 1)%nat
       ∧ (length (video (waitingQueues st)) ≤ 1)%nat
       ∧ NoDup (queuedSockets st)
       ∧ (∀ h, h ∈ queuedSockets st → ready st h)).
  { intros (Ht & Hv & ? & ?). repeat (split; [done|]).
    intros now. simpl. eauto. }
  pose proof (Hlen ModeText) as Ht. pose proof (Hlen ModeVideo) as Hv.
  pose proof (Hcross ModeText) as Hc.
  pose proof (Hready ModeText) as Hrt. pose proof (Hready ModeVideo) as Hrv.
  simpl in Ht, Hv, Hc, Hrt, Hrv. unfold queuedSockets.
  split; [done|]. split; [done|]. split.
  - destruct (text (waitingQueues st)) as [|a [|? ?]];
      destruct (video (waitingQueues st)) as [|b [|? ?]];
      simpl in *; try lia; repeat constructor;
      try (by intros ?%elem_of_nil).
    intros Hin%list_elem_of_singleton.
    by apply (Hc a b); [left|left|].
  - intros h (a & -> & [Ha|Ha]%elem_of_app)%list_elem_of_fmap; auto.
Qed.

Lemma attemptPair_enqueued_is_Some now st h data profile mode :
  sockets st !! h = Some data →
  data_profile data = Some profile →
  queuesOk st →
  is_Some (attemptPair now mode (enqueued st h data profile mode)).
Proof.
  intros Hconn Hprofile (_ & _ & Hready). unfold attemptPair.
  destruct (attemptPairLoop_ready now mode
              (queueOf mode (waitingQueues (enqueued st h data profile mode)))
              (enqueued st h data profile mode)) as [[[q s] o] ->]; [|done].
  rewrite queueOf_enqueued. apply Forall_app. split.
  - apply Forall_forall. intros a [_ Ha]%list_elem_of_filter.
    eapply ready_insert; [apply sockets_enqueued|done|by eapply Hready].
  - apply Forall_singleton. simpl.
    eapply ready_insert; [apply sockets_enqueued|done|by exists data, profile].
Qed.

Lemma waitingQueuesSlot_inherited m :
  waitingQueuesSlot m = Inherited ↔ m ∈ objectPrototypeKeys.
Proof.
  unfold waitingQueuesSlot.
  destruct (decide (m = "text")) as [->|?].
  { split; [done|]. intros Hin.
    apply (bool_decide_pack _) in Hin. by vm_compute in Hin. }
  destruct (decide (m = "video")) as [->|?].
  { split; [done|]. intros Hin.
    apply (bool_decide_pack _) in Hin. by vm_compute in Hin. }
  case_bool_decide; split; done.
Qed.

(** X2. In every state the server reaches, an event makes a handler throw
    exactly when a connected socket sends: an event without payload
    ([undefined] or [null]), except a [profile:update] with [undefined],
    which takes the default; a [profile:update] whose email is truthy and
    not a string; a [profile:reaction] with a type and a target that is
    truthy and not a string; a [match:request] whose mode cannot be
    converted to a property key; or a [match:request] whose mode names a
    member inherited from [Object.prototype] (["constructor"],
    ["toString"], ...) while the socket has a profile whose email is not
    banned, where the mode check lets the name through and
    [waitingQueues[mode].push] is not a function. Every other event is
    handled to completion. *)
Theorem handler_throws_exactly_on_odd_payloads trace st out now i :
  run initialState trace = Some (st, out) →
  step now st i = None ↔ throwsOn st i.
Proof.
  intros Hok%reachable_queuesOk. split.
  - intros Hstep. destruct i as [h|h|h msg|email|]; simpl in Hstep.
    + by destruct (sockets st !! h).
    + by destruct (sockets st !! h).
    + destruct (sockets st !! h) as [data|] eqn:Hconn; [|done].
      exists h, msg. split; [done|]. split; [by exists data|].
      destruct msg as [| mode | | | | | | | event payload | | type |];
        try done; simpl in Hstep.
      * unfold onMatchRequest in Hstep.
        destruct (truthy mode) eqn:Htruthy; [|done]. simpl in Hstep.
        destruct mode as [m|]; [|done]. simpl in Hstep.
        destruct (waitingQueuesSlot m) as [mode| |] eqn:Hslot; [| |done];
          (destruct (data_profile data) as [profile|] eqn:Hprofile; [|done]);
          (destruct (getReputation (reputations st) (email profile))
             as [reps rep] eqn:Hg);
          (assert (Hrec : recordOf (reputations st) (email profile) = rep)
             by (unfold recordOf; by rewrite Hg));
          (destruct (banned rep) eqn:Hb; [done|]).
        -- apply waitingQueuesSlot_own in Hslot. subst m. exfalso.
           destruct (attemptPair_enqueued_is_Some now st h data profile mode
                       Hconn Hprofile Hok) as [[s o] Hsome].
           pose proof (onMatchRequest_admitted now st h data profile mode
                         Hprofile) as Hadm.
           rewrite Hrec in Hadm. specialize (Hadm Hb).
           unfold onMatchRequest in Hadm. rewrite truthy_mode in Hadm.
           simpl in Hadm.
           rewrite waitingQueuesSlot_mode, Hprofile, Hg, Hb in Hadm.
           rewrite Hadm, Hsome in Hstep. done.
        -- split; [by apply waitingQueuesSlot_inherited in Hslot|].
           exists data, profile. by rewrite Hrec.
      * destruct event; try (by left). destruct payload; [done|by right].
      * by destruct (truthy type).
    + by destruct (getReputation _ _).
    + done.
  - intros (h & msg & -> & [data Hconn] & Hmsg).
    simpl. rewrite Hconn.
    destruct msg as [| [m|] | | | | | | | event payload | | type |];
      try done; simpl.
    + destruct Hmsg as (Hm & data' & profile & Hconn' & Hprofile & Hb).
      rewrite Hconn in Hconn'. injection Hconn' as <-.
      unfold onMatchRequest.
      rewrite (objectPrototypeKeys_truthy m Hm). simpl.
      rewrite (proj2 (waitingQueuesSlot_inherited m) Hm), Hprofile.
      unfold recordOf in Hb.
      destruct (getReputation _ _) as [reps rep]. simpl in Hb. by rewrite Hb.
    + destruct Hmsg as [Hevent| ->]; [by destruct event|].
      by destruct event.
    + by rewrite Hmsg.
Qed.

(** ** Sessions stay well formed *)

Lemma sessions_get_None m k : sessions_get m k = None ↔ k ∉ m.*1.
Proof.
  induction m as [|[k' v] m IH]; simpl.
  - split; [intros _ ?%elem_of_nil|]; done.
  - rewrite sessions_get_cons, not_elem_of_cons.
    destruct (decide (k' = k)) as [->|Hne]; [split; [done|tauto]|].
    rewrite IH. split; [by split|tauto].
Qed.

Lemma sessions_get_Some m k session :
  sessions_get m k = Some session → (k, session) ∈ m.
Proof.
  induction m as [|[k' v] m IH]; [done|].
  rewrite sessions_get_cons. case_decide; [|right; auto].
  intros [= ->]. subst. by left.
Qed.

Lemma sessions_get_unique m k session :
  NoDup m.*1 → (k, session) ∈ m → sessions_get m k = Some session.
Proof.
  induction m as [|[k' v] m IH]; [by intros _ ?%elem_of_nil|].
  simpl. intros [Hnot Hnodup]%NoDup_cons [Heq|Hin]%elem_of_cons.
  - simplify_eq. by rewrite sessions_get_cons, decide_True.
  - rewrite sessions_get_cons, decide_False; [auto|].
    intros ->. apply Hnot. by apply (list_elem_of_fmap_2 fst _ (k, session)).
Qed.

Lemma elem_of_sessions_delete m j k session :
  (k, session) ∈ sessions_delete m j ↔ k ≠ j ∧ (k, session) ∈ m.
Proof. unfold sessions_delete. by rewrite list_elem_of_filter. Qed.

Lemma NoDup_sessions_delete m j : NoDup m.*1 → NoDup (sessions_delete m j).*1.
Proof.
  unfold sessions_delete. induction m as [|[k v] m IH]; [done|].
  simpl. intros [Hnot Hnodup]%NoDup_cons. rewrite filter_cons.
  case_decide; [|auto]. simpl. apply NoDup_cons. split; [|auto].
  intros ([k' v'] & Heq & [_ Hin]%list_elem_of_filter)%list_elem_of_fmap.
  simpl in Heq. subst k'. apply Hnot.
  by apply (list_elem_of_fmap_2 fst _ (k, v')).
Qed.

Lemma endSession_sessions j leaver st :
  sessions (endSession j leaver st).1 = sessions st
  ∨ sessions (endSession j leaver st).1 = sessions_delete (sessions st) j.
Proof.
  unfold endSession. destruct (sessions_get (sessions st) j); simpl; auto.
Qed.

Lemma sessionsOk_shrink st st' :
  (sessions st' = sessions st ∨ ∃ j, sessions st' = sessions_delete (sessions st) j) →
  uuidCount st' = uuidCount st →
  sessionsOk st → sessionsOk st'.
Proof.
  intros Hs Hu [Hnodup Hall]. unfold sessionsOk. rewrite Hu.
  destruct Hs as [-> | [j ->]]; [done|]. split.
  - by apply NoDup_sessions_delete.
  - intros k session [_ Hin]%elem_of_sessions_delete. auto.
Qed.

Lemma endSession_sessionsOk j leaver st :
  sessionsOk st → sessionsOk (endSession j leaver st).1.
Proof.
  apply sessionsOk_shrink; [|apply endSession_frame].
  destruct (endSession_sessions j leaver st); eauto.
Qed.

Lemma sessionsOk_fresh st : sessionsOk st → uuidFresh st.
Proof.
  intros [_ Hall] k Hk.
  destruct (sessions_get (sessions st) k) as [session|] eqn:Hget; [|done].
  apply sessions_get_Some, Hall in Hget as (_ & Hlt & _). lia.
Qed.

Lemma attemptPairLoop_sessionsOk now mode queue : ∀ st queue' st' out,
  attemptPairLoop now mode queue st = Some (queue', st', out) →
  NoDup (socketId <$> queue) →
  sessionsOk st → sessionsOk st'.
Proof.
  induction queue as [| |first second queue IH] using list_pair_ind;
    intros st queue' st' out Hloop Hnodup Hok; simpl in Hloop;
    [by simplify_eq|by simplify_eq|].
  simpl in Hnodup.
  apply NoDup_cons in Hnodup as [Hfirst Hnodup].
  apply NoDup_cons in Hnodup as [_ Hnodup].
  destruct (sockets st !! socketId first) as [firstSocket|]; [|by eauto].
  destruct (sockets st !! socketId second) as [secondSocket|]; [|by eauto].
  destruct (data_profile secondSocket); simpl in Hloop; [|done].
  destruct (data_profile firstSocket); simpl in Hloop; [|done].
  destruct (attemptPairLoop _ _ _ _) as [[[q s] o]|] eqn:Hrec;
    simpl in Hloop; [|done].
  injection Hloop as -> -> _.
  eapply IH; [exact Hrec|done|].
  pose proof (sessionsOk_fresh st Hok) as Hfresh.
  destruct Hok as [Hkeys Hall]. unfold sessionsOk. simpl.
  rewrite sessions_set_fresh by (by apply Hfresh). split.
  - rewrite fmap_app. apply NoDup_app. split; [done|]. split.
    + intros k Hk Hnew. simpl in Hnew.
      apply list_elem_of_singleton in Hnew as ->.
      apply list_elem_of_fmap in Hk as ([k' v] & Heq & Hin).
      simpl in Heq. subst k'.
      apply Hall in Hin as (_ & Hlt & _). lia.
    + apply NoDup_singleton.
  - intros k session [Hin|Hin%list_elem_of_singleton]%elem_of_app.
    + apply Hall in Hin as (? & ? & ?). split; [done|]. split; [lia|done].
    + simplify_eq. split; [done|]. split; [lia|].
      exists (socketId first), (socketId second). split; [done|].
      intros Heq. apply Hfirst. rewrite Heq. by left.
Qed.

Lemma step_sessionsOk now st i st' out :
  step now st i = Some (st', out) →
  queuesOk st → sessionsOk st → sessionsOk st'.
Proof.
  intros Hstep Hqueues Hok.
  destruct i as [h|h|h msg|email|]; simpl in Hstep.
  - by repeat case_match; simplify_eq.
  - destruct (sockets st !! h); simplify_eq; [|done].
    unfold onDisconnect in Hstep. simpl in Hstep.
    repeat case_match; simplify_eq/=; try done.
    match goal with
    | H : endSession ?j ?l ?s = (?s', _) |- _ =>
        pose proof (endSession_sessionsOk j l s Hok) as Hs; by rewrite H in Hs
    end.
  - destruct (sockets st !! h) as [data|] eqn:Hconn; simplify_eq; [|done].
    destruct msg; simpl in Hstep; odd_payloads; simplify_eq; try done.
    + destruct (onProfileUpdate_frame st h data profile) as (Hs & Hu & _).
      rewrite Hstep in Hs, Hu. simpl in Hs, Hu.
      apply (sessionsOk_shrink st); auto.
    + apply onMatchRequest_cases in Hstep
        as [(reps & -> & _) | (m & profile & out' & -> & Hp & _ & Hpair & _)];
        [done|].
      unfold attemptPair in Hpair.
      destruct (attemptPairLoop _ _ _ _) as [[[q' sl] o]|] eqn:Hloop;
        simpl in Hpair; [|done].
      injection Hpair as <- <-.
      apply attemptPairLoop_sessionsOk in Hloop; [done| |done].
      rewrite queueOf_enqueued.
      destruct Hqueues as (Hlen & _ & _). specialize (Hlen m).
      destruct (queueOf m (waitingQueues st)) as [|a [|? ?]];
        [| |simpl in Hlen; lia].
      * apply NoDup_singleton.
      * rewrite filter_cons, filter_nil. case_decide; simpl.
        -- apply NoDup_cons. split; [|apply NoDup_singleton].
           by intros ?%list_elem_of_singleton.
        -- apply NoDup_singleton.
    + unfold onChatLeave in Hstep.
      repeat case_match; simplify_eq/=; try done;
        match goal with
        | H : endSession ?j ?l ?s = (?s', _) |- _ =>
            pose proof (endSession_sessionsOk j l s Hok) as Hs;
            by rewrite H in Hs
        end.
    + destruct (onProfileReaction_frame st target type) as (Hs & Hu & _).
      rewrite Hstep in Hs, Hu. simpl in Hs, Hu.
      apply (sessionsOk_shrink st); auto.
    + destruct (onProfileUpdate_frame st h data
                  (mkProfilePayload None None None)) as (Hs & Hu & _).
      rewrite Hstep in Hs, Hu. simpl in Hs, Hu.
      apply (sessionsOk_shrink st); auto.
  - by destruct (getReputation _ _); simplify_eq.
  - by simplify_eq.
Qed.

Lemma reachable_wellFormed trace st out :
  run initialState trace = Some (st, out) → queuesOk st ∧ sessionsOk st.
Proof.
  intros Hrun.
  apply (run_preserves_all (λ s, queuesOk s ∧ sessionsOk s)) in Hrun; [done| |].
  - intros now s i s' o Hstep [Hq Hs].
    split; [by eapply step_queuesOk|by eapply step_sessionsOk].
  - split; [apply queuesOk_initial|]. split; [apply NoDup_nil_2|].
    by intros k session ?%elem_of_nil.
Qed.

(** X3. In every state the server reaches, session ids are distinct, every
    session is stored under its own id, the id was handed out by the id
    generator, and the session has exactly two participants, which are two
    different sockets: a socket is never paired with itself. *)
Theorem sessions_have_two_distinct_participants trace st out :
  run initialState trace = Some (st, out) →
  NoDup (sessions st).*1
  ∧ ∀ k session,
      (sessions_get (sessions st) k = Some session ↔ (k, session) ∈ sessions st)
  ∧ ((k, session) ∈ sessions st →
     session_id session = k
     ∧ (k < uuidCount st)%nat
     ∧ ∃ a b, participants session = [a; b] ∧ a ≠ b).
Proof.
  intros [_ [Hkeys Hall]]%reachable_wellFormed. split; [done|].
  intros k session. split; [|by apply Hall].
  split; [apply sessions_get_Some|by apply sessions_get_unique].
Qed.

(** ** Pairing notifications *)

(** X4. When a socket with an unbanned profile asks for a match in a mode
    where one other socket waits, the request emits exactly three events:
    [match:queued] with queue length 2 to the requester, then [match:paired]
    to the waiting socket and to the requester, both with the same new
    session id; each carries the sanitized profile of the other party, and
    only the socket that waited longer is the initiator. The session is
    stored and the queue is empty again. *)
Theorem paired_events_carry_partner_profile
    (now : Z) (st : State) (h1 h2 : string) (d1 d2 : SocketData)
    (p1 p2 : Profile) (mode : Mode) :
  queueOf mode (waitingQueues st) = [mkQueueEntry h1] →
  h1 ≠ h2 →
  sockets st !! h1 = Some d1 → data_profile d1 = Some p1 →
  sockets st !! h2 = Some d2 → data_profile d2 = Some p2 →
  banned (recordOf (reputations st) (email p2)) = false →
  ∃ st',
    step now st (Message h2 (MatchRequest (Some (modeName mode))))
    = Some (st',
            [ (ToSocket h2, MatchQueued mode 2);
              (ToSocket h1,
               MatchPaired (uuidCount st) mode (sanitizeProfile p2) true);
              (ToSocket h2,
               MatchPaired (uuidCount st) mode (sanitizeProfile p1) false) ])
    ∧ sessions_get (sessions st') (uuidCount st)
      = Some (pairedSession (uuidCount st) mode (mkQueueEntry h1)
                (mkQueueEntry h2) now)
    ∧ queueOf mode (waitingQueues st') = []
    ∧ uuidCount st' = S (uuidCount st).
Proof.
  intros Hq Hne Hl1 Hp1 Hl2 Hp2 Hrep.
  unfold step. rewrite Hl2. unfold onMessage.
  rewrite (onMatchRequest_admitted now st h2 d2 p2 mode Hp2 Hrep).
  unfold attemptPair. rewrite queueOf_enqueued, Hq.
  rewrite filter_cons, decide_True by done. rewrite filter_nil.
  change ([mkQueueEntry h1] ++ [mkQueueEntry h2])
    with [mkQueueEntry h1; mkQueueEntry h2].
  rewrite (attemptPairLoop_two now mode (mkQueueEntry h1) (mkQueueEntry h2) _
             d1 {| data_profile := data_profile d2;
                   data_mode := Some (modeName mode) |} p1 p2).
  - eexists. split; [done|]. simpl. rewrite sessions_get_set, queueOf_setQueue.
    by rewrite decide_True.
  - rewrite sockets_enqueued. by rewrite lookup_insert_ne.
  - rewrite sockets_enqueued. by rewrite lookup_insert_eq.
  - done.
  - done.
Qed.

Lemma paired_events_carry_partner_profile_witness :
  ∃ st,
    step 9 oneWaiting (Message "s2" (MatchRequest (Some "text")))
    = Some (st,
            [ (ToSocket "s2", MatchQueued ModeText 2);
              (ToSocket "s1",
               MatchPaired 0 ModeText
                 (mkSanitizedProfile "Bo" "bo@wisc.edu" []) true);
              (ToSocket "s2",
               MatchPaired 0 ModeText
                 (mkSanitizedProfile "Ann" "ann@wisc.edu" []) false) ])
    ∧ sessions_get (sessions st) 0 = Some (mkSession 0 ModeText ["s1"; "s2"] 9)
    ∧ queueOf ModeText (waitingQueues st) = []
    ∧ uuidCount st = 1%nat.
Proof.
  apply (paired_events_carry_partner_profile 9 oneWaiting "s1" "s2"
           (attached "Ann" "ann@wisc.edu") (attached "Bo" "bo@wisc.edu")
           (mkProfile (Some "Ann") "ann@wisc.edu" (Some []))
           (mkProfile (Some "Bo") "bo@wisc.edu" (Some [])) ModeText).
  - reflexivity.
  - discriminate.
  - reflexivity.
  - reflexivity.
  - reflexivity.
  - reflexivity.
  - reflexivity.
Defined.

(** ** Disconnect *)

Lemma findSessionBySocket_Some m h k session :
  findSessionBySocket m h = Some (k, session) →
  (k, session) ∈ m ∧ h ∈ participants session.
Proof.
  unfold findSessionBySocket. intros [Hin Hp]%find_some.
  split; [by apply list_elem_of_In|]. by apply bool_decide_eq_true in Hp.
Qed.

Lemma findSessionBySocket_None m h k session :
  findSessionBySocket m h = None →
  (k, session) ∈ m → h ∉ participants session.
Proof.
  unfold findSessionBySocket. intros Hnone Hin%list_elem_of_In.
  apply (find_none _ _ Hnone) in Hin. by apply bool_decide_eq_false in Hin.
Qed.

Lemma queuedSockets_removeFromQueues st st' h x :
  waitingQueues st' = removeFromQueues h (waitingQueues st) →
  x ∈ queuedSockets st' ↔ x ≠ h ∧ x ∈ queuedSockets st.
Proof.
  intros Hq. unfold queuedSockets. rewrite Hq. simpl.
  rewrite <- filter_app, !list_elem_of_fmap. split.
  - intros (a & -> & [Hne Hin]%list_elem_of_filter). eauto.
  - intros (Hne & a & -> & Hin). exists a. split; [done|].
    by apply list_elem_of_filter.
Qed.

(** X5. The disconnect of a connected socket removes it from the connected
    sockets, from both queues and from every email's set, whatever state the
    server is in, and leaves the other sockets connected and waiting as they
    were. If the socket was in at most one session, no stored session has it
    as a participant afterwards. *)
Theorem disconnect_leaves_nothing_behind
    (now : Z) (st : State) (h : string) (data : SocketData) :
  sockets st !! h = Some data →
  ∃ st' out,
    step now st (Disconnect h) = Some (st', out)
    ∧ sockets st' !! h = None
    ∧ (h ∉ queuedSockets st')
    ∧ (∀ e, h ∉ handlesFor st' e)
    ∧ (∀ x, x ≠ h →
         sockets st' !! x = sockets st !! x
         ∧ (x ∈ queuedSockets st' ↔ x ∈ queuedSockets st))
    ∧ ((∀ k1 k2, inSession st h k1 → inSession st h k2 → k1 = k2) →
       (∀ k, ¬ inSession st' h k)).
Proof.
  intros Hconn.
  destruct (disconnect_unregisters now st h data Hconn)
    as (st' & out & Hstep & Hreg).
  exists st', out. split; [done|].
  unfold step in Hstep. rewrite Hconn in Hstep. injection Hstep as Hstep.
  pose proof (onDisconnect_queues (set_sockets (delete h (sockets st)) st) h)
    as Hq.
  pose proof (proj2 (onDisconnect_frame
                       (set_sockets (delete h (sockets st)) st) h)) as Hs.
  rewrite Hstep in Hq, Hs. simpl in Hq, Hs.
  split; [by rewrite Hs, lookup_delete_eq|].
  split.
  { rewrite (queuedSockets_removeFromQueues st st' h h Hq). tauto. }
  split; [done|]. split.
  { intros x Hne. split; [by rewrite Hs, lookup_delete_ne|].
    rewrite (queuedSockets_removeFromQueues st st' h x Hq). tauto. }
  intros Hone k (session & Hin & Hpart).
  unfold onDisconnect in Hstep. simpl in Hstep.
  destruct (findSessionBySocket (sessions st) h) as [[j found]|] eqn:Hfind.
  - apply findSessionBySocket_Some in Hfind as [Hfound Hh].
    simpl in Hstep.
    destruct (sessions_get (sessions st) j) as [stored|] eqn:Hget.
    2:{ apply sessions_get_None in Hget. apply Hget.
        by apply (list_elem_of_fmap_2 fst _ (j, found)). }
    rewrite (endSession_found _ j stored h) in Hstep by done.
    injection Hstep as <- _. simpl in Hin.
    apply elem_of_sessions_delete in Hin as [Hne Hin].
    apply Hne, Hone; [by exists session|by exists found].
  - injection Hstep as <- _. simpl in Hin.
    by apply (findSessionBySocket_None _ _ _ _ Hfind) in Hin.
Qed.

Lemma disconnect_leaves_nothing_behind_witness :
  ∃ st out,
    step 30 chatting (Disconnect "s2") = Some (st, out)
    ∧ sockets st !! "s2" = None
    ∧ ("s2" ∉ queuedSockets st)
    ∧ (∀ k, ¬ inSession st "s2" k).
Proof.
  destruct (disconnect_leaves_nothing_behind 30 chatting "s2"
              (attached "Bo" "bo@wisc.edu") eq_refl)
    as (st & out & Hstep & Hsock & Hqueue & _ & _ & Hsession).
  exists st, out. split; [exact Hstep|]. split; [exact Hsock|].
  split; [exact Hqueue|]. apply Hsession.
  intros k1 k2 (s1 & Hin1 & _) (s2 & Hin2 & _).
  apply list_elem_of_singleton in Hin1. apply list_elem_of_singleton in Hin2.
  congruence.
Defined.

(** ** Relay never reaches anyone but the peer *)

Lemma relayTarget_Some st k sender target :
  relayTarget st k sender = Some target →
  ∃ session,
    sessions_get (sessions st) k = Some session
    ∧ sender ∈ participants session
    ∧ target ∈ participants session
    ∧ target ≠ sender
    ∧ target ≠ "".
Proof.
  unfold relayTarget.
  destruct (sessions_get (sessions st) k) as [session|]; simpl; [|done].
  case_bool_decide as Hsender; [|done].
  destruct (List.find _ (participants session)) as [t|] eqn:Hfind; [|done].
  simpl. destruct (String.eqb_spec t ""); simpl; [done|].
  intros [= ->]. apply find_some in Hfind as [Hin Hne].
  apply bool_decide_eq_true in Hne. apply list_elem_of_In in Hin.
  by exists session.
Qed.

(** X6. A chat message or a signaling message (offer, answer, ICE candidate)
    never changes the server state and emits at most one event. When it emits
    one, the carried id names a stored session, the sender is a participant
    of it, and the event goes to another participant of that same session
    (never back to the sender, never to a socket outside the session) and
    carries that session id. *)
Theorem relay_reaches_only_the_peer
    (now : Z) (st : State) (sender : string) (msg : ClientMsg)
    (carried : option nat) :
  relaySessionId msg = Some carried →
  ∃ out,
    step now st (Message sender msg) = Some (st, out)
    ∧ (out = []
       ∨ ∃ k session target event,
           carried = Some k
           ∧ sessions_get (sessions st) k = Some session
           ∧ sender ∈ participants session
           ∧ target ∈ participants session
           ∧ target ≠ sender
           ∧ out = [(ToSocket target, event)]
           ∧ ((∃ body from, event = ChatText k body from now)
              ∨ ∃ kind blob, event = Webrtc kind k blob)).
Proof.
  intros Hmsg. unfold step.
  destruct (sockets st !! sender) as [data|]; [|eauto].
  assert (Hrelay : ∀ k event,
            carried = Some k →
            ((∃ body from, event = ChatText k body from now)
             ∨ ∃ kind blob, event = Webrtc kind k blob) →
            relayToSessionPeer st k sender event = []
            ∨ ∃ k' session target event',
                carried = Some k'
                ∧ sessions_get (sessions st) k' = Some session
                ∧ sender ∈ participants session
                ∧ target ∈ participants session
                ∧ target ≠ sender
                ∧ relayToSessionPeer st k sender event = [(ToSocket target, event')]
                ∧ ((∃ body from, event' = ChatText k' body from now)
                   ∨ ∃ kind blob, event' = Webrtc kind k' blob)).
  { intros k event -> Hevent. unfold relayToSessionPeer.
    destruct (relayTarget st k sender) as [target|] eqn:Htarget; [|by left].
    apply relayTarget_Some in Htarget as (session & ? & ? & ? & ? & _).
    right. by exists k, session, target, event. }
  destruct msg; simpl in Hmsg; simplify_eq; simpl;
    eexists; (split; [reflexivity|]);
    unfold onChatTextMessage, onWebrtc;
    (destruct carried as [k|]; [|by left]);
    repeat case_match; try (by left);
    apply Hrelay; eauto.
Qed.

Lemma relay_reaches_only_the_peer_witness :
  ∃ out,
    step 40 chatting (Message "s1" (WebrtcAnswer (Some 0%nat) (Some "sdp")))
    = Some (chatting, out)
    ∧ (out = []
       ∨ ∃ k session target event,
           Some 0%nat = Some k
           ∧ sessions_get (sessions chatting) k = Some session
           ∧ "s1" ∈ participants session
           ∧ target ∈ participants session
           ∧ target ≠ "s1"
           ∧ out = [(ToSocket target, event)]
           ∧ ((∃ body from, event = ChatText k body from 40)
              ∨ ∃ kind blob, event = Webrtc kind k blob)).
Proof.
  apply (relay_reaches_only_the_peer 40 chatting "s1"
           (WebrtcAnswer (Some 0%nat) (Some "sdp")) (Some 0%nat)).
  reflexivity.
Defined.

(** X7. Between the two participants of a session, an offer or an answer
    with a description and an ICE candidate with any candidate, the empty one
    included, are forwarded unchanged to the other participant and to nobody
    else, with the state unchanged; an offer or answer without description
    and an ICE message without candidate are dropped. *)
Theorem signaling_is_forwarded_verbatim
    (now : Z) (st : State) (sender : string) (data : SocketData)
    (k : nat) (session : Session) (a b : string) :
  sockets st !! sender = Some data →
  sessions_get (sessions st) k = Some session →
  participants session = [a; b] →
  a ≠ b → a ≠ "" → b ≠ "" →
  sender = a ∨ sender = b →
  let other := if decide (sender = a) then b else a in
  (∀ description, description ≠ "" →
     step now st (Message sender (WebrtcOffer (Some k) (Some description)))
     = Some (st, [(ToSocket other, Webrtc Offer k description)])
     ∧ step now st (Message sender (WebrtcAnswer (Some k) (Some description)))
       = Some (st, [(ToSocket other, Webrtc Answer k description)]))
  ∧ (∀ candidate,
       step now st (Message sender (WebrtcIce (Some k) (Some candidate)))
       = Some (st, [(ToSocket other, Webrtc IceCandidate k candidate)]))
  ∧ (∀ description, truthy description = false →
       step now st (Message sender (WebrtcOffer (Some k) description))
       = Some (st, [])
       ∧ step now st (Message sender (WebrtcAnswer (Some k) description))
         = Some (st, []))
  ∧ step now st (Message sender (WebrtcIce (Some k) None)) = Some (st, []).
Proof.
  intros Hconn Hget Hp Hab Ha Hb Hs other.
  pose proof (relayTarget_pair st k session a b sender Hget Hp Hab Ha Hb Hs)
    as Htarget.
  unfold step. rewrite Hconn. unfold onMessage, onWebrtc, relayToSessionPeer.
  rewrite Htarget. fold other. split; [|split; [|split]].
  - intros description Hd. by rewrite (truthy_Some description Hd).
  - intros candidate. by rewrite bool_decide_eq_true_2.
  - intros description ->. done.
  - rewrite bool_decide_eq_false_2; [done|]. by intros [? ?].
Qed.

Lemma signaling_is_forwarded_verbatim_witness :
  step 41 chatting (Message "s1" (WebrtcIce (Some 0%nat) (Some "")))
  = Some (chatting, [(ToSocket "s2", Webrtc IceCandidate 0 "")]).
Proof.
  apply (proj1 (proj2 (signaling_is_forwarded_verbatim 41 chatting "s1"
                         (attached "Ann" "ann@wisc.edu") 0
                         (mkSession 0 ModeText ["s1"; "s2"] 8) "s1" "s2"
                         eq_refl eq_refl eq_refl
                         ltac:(discriminate) ltac:(discriminate)
                         ltac:(discriminate) (or_introl eq_refl)))).
Defined.

(** ** Leaving with the id of someone else's session *)

(** X8. [chat:leave] does not check that the sender takes part in the session
    it names: sent by a connected socket with the id of a stored session of
    two other connected sockets, it removes that session and tells both
    participants that their partner left, while every other session, the
    sender's own included, stays stored. *)
Theorem leave_ends_a_session_of_others
    (now : Z) (st : State) (x : string) (dataX : SocketData)
    (k : nat) (session : Session) (a b : string) (dataA dataB : SocketData) :
  sockets st !! x = Some dataX →
  sessions_get (sessions st) k = Some session →
  participants session = [a; b] →
  x ≠ a → x ≠ b →
  sockets st !! a = Some dataA →
  sockets st !! b = Some dataB →
  ∃ st',
    step now st (Message x (ChatLeave (Some k)))
    = Some (st', [(ToSocket a, SystemPartnerLeft k);
                  (ToSocket b, SystemPartnerLeft k)])
    ∧ sessions_get (sessions st') k = None
    ∧ (∀ k', k' ≠ k →
         sessions_get (sessions st') k' = sessions_get (sessions st) k')
    ∧ (x ∉ queuedSockets st').
Proof.
  intros Hx Hget Hp Hxa Hxb Ha Hb.
  unfold step. rewrite Hx. unfold onMessage, onChatLeave.
  rewrite (proj2 (sessions_has_true _ _)) by (rewrite Hget; eauto).
  rewrite (endSession_found st k session x Hget). rewrite Hp. simpl.
  rewrite Ha, Hb. rewrite !decide_False by done. simpl.
  eexists. split; [done|]. simpl.
  split; [by rewrite sessions_get_delete, decide_True|]. split.
  - intros k' Hne. by rewrite sessions_get_delete, decide_False.
  - unfold queuedSockets. simpl. rewrite <- filter_app.
    intros (entry & -> & [Hne _]%list_elem_of_filter)%list_elem_of_fmap. done.
Qed.

Lemma leave_ends_a_session_of_others_witness :
  ∃ st,
    step 50 chattingWithGuest (Message "s3" (ChatLeave (Some 0%nat)))
    = Some (st, [(ToSocket "s1", SystemPartnerLeft 0);
                 (ToSocket "s2", SystemPartnerLeft 0)])
    ∧ sessions_get (sessions st) 0 = None.
Proof.
  destruct (leave_ends_a_session_of_others 50 chattingWithGuest "s3"
              (attached "Cy" "cy@wisc.edu") 0
              (mkSession 0 ModeText ["s1"; "s2"] 8) "s1" "s2"
              (attached "Ann" "ann@wisc.edu") (attached "Bo" "bo@wisc.edu"))
    as (st & Hstep & Hgone & _).
  - reflexivity.
  - reflexivity.
  - reflexivity.
  - discriminate.
  - discriminate.
  - reflexivity.
  - reflexivity.
  - exists st. split; [exact Hstep|exact Hgone].
Defined.

(** ** Reactions are counted, not deduplicated *)

Lemma bumpReaction_counters type r :
  likes (bumpReaction type r)
  = (likes r + if decide (type = "like") then 1 else 0)%N
  ∧ dislikes (bumpReaction type r)
    = (dislikes r + if decide (type = "dislike") then 1 else 0)%N
  ∧ reports (bumpReaction type r)
    = (reports r + if decide (type = "report") then 1 else 0)%N.
Proof.
  unfold bumpReaction. destruct r as [l d p b]; simpl.
  repeat case_decide; subst; try discriminate; simpl;
    repeat match goal with
           | |- context [if ?c then _ else _] => destruct c
           end; simpl; repeat split; lia.
Qed.

Lemma countCalls_cons email type call calls :
  countCalls email type (call :: calls)
  = ((if decide (call.1 = email ∧ call.2 = type) then 1 else 0)
     + countCalls email type calls)%N.
Proof.
  unfold countCalls. rewrite filter_cons. case_decide; simpl; lia.
Qed.

Lemma applyReactions_counters calls email : ∀ ledger,
  email ≠ "" →
  likes (recordOf (applyReactions ledger calls) email)
  = (likes (recordOf ledger email) + countCalls email "like" calls)%N
  ∧ dislikes (recordOf (applyReactions ledger calls) email)
    = (dislikes (recordOf ledger email) + countCalls email "dislike" calls)%N
  ∧ reports (recordOf (applyReactions ledger calls) email)
    = (reports (recordOf ledger email) + countCalls email "report" calls)%N.
Proof.
  induction calls as [|[e t] calls IH]; intros ledger Hemail.
  - unfold countCalls. simpl. repeat split; lia.
  - change (applyReactions ledger ((e, t) :: calls))
      with (applyReactions (applyReaction ledger e t).1 calls).
    destruct (IH (applyReaction ledger e t).1 Hemail) as (Hl & Hd & Hr).
    rewrite Hl, Hd, Hr, !countCalls_cons, recordOf_applyReaction. simpl.
    destruct (decide (e ≠ "" ∧ email = e)) as [[_ ->]|Hother].
    + destruct (bumpReaction_counters t (recordOf ledger e)) as (-> & -> & ->).
      repeat case_decide; try tauto; try congruence; repeat split; lia.
    + rewrite !decide_False; [repeat split; lia| | |];
        intros [<- _]; tauto.
Qed.

(** X9. The ledger counts every reaction it is given, with no deduplication:
    after any sequence of [applyReaction] calls on the empty ledger, the
    record of a non-empty email has as likes, dislikes and reports the number
    of calls of each type made for that email (calls with any other type
    count for nothing), and it is banned exactly when it has at least 3
    reports or at least 10 dislikes. *)
Theorem reactions_are_counted (calls : list (string * string)) (email : string) :
  email ≠ "" →
  recordOf (applyReactions ∅ calls) email
  = {| likes := countCalls email "like" calls;
       dislikes := countCalls email "dislike" calls;
       reports := countCalls email "report" calls;
       banned := (REPORT_THRESHOLD <=? countCalls email "report" calls)%N
                 || (DISLIKE_THRESHOLD <=? countCalls email "dislike" calls)%N |}.
Proof.
  intros Hemail.
  destruct (applyReactions_counters calls email ∅ Hemail) as (Hl & Hd & Hr).
  pose proof (recordOf_ok (applyReactions ∅ calls) email
                (applyReactions_ok calls ∅ ledgerOk_empty)) as Hban.
  unfold banInvariant in Hban.
  assert (Hzero : recordOf ∅ email = zeroReputation).
  { by rewrite recordOf_lookup, decide_False, lookup_empty. }
  rewrite Hzero in Hl, Hd, Hr. simpl in Hl, Hd, Hr.
  destruct (recordOf (applyReactions ∅ calls) email) as [l d r b].
  simpl in *. subst. f_equal.
Qed.

Lemma reactions_are_counted_witness :
  recordOf
    (applyReactions ∅
       [("bo@wisc.edu", "report"); ("ann@wisc.edu", "report");
        ("bo@wisc.edu", "report"); ("bo@wisc.edu", "wave");
        ("bo@wisc.edu", "report")])
    "bo@wisc.edu"
  = mkReputation 0 0 3 true.
Proof.
  apply (reactions_are_counted
           [("bo@wisc.edu", "report"); ("ann@wisc.edu", "report");
            ("bo@wisc.edu", "report"); ("bo@wisc.edu", "wave");
            ("bo@wisc.edu", "report")] "bo@wisc.edu").
  discriminate.
Defined.

(** ** The identity registry stays well formed *)

Lemma registryOk_ext st st' :
  emailToSockets st' = emailToSockets st →
  (∀ h, is_Some (sockets st !! h) → is_Some (sockets st' !! h)) →
  registryOk st → registryOk st'.
Proof.
  intros He Hs Hok e set. rewrite He. intros Hset.
  destruct (Hok e set Hset) as (? & ? & ? & ? & Hconn).
  repeat split; auto.
Qed.

Lemma onProfileUpdate_registry st h data profile :
  emailToSockets (onProfileUpdate st h data profile).1
  = registerSocketForEmail h (toLowerCase (orEmpty (payload_email profile)))
      (emailToSockets st).
Proof. unfold onProfileUpdate. by destruct (getReputation _ _). Qed.

Lemma registryOk_register st st' h email data :
  emailToSockets st' = registerSocketForEmail h email (emailToSockets st) →
  sockets st' = <[h := data]> (sockets st) →
  registryOk st → registryOk st'.
Proof.
  intros He Hs Hok e set. rewrite He, Hs. unfold registerSocketForEmail.
  assert (Hgrow : ∀ x, is_Some (sockets st !! x) →
                       is_Some (<[h := data]> (sockets st) !! x)).
  { intros x Hx. rewrite lookup_insert_is_Some'. tauto. }
  destruct (decide (email = "")) as [->|Hemail].
  { intros Hset. destruct (Hok e set Hset) as (? & ? & ? & ? & Hconn).
    repeat split; auto. }
  destruct (decide (toLowerCase email = e)) as [<-|Hne].
  - rewrite lookup_insert_eq. intros [= <-].
    assert (Hold : default [] (emailToSockets st !! toLowerCase email) = []
                   ∨ emailToSockets st !! toLowerCase email
                     = Some (default [] (emailToSockets st !! toLowerCase email))).
    { destruct (emailToSockets st !! toLowerCase email); simpl; auto. }
    assert (Hnodup : NoDup (default [] (emailToSockets st !! toLowerCase email))
                     ∧ ∀ x, x ∈ default [] (emailToSockets st !! toLowerCase email)
                            → is_Some (sockets st !! x)).
    { destruct Hold as [-> | Hsome].
      - split; [apply NoDup_nil_2|by intros x ?%elem_of_nil].
      - destruct (Hok _ _ Hsome) as (_ & ? & _ & _ & ?). done. }
    destruct Hnodup as [Hnodup Hconn].
    split; [|split; [|split; [|split]]].
    + case_bool_decide as Hin; [by intros Heq; rewrite Heq in Hin; apply elem_of_nil in Hin|].
      by destruct (default [] (emailToSockets st !! toLowerCase email)).
    + case_bool_decide as Hin; [done|].
      apply NoDup_app. split; [done|]. split; [|apply NoDup_singleton].
      intros x Hx ->%list_elem_of_singleton. done.
    + by rewrite toLowerCase_empty.
    + apply toLowerCase_idemp.
    + intros x Hx. case_bool_decide as Hin; [auto|].
      apply elem_of_app in Hx as [Hx| ->%list_elem_of_singleton]; [auto|].
      rewrite lookup_insert_eq. eauto.
  - rewrite lookup_insert_ne by done. intros Hset.
    destruct (Hok e set Hset) as (? & ? & ? & ? & Hconn).
    repeat split; auto.
Qed.

Lemma registryOk_unregister st st' h :
  emailToSockets st' = unregisterSocket h (emailToSockets st) →
  sockets st' = delete h (sockets st) →
  registryOk st → registryOk st'.
Proof.
  intros He Hs Hok e set. rewrite He, Hs. unfold unregisterSocket.
  rewrite lookup_omap.
  destruct (emailToSockets st !! e) as [old|] eqn:Hold; simpl; [|done].
  destruct (Hok e old Hold) as (_ & Hnodup & ? & ? & Hconn).
  destruct (filter (λ s, s ≠ h) old) as [|x rest] eqn:Hfilter; [done|].
  intros [= <-]. rewrite <- Hfilter.
  split; [by rewrite Hfilter|]. split; [by apply NoDup_filter|].
  split; [done|]. split; [done|].
  intros y [Hne Hy]%list_elem_of_filter. rewrite lookup_delete_ne by done. auto.
Qed.

Lemma step_registryOk now st i st' out :
  step now st i = Some (st', out) → registryOk st → registryOk st'.
Proof.
  intros Hstep Hok.
  destruct i as [h|h|h msg|email|]; simpl in Hstep.
  - destruct (sockets st !! h) eqn:Hconn; simplify_eq; [done|].
    apply (registryOk_ext st); [done| |done].
    intros x Hx. simpl. rewrite lookup_insert_is_Some'. tauto.
  - destruct (sockets st !! h) eqn:Hconn; simplify_eq; [|done].
    destruct (onDisconnect_frame (set_sockets (delete h (sockets st)) st) h)
      as [He Hs].
    rewrite Hstep in He, Hs. simpl in He, Hs.
    by apply (registryOk_unregister st _ h).
  - destruct (sockets st !! h) as [data|] eqn:Hconn; simplify_eq; [|done].
    destruct msg; simpl in Hstep; odd_payloads; simplify_eq; try done.
    + pose proof (onProfileUpdate_registry st h data profile) as He.
      destruct (onProfileUpdate_sockets st h data profile) as [p Hs].
      rewrite Hstep in He, Hs. simpl in He, Hs.
      by eapply registryOk_register.
    + apply onMatchRequest_frame in Hstep as [He [Hs | Hs]].
      * apply (registryOk_ext st); [done| |done]. by rewrite Hs.
      * apply (registryOk_ext st); [done| |done].
        intros x Hx. rewrite Hs, lookup_insert_is_Some'. tauto.
    + destruct (onChatLeave_frame st h sessionId) as [He Hs].
      rewrite Hstep in He, Hs. simpl in He, Hs.
      apply (registryOk_ext st); [done| |done]. by rewrite Hs.
    + destruct (onProfileReaction_frame st target type) as (_ & _ & _ & Hs & He).
      rewrite Hstep in He, Hs. simpl in He, Hs.
      apply (registryOk_ext st); [done| |done]. by rewrite Hs.
    + pose proof (onProfileUpdate_registry st h data
                    (mkProfilePayload None None None)) as He.
      destruct (onProfileUpdate_sockets st h data
                  (mkProfilePayload None None None)) as [p Hs].
      rewrite Hstep in He, Hs. simpl in He, Hs.
      by eapply registryOk_register.
  - destruct (getReputation _ _); simplify_eq. by apply (registryOk_ext st).
  - by simplify_eq.
Qed.

Lemma registryOk_initial : registryOk initialState.
Proof.
  intros e set Hset. unfold initialState in Hset. simpl in Hset.
  by rewrite lookup_empty in Hset.
Qed.

(** X10. In every state the server reaches, every set of the identity
    registry is non-empty and free of duplicates, contains connected sockets
    only, and is stored under a non-empty lower-case email: a disconnected
    socket is never left registered, and no email keeps an empty set. *)
Theorem registry_holds_connected_sockets_only trace st out :
  run initialState trace = Some (st, out) →
  ∀ e set,
    emailToSockets st !! e = Some set →
    set ≠ []
    ∧ NoDup set
    ∧ e ≠ ""
    ∧ toLowerCase e = e
    ∧ ∀ h, h ∈ set → is_Some (sockets st !! h).
Proof.
  intros Hrun e set Hset.
  apply (run_preserves_all registryOk step_registryOk) in Hrun;
    [|apply registryOk_initial].
  destruct (Hrun e set Hset) as (Hnonempty & Hnodup & He & Hlower & Hlive).
  repeat split; assumption.
Qed.

(** X11. In every state the server reaches, a reaction from a connected
    socket with a target and a type is first broadcast to all connections as
    the target's updated record; if that record is banned, the broadcast is
    followed by exactly one ban notice for each socket registered under the
    lower-cased target email, all of them connected, and by nothing else; if
    it is not banned, the broadcast is the only event. *)
Theorem ban_notice_reaches_each_registered_socket_once
    trace st out now sender data target type sessionId :
  run initialState trace = Some (st, out) →
  sockets st !! sender = Some data →
  truthy target && truthy type = true →
  let email := toLowerCase (orEmpty target) in
  let rep := (applyReaction (reputations st) email (orEmpty type)).2 in
  ∃ st' notices,
    step now st (Message sender (ProfileReactionMsg target type sessionId))
    = Some (st', (ToAll, ProfileReputation (Some email) rep) :: notices)
    ∧ notices
      = (if banned rep
         then (λ h, (ToSocket h, SystemBanned rep)) <$> handlesFor st email
         else [])
    ∧ NoDup (handlesFor st email)
    ∧ ∀ h, h ∈ handlesFor st email → is_Some (sockets st !! h).
Proof.
  intros Hrun Hconn Htruthy email rep.
  pose proof (run_preserves_all registryOk step_registryOk _ _ _ _ Hrun
                registryOk_initial) as Hok.
  unfold step. rewrite Hconn. unfold onMessage, onProfileReaction.
  rewrite Htruthy. fold email. unfold rep.
  destruct (applyReaction (reputations st) email (orEmpty type)) as [reps r].
  simpl. eexists _, _. split; [done|]. split; [done|].
  unfold handlesFor.
  destruct (emailToSockets st !! email) as [set|] eqn:Hset; simpl.
  - destruct (Hok email set Hset) as (_ & ? & _ & _ & ?). done.
  - split; [apply NoDup_nil_2|by intros h ?%elem_of_nil].
Qed.

(** ** The reachable-state theorems at concrete runs *)

Lemma waiting_queues_hold_at_most_one_witness :
  (length (text (waitingQueues afterBan.1)) ≤ 1)%nat
  ∧ NoDup (queuedSockets afterBan.1).
Proof.
  destruct (waiting_queues_hold_at_most_one bannedWhileWaiting
              afterBan.1 afterBan.2) as (Ht & _ & Hnodup & _).
  - vm_compute. reflexivity.
  - split; [exact Ht|exact Hnodup].
Defined.

Lemma handler_throws_exactly_on_odd_payloads_witness :
  step 3 afterSignIn.1 (Message "s1" (MatchRequest (Some "constructor")))
  = None
  ∧ step 3 afterSignIn.1 (Message "s1" (NoPayload EvChatLeave JsUndefined))
    = None.
Proof.
  pose proof (handler_throws_exactly_on_odd_payloads signedIn
                afterSignIn.1 afterSignIn.2 3
                (Message "s1" (MatchRequest (Some "constructor")))
                ltac:(vm_compute; reflexivity)) as Hmode.
  pose proof (handler_throws_exactly_on_odd_payloads signedIn
                afterSignIn.1 afterSignIn.2 3
                (Message "s1" (NoPayload EvChatLeave JsUndefined))
                ltac:(vm_compute; reflexivity)) as Hleave.
  split.
  - apply (proj2 Hmode).
    exists "s1", (MatchRequest (Some "constructor")).
    split; [reflexivity|]. split; [by eexists|].
    split; [apply list_elem_of_here|].
    exists (attached "Ann" "ann@wisc.edu"),
      (mkProfile (Some "Ann") "ann@wisc.edu" (Some [])).
    split; [reflexivity|]. split; reflexivity.
  - apply (proj2 Hleave).
    exists "s1", (NoPayload EvChatLeave JsUndefined).
    split; [reflexivity|]. split; [by eexists|]. left. discriminate.
Defined.

Lemma sessions_have_two_distinct_participants_witness :
  NoDup (sessions afterNewMatch.1).*1.
Proof.
  apply (proj1 (sessions_have_two_distinct_participants newMatchTrace
                  afterNewMatch.1 afterNewMatch.2
                  ltac:(vm_compute; reflexivity))).
Defined.

Lemma registry_holds_connected_sockets_only_witness :
  NoDup ["s1"] ∧ is_Some (sockets afterBan.1 !! "s1").
Proof.
  destruct (registry_holds_connected_sockets_only bannedWhileWaiting
              afterBan.1 afterBan.2 ltac:(vm_compute; reflexivity)
              "ann@wisc.edu" ["s1"] ltac:(vm_compute; reflexivity))
    as (_ & Hnodup & _ & _ & Hconn).
  split; [exact Hnodup|]. apply Hconn. apply list_elem_of_here.
Defined.

Lemma ban_notice_reaches_each_registered_socket_once_witness :
  ∃ st notices,
    step 12 afterBan.1
      (Message "s2" (ProfileReactionMsg (Some "Ann@wisc.edu") (Some "like") None))
    = Some (st,
            (ToAll, ProfileReputation (Some "ann@wisc.edu")
                      (mkReputation 1 0 3 true)) :: notices)
    ∧ notices = [(ToSocket "s1", SystemBanned (mkReputation 1 0 3 true))].
Proof.
  destruct (ban_notice_reaches_each_registered_socket_once bannedWhileWaiting
              afterBan.1 afterBan.2 12 "s2"
              {| data_profile := data_profile (attached "Bo" "bo@wisc.edu");
                 data_mode := None |}
              (Some "Ann@wisc.edu") (Some "like") None
              ltac:(vm_compute; reflexivity) ltac:(vm_compute; reflexivity)
              eq_refl)
    as (st & notices & Hstep & Hnotices & _).
  exists st, notices. split; [exact Hstep|exact Hnotices].
Defined.

(** ** A ban is permanent *)

(** X12. Once the record of an email is banned it stays banned whatever
    events follow, and every later [match:request] for text or video from a
    socket whose attached profile has that email is answered with the ban
    notice alone and changes nothing. *)
Theorem ban_is_permanent
    (st : State) (trace : list (Z * Input)) (st' : State) (out : list Emit)
    (e : string) :
  banned (recordOf (reputations st) e) = true →
  run st trace = Some (st', out) →
  banned (recordOf (reputations st') e) = true
  ∧ ∀ now h data profile mode,
      sockets st' !! h = Some data →
      data_profile data = Some profile →
      email profile = e →
      step now st' (Message h (MatchRequest (Some (modeName mode))))
      = Some (st', [(ToSocket h, SystemBanned (recordOf (reputations st') e))]).
Proof.
  intros Hbanned Hrun.
  destruct (run_ledger trace st st' out Hrun) as [_ Hmono].
  destruct (Hmono e) as (_ & _ & _ & Hkeep).
  specialize (Hkeep Hbanned). split; [done|].
  intros now h data profile mode Hconn Hprofile <-.
  unfold step. rewrite Hconn. unfold onMessage, onMatchRequest.
  rewrite truthy_mode. unfold negb, orEmpty.
  rewrite waitingQueuesSlot_mode, Hprofile.
  rewrite getReputation_banned by done. rewrite Hkeep.
  by rewrite set_reputations_same.
Qed.

Lemma ban_is_permanent_witness :
  step 20 afterBan.1 (Message "s1" (MatchRequest (Some "video")))
  = Some (afterBan.1, [(ToSocket "s1", SystemBanned (mkReputation 0 0 3 true))]).
Proof.
  destruct (ban_is_permanent afterBan.1 [] afterBan.1 [] "ann@wisc.edu"
              ltac:(vm_compute; reflexivity) eq_refl) as [_ Hreject].
  apply (Hreject 20%Z "s1"
           {| data_profile := data_profile (attached "Ann" "ann@wisc.edu");
              data_mode := Some "text" |}
           (mkProfile (Some "Ann") "ann@wisc.edu" (Some [])) ModeVideo);
    vm_compute; reflexivity.
Defined.

(** ** An admitted request waits or is paired *)

Lemma attemptPairLoop_one now mode entry st :
  attemptPairLoop now mode [entry] st = Some ([entry], st, []).
Proof. done. Qed.

(** X13. In every state the server reaches, a [match:request] for text or
    video from a connected socket with an unbanned profile is handled, takes
    the socket out of the other mode's queue, and either leaves it as the one
    socket waiting in its mode, with no new session, or pairs it with the
    other socket that waited there, in a new session whose first participant
    is the socket that waited and whose second is the requester. *)
Theorem admitted_request_waits_or_pairs
    (trace : list (Z * Input)) (st : State) (out0 : list Emit)
    (now : Z) (h : string) (mode : Mode) :
  run initialState trace = Some (st, out0) →
  eligible st h →
  ∃ st' out,
    step now st (Message h (MatchRequest (Some (modeName mode)))) = Some (st', out)
    ∧ (h ∉ socketId <$> queueOf (otherMode mode) (waitingQueues st'))
    ∧ ((queueOf mode (waitingQueues st') = [mkQueueEntry h]
        ∧ sessions st' = sessions st
        ∧ out = [(ToSocket h, MatchQueued mode 1)])
       ∨ (∃ x,
            x ≠ h
            ∧ queueOf mode (waitingQueues st) = [mkQueueEntry x]
            ∧ queueOf mode (waitingQueues st') = []
            ∧ sessions st'
              = sessions st
                ++ [(uuidCount st,
                     pairedSession (uuidCount st) mode (mkQueueEntry x)
                       (mkQueueEntry h) now)])).
Proof.
  intros [Hqueues Hsessions]%reachable_wellFormed
    (data & profile & Hconn & Hprofile & Hrep).
  pose proof (sessionsOk_fresh st Hsessions) as Hfresh.
  destruct Hqueues as (Hlen & _ & Hready).
  specialize (Hlen mode). specialize (Hready mode).
  unfold step. rewrite Hconn. unfold onMessage.
  rewrite (onMatchRequest_admitted now st h data profile mode Hprofile Hrep).
  unfold attemptPair.
  pose proof (queueOf_enqueued_other st h data profile mode) as Hother.
  assert (Hgone : ∀ q',
            h ∉ socketId <$> queueOf (otherMode mode)
                   (setQueue mode q'
                      (waitingQueues (enqueued st h data profile mode)))).
  { intros q'. rewrite queueOf_setQueue_other, Hother.
    intros (a & -> & [Hne _]%list_elem_of_filter)%list_elem_of_fmap. done. }
  rewrite queueOf_enqueued.
  destruct (queueOf mode (waitingQueues st)) as [|[x] [|? ?]] eqn:Hq;
    [| |simpl in Hlen; lia].
  - rewrite filter_nil. simpl. eexists _, _. split; [done|].
    split; [exact (Hgone _)|]. left. simpl. by rewrite queueOf_setQueue.
  - rewrite filter_cons, filter_nil. simpl.
    destruct (decide (x ≠ h)) as [Hne|Heq].
    + destruct (Hready (mkQueueEntry x)) as (dx & px & Hx & Hpx); [by left|].
      simpl in Hx.
      change ([mkQueueEntry x] ++ [mkQueueEntry h])
        with [mkQueueEntry x; mkQueueEntry h].
      rewrite (attemptPairLoop_two now mode (mkQueueEntry x) (mkQueueEntry h) _
                 dx {| data_profile := data_profile data;
                       data_mode := Some (modeName mode) |} px profile).
      * eexists _, _. split; [done|]. split; [exact (Hgone _)|].
        right. exists x. simpl. rewrite queueOf_setQueue.
        split; [done|]. split; [done|]. split; [done|].
        apply sessions_set_fresh. by apply Hfresh.
      * rewrite sockets_enqueued. by rewrite lookup_insert_ne.
      * rewrite sockets_enqueued. by rewrite lookup_insert_eq.
      * done.
      * done.
    + simpl. eexists _, _. split; [done|].
      split; [exact (Hgone _)|]. left. simpl. by rewrite queueOf_setQueue.
Qed.

Lemma admitted_request_waits_or_pairs_witness :
  ∃ st out,
    step 3 afterSignIn.1 (Message "s1" (MatchRequest (Some "text")))
    = Some (st, out)
    ∧ ("s1" ∉ socketId <$> queueOf ModeVideo (waitingQueues st)).
Proof.
  destruct (admitted_request_waits_or_pairs signedIn afterSignIn.1
              afterSignIn.2 3 "s1" ModeText ltac:(vm_compute; reflexivity))
    as (st & out & Hstep & Hother & _).
  - exists (attached "Ann" "ann@wisc.edu"),
      (mkProfile (Some "Ann") "ann@wisc.edu" (Some [])).
    split; [reflexivity|]. split; reflexivity.
  - exists st, out. split; [exact Hstep|exact Hother].
Defined.

(** ** Signing in twice *)

Lemma getReputation_idemp ledger email :
  getReputation (getReputation ledger email).1 email
  = ((getReputation ledger email).1, (getReputation ledger email).2).
Proof.
  unfold getReputation. destruct (decide (email = "")) as [->|Hne]; [done|].
  destruct (ledger !! email) eqn:Hl; simpl.
  - by rewrite Hl.
  - by rewrite lookup_insert_eq.
Qed.

Lemma registerSocketForEmail_idemp h email m :
  registerSocketForEmail h email (registerSocketForEmail h email m)
  = registerSocketForEmail h email m.
Proof.
  unfold registerSocketForEmail. destruct (decide (email = "")); [done|].
  rewrite lookup_insert_eq. simpl.
  rewrite insert_insert_eq.
  destruct (bool_decide (h ∈ default [] (m !! toLowerCase email))) eqn:Hin.
  - by rewrite Hin.
  - rewrite bool_decide_eq_true_2; [done|]. apply elem_of_app. right.
    by apply list_elem_of_singleton.
Qed.

(** X14. Signing in is idempotent and ignores the case of the email: a
    second [profile:update] of a socket with the same name and interests and
    an email that differs at most in case leaves the state exactly as the
    first one made it and is answered with the same events. *)
Theorem profile_update_is_idempotent
    (now now' : Z) (st : State) (h : string) (data : SocketData)
    (p p' : ProfilePayload) :
  sockets st !! h = Some data →
  payload_name p' = payload_name p →
  payload_interests p' = payload_interests p →
  toLowerCase (orEmpty (payload_email p'))
  = toLowerCase (orEmpty (payload_email p)) →
  ∃ st1 out,
    step now st (Message h (ProfileUpdate p)) = Some (st1, out)
    ∧ step now' st1 (Message h (ProfileUpdate p')) = Some (st1, out).
Proof.
  intros Hconn Hname Hinterests Hemail.
  unfold step. rewrite Hconn. unfold onMessage, onProfileUpdate.
  rewrite Hname, Hinterests, Hemail. simpl.
  pose proof (getReputation_idemp (reputations st)
                (toLowerCase (orEmpty (payload_email p)))) as Hagain.
  destruct (getReputation (reputations st)
              (toLowerCase (orEmpty (payload_email p)))) as [reps rep] eqn:Hg.
  simpl in Hagain. eexists _, _. split; [done|].
  simpl. rewrite lookup_insert_eq. simpl. rewrite Hagain.
  rewrite insert_insert_eq, registerSocketForEmail_idemp. done.
Qed.

Lemma profile_update_is_idempotent_witness :
  ∃ st out,
    step 1 connected1 (Message "s1" (ProfileUpdate (student "Ann" "Ann@Wisc.edu")))
    = Some (st, out)
    ∧ step 2 st (Message "s1" (ProfileUpdate (student "Ann" "ann@wisc.edu")))
      = Some (st, out).
Proof.
  apply (profile_update_is_idempotent 1 2 connected1 "s1"
           (mkSocketData None None) (student "Ann" "Ann@Wisc.edu")
           (student "Ann" "ann@wisc.edu"));
    reflexivity.
Defined.

(** ** Stale queue entries *)




(** * Properties of the client *)

(** ** The client's ledger and the server's *)

Lemma recordReaction_applyReaction ledger email type :
  email ≠ "" →
  email ∉ objectPrototypeKeys →
  FeedbackContext.recordReaction ledger email type
  = Some (applyReaction ledger email (FeedbackContext.typeName type)).1.
Proof.
  intros Hne Hplain.
  unfold FeedbackContext.recordReaction, FeedbackContext.getReputationFor,
    applyReaction, getReputation, storeReputation.
  rewrite (bool_decide_eq_false_2 _ Hplain).
  destruct (decide (email = "")) as [|_]; [done|].
  destruct (ledger !! email) as [r|]; destruct type; simpl;
    try rewrite insert_insert_eq; reflexivity.
Qed.

(** X15. A client that records reactions to partners' emails (not empty, in
    lower case, no name of a member of [Object.prototype]) and sends each of
    them over its connected socket keeps the same ledger as the server: from
    equal ledgers, the server handles all the events and both end with equal
    ledgers, so an email is banned for the client exactly when it is for the
    server. *)
Theorem client_ledger_agrees_with_server
    (h : string) (calls : list (string * FeedbackContext.ReactionType))
    (trace : list (Z * Input)) (st : State) :
  is_Some (sockets st !! h) →
  Forall (λ call, plainEmail call.1) calls →
  Forall2 (reactionSent h) calls trace →
  ∃ st' out,
    run st trace = Some (st', out)
    ∧ recordReactions (reputations st) calls = Some (reputations st').
Proof.
  intros Hconn Hplain Hsent. revert st Hconn Hplain.
  induction Hsent as [|[email type] event calls trace Hevent _ IH];
    intros st [data Hconn] Hplain.
  - by exists st, [].
  - destruct Hevent as (now & sessionId & ->).
    apply Forall_cons in Hplain as [(Hne & Hproto & Hlower) Hplain].
    simpl in Hne, Hproto, Hlower.
    pose proof (recordReaction_applyReaction (reputations st) email type
                  Hne Hproto) as Hagree.
    assert (Htype : truthy (Some (FeedbackContext.typeName type)) = true)
      by by destruct type.
    assert (Htarget : truthy (Some email) = true).
    { simpl. destruct email; [done|reflexivity]. }
    assert (Hstep : ∃ out1,
               step now st (Message h (ProfileReactionMsg (Some email)
                 (Some (FeedbackContext.typeName type)) sessionId))
               = Some (set_reputations
                         (applyReaction (reputations st) email
                            (FeedbackContext.typeName type)).1 st, out1)).
    { unfold step. rewrite Hconn. unfold onMessage, onProfileReaction.
      rewrite Htarget, Htype. unfold orEmpty. rewrite Hlower.
      destruct (applyReaction _ _ _) as [reps rep]. by eexists. }
    destruct Hstep as [out1 Hstep].
    destruct (IH (set_reputations
                    (applyReaction (reputations st) email
                       (FeedbackContext.typeName type)).1 st))
      as (st' & out2 & Hrun & Hrest); [by exists data|done|].
    exists st', (out1 ++ out2). split.
    + eapply run_cons; eassumption.
    + simpl. rewrite Hagree. simpl. exact Hrest.
Qed.

Lemma client_ledger_agrees_with_server_witness :
  ∃ st' out,
    run connected1
      [(5%Z, Message "s1" (ProfileReactionMsg (Some "bo@wisc.edu")
                             (Some "report") None))]
    = Some (st', out)
    ∧ recordReactions (reputations connected1)
        [("bo@wisc.edu", FeedbackContext.Report)]
      = Some (reputations st').
Proof.
  apply (client_ledger_agrees_with_server "s1"
           [("bo@wisc.edu", FeedbackContext.Report)]).
  - by eexists.
  - repeat constructor; vm_compute; try done.
    intros Hin. by repeat (apply elem_of_cons in Hin as [?|Hin]; [done|]; try by apply elem_of_nil in Hin).
  - repeat constructor. by exists 5%Z, None.
Defined.

(** ** The sign-in form: interests *)

Section Interests.
Import JsString LoginPage.

Lemma isSpace_lowerAscii c : isSpace (lowerAscii c) = isSpace c.
Proof. destruct c as [[] [] [] [] [] [] [] []]; reflexivity. Qed.

Lemma isSpace_upperAscii c : isSpace (upperAscii c) = isSpace c.
Proof. destruct c as [[] [] [] [] [] [] [] []]; reflexivity. Qed.

Lemma eqb_space_lowerAscii c : Ascii.eqb (lowerAscii c) " " = Ascii.eqb c " ".
Proof. destruct c as [[] [] [] [] [] [] [] []]; reflexivity. Qed.

Lemma eqb_space_upperAscii c : Ascii.eqb (upperAscii c) " " = Ascii.eqb c " ".
Proof. destruct c as [[] [] [] [] [] [] [] []]; reflexivity. Qed.

Lemma upperAscii_idemp c : upperAscii (upperAscii c) = upperAscii c.
Proof. destruct c as [[] [] [] [] [] [] [] []]; reflexivity. Qed.

Lemma upperAscii_lowerAscii c : upperAscii (lowerAscii c) = upperAscii c.
Proof. destruct c as [[] [] [] [] [] [] [] []]; reflexivity. Qed.

Lemma eqb_space_isSpace c : Ascii.eqb c " " = true → isSpace c = true.
Proof. by intros ->%Ascii.eqb_eq. Qed.

(** *** [split] and [join] *)

Lemma split_nonempty s : split s ≠ [].
Proof.
  destruct s as [|c s]; simpl; [done|].
  destruct (Ascii.eqb c " "); [done|]. by destruct (split s).
Qed.

Lemma concat_cons_String sep c x xs :
  String.concat sep (String c x :: xs) = String c (String.concat sep (x :: xs)).
Proof. by destruct xs. Qed.

Lemma join_capitalize_split s :
  String.concat " " (capitalize <$> split s) = titleCase true s.
Proof.
  cut (∀ w ws, split s = w :: ws →
         String.concat " " (capitalize w :: (capitalize <$> ws)) = titleCase true s
         ∧ String.concat " " (toLowerCase w :: (capitalize <$> ws))
           = titleCase false s).
  { intros Hboth. destruct (split s) as [|w ws] eqn:Hs.
    - by apply split_nonempty in Hs.
    - by apply (Hboth w ws). }
  induction s as [|c s IH]; intros w ws Hs.
  - simpl in Hs. by injection Hs as <- <-.
  - simpl in Hs. simpl. destruct (Ascii.eqb c " ") eqn:Hc.
    + injection Hs as <- <-.
      destruct (split s) as [|w' ws'] eqn:Hs'; [by apply split_nonempty in Hs'|].
      destruct (IH w' ws' eq_refl) as [IH1 _].
      rewrite fmap_cons. simpl capitalize. simpl toLowerCase.
      rewrite IH1. done.
    + destruct (split s) as [|w' ws'] eqn:Hs'; [by apply split_nonempty in Hs'|].
      injection Hs as <- <-.
      destruct (IH w' ws' eq_refl) as [_ IH2].
      simpl capitalize. simpl toLowerCase.
      rewrite <- IH2. by destruct (capitalize <$> ws').
Qed.

(** *** [trim] and [replace] *)

Lemma trimStart_startsClean s : startsClean (trimStart s).
Proof.
  induction s as [|c s IH]; simpl; [done|].
  destruct (isSpace c) eqn:Hc; [done|]. exact Hc.
Qed.

Lemma trimEnd_startsClean s : startsClean s → startsClean (trimEnd s).
Proof.
  destruct s as [|c s]; simpl; [done|]. intros Hc. rewrite Hc.
  by destruct (trimEnd s).
Qed.

Lemma trimEnd_endsClean s : endsClean (trimEnd s).
Proof.
  induction s as [|c s IH]; simpl; [done|].
  destruct (trimEnd s) as [|c' r] eqn:Hr.
  - destruct (isSpace c) eqn:Hc; simpl; done.
  - exact IH.
Qed.

Lemma endsClean_tail c s : endsClean (String c s) → endsClean s.
Proof. by destruct s. Qed.

Lemma endsClean_space c s :
  endsClean (String c s) → isSpace c = true → s ≠ "".
Proof. intros Hends Hc ->. simpl in Hends. congruence. Qed.

Lemma replaceSpaces_next s :
  endsClean s → s ≠ "" →
  replaceSpaces true s ≠ "" ∧ startsClean (replaceSpaces true s).
Proof.
  induction s as [|c s IH]; intros Hends Hne; [done|].
  simpl. destruct (isSpace c) eqn:Hc.
  - apply IH; [by apply endsClean_tail in Hends|by apply (endsClean_space c)].
  - done.
Qed.

Lemma replaceSpaces_tidy s : ∀ inRun,
  endsClean s → tidy (replaceSpaces inRun s).
Proof.
  induction s as [|c s IH]; intros inRun Hends; [done|].
  pose proof (endsClean_tail _ _ Hends) as Htail.
  simpl. destruct (isSpace c) eqn:Hc.
  - destruct inRun; [by apply IH|].
    split; [|by apply IH]. intros _.
    destruct (replaceSpaces_next s Htail (endsClean_space c s Hends Hc)).
    done.
  - split; [|by apply IH]. simpl. congruence.
Qed.

Lemma replaceSpaces_startsClean s :
  startsClean s → startsClean (replaceSpaces false s).
Proof.
  destruct s as [|c s]; simpl; [done|]. intros Hc. rewrite Hc. exact Hc.
Qed.

Lemma trimStart_clean s : startsClean s → trimStart s = s.
Proof. destruct s as [|c s]; simpl; [done|]. by intros ->. Qed.

Lemma trimEnd_tidy s : tidy s → trimEnd s = s.
Proof.
  induction s as [|c s IH]; [done|]. intros [Hc Hs]. simpl.
  rewrite (IH Hs). destruct s as [|c' s']; [|done].
  destruct (isSpace c); [|done]. by destruct (Hc eq_refl) as (_ & ? & _).
Qed.

Lemma replaceSpaces_tidy_id s : ∀ inRun,
  tidy s → (inRun = true → startsClean s) → replaceSpaces inRun s = s.
Proof.
  induction s as [|c s IH]; intros inRun Htidy Hstart; [done|].
  destruct Htidy as [Hc Hs]. simpl. destruct (isSpace c) eqn:Hsp.
  - destruct (Hc eq_refl) as (-> & _ & Hnext).
    destruct inRun.
    + specialize (Hstart eq_refl). simpl in Hstart. congruence.
    + f_equal. by apply IH.
  - f_equal. by apply IH.
Qed.

(** *** Title case *)

Lemma titleCase_empty atStart s : titleCase atStart s = "" ↔ s = "".
Proof.
  destruct s as [|c s]; simpl; [done|]. by destruct (Ascii.eqb c " ").
Qed.

Lemma titleCase_startsClean atStart s :
  startsClean s → startsClean (titleCase atStart s).
Proof.
  destruct s as [|c s]; simpl; [done|]. intros Hc.
  destruct (Ascii.eqb c " ") eqn:Hsp.
  - apply eqb_space_isSpace in Hsp. congruence.
  - simpl. destruct atStart; by rewrite ?isSpace_upperAscii, ?isSpace_lowerAscii.
Qed.

Lemma titleCase_tidy s : ∀ atStart, tidy s → tidy (titleCase atStart s).
Proof.
  induction s as [|c s IH]; intros atStart Htidy; [done|].
  destruct Htidy as [Hc Hs]. simpl. destruct (Ascii.eqb c " ") eqn:Hsp.
  - split; [|by apply IH]. intros _.
    destruct (Hc (eqb_space_isSpace c Hsp)) as (_ & Hne & Hnext).
    split; [done|]. split.
    + by rewrite titleCase_empty.
    + by apply titleCase_startsClean.
  - split; [|by apply IH]. intros Himage.
    assert (isSpace c = true) as Hc'.
    { destruct atStart;
        by rewrite ?isSpace_upperAscii, ?isSpace_lowerAscii in Himage. }
    destruct (Hc Hc') as (-> & _). done.
Qed.

Lemma titleCase_idemp s : ∀ atStart,
  titleCase atStart (titleCase atStart s) = titleCase atStart s.
Proof.
  induction s as [|c s IH]; intros atStart; [done|].
  simpl. destruct (Ascii.eqb c " ") eqn:Hsp.
  - simpl. by rewrite IH.
  - simpl. destruct atStart.
    + by rewrite eqb_space_upperAscii, Hsp, upperAscii_idemp, IH.
    + by rewrite eqb_space_lowerAscii, Hsp, lowerAscii_idemp, IH.
Qed.

Lemma titleCase_toLowerCase s : ∀ atStart,
  titleCase atStart (toLowerCase s) = titleCase atStart s.
Proof.
  induction s as [|c s IH]; intros atStart; [done|].
  simpl. rewrite eqb_space_lowerAscii. destruct (Ascii.eqb c " ").
  - by rewrite IH.
  - rewrite IH. by destruct atStart; rewrite ?upperAscii_lowerAscii, ?lowerAscii_idemp.
Qed.

Lemma trimStart_toLowerCase s :
  trimStart (toLowerCase s) = toLowerCase (trimStart s).
Proof.
  induction s as [|c s IH]; [done|].
  simpl. rewrite isSpace_lowerAscii. by destruct (isSpace c).
Qed.

Lemma trimEnd_toLowerCase s :
  trimEnd (toLowerCase s) = toLowerCase (trimEnd s).
Proof.
  induction s as [|c s IH]; [done|].
  simpl. rewrite IH, isSpace_lowerAscii.
  destruct (trimEnd s); simpl; [|done]. by destruct (isSpace c).
Qed.

Lemma replaceSpaces_toLowerCase s : ∀ inRun,
  titleCase true (replaceSpaces inRun (toLowerCase s))
  = titleCase true (replaceSpaces inRun s)
  ∧ titleCase false (replaceSpaces inRun (toLowerCase s))
    = titleCase false (replaceSpaces inRun s).
Proof.
  induction s as [|c s IH]; intros inRun; [done|].
  simpl. rewrite isSpace_lowerAscii. destruct (isSpace c) eqn:Hc.
  - destruct inRun; [apply IH|]. simpl. destruct (IH true) as [-> _]. done.
  - simpl. rewrite eqb_space_lowerAscii. destruct (Ascii.eqb c " ").
    + destruct (IH false) as [-> _]. done.
    + destruct (IH false) as [_ ->].
      by rewrite upperAscii_lowerAscii, lowerAscii_idemp.
Qed.

Lemma normalizeInterest_titleCase s :
  normalizeInterest s = titleCase true (replaceSpaces false (trim s)).
Proof. apply join_capitalize_split. Qed.

Lemma normalizeInterest_clean s :
  startsClean (normalizeInterest s) ∧ tidy (normalizeInterest s).
Proof.
  rewrite normalizeInterest_titleCase. unfold trim. split.
  - apply titleCase_startsClean, replaceSpaces_startsClean, trimEnd_startsClean,
      trimStart_startsClean.
  - apply titleCase_tidy, replaceSpaces_tidy, trimEnd_endsClean.
Qed.

Lemma normalizeInterest_fixed s :
  startsClean s → tidy s → titleCase true s = s → normalizeInterest s = s.
Proof.
  intros Hstart Htidy Htitle. rewrite normalizeInterest_titleCase. unfold trim.
  rewrite (trimStart_clean s Hstart), (trimEnd_tidy s Htidy).
  by rewrite replaceSpaces_tidy_id.
Qed.

Lemma normalizeInterest_idemp s :
  normalizeInterest (normalizeInterest s) = normalizeInterest s.
Proof.
  destruct (normalizeInterest_clean s) as [Hstart Htidy].
  apply normalizeInterest_fixed; [done|done|].
  rewrite normalizeInterest_titleCase. apply titleCase_idemp.
Qed.

Lemma normalizeInterest_toLowerCase s :
  normalizeInterest (toLowerCase s) = normalizeInterest s.
Proof.
  rewrite !normalizeInterest_titleCase. unfold trim.
  rewrite trimStart_toLowerCase, trimEnd_toLowerCase.
  apply replaceSpaces_toLowerCase.
Qed.

(** X16. [normalizeInterest] computes a normal form: its result is in title
    case, has no white space at either end and no white space inside other
    than single spaces; normalising again changes nothing, and the case in
    which the interest was typed does not matter. *)
Theorem normalizeInterest_is_a_normal_form (value : string) :
  normalizeInterest (normalizeInterest value) = normalizeInterest value
  ∧ normalizeInterest (toLowerCase value) = normalizeInterest value
  ∧ titleCase true (normalizeInterest value) = normalizeInterest value
  ∧ startsClean (normalizeInterest value)
  ∧ endsClean (normalizeInterest value)
  ∧ tidy (normalizeInterest value).
Proof.
  destruct (normalizeInterest_clean value) as [Hstart Htidy].
  split; [apply normalizeInterest_idemp|].
  split; [apply normalizeInterest_toLowerCase|].
  split.
  { rewrite normalizeInterest_titleCase. apply titleCase_idemp. }
  split; [done|]. split; [|done].
  rewrite <- (trimEnd_tidy _ Htidy). apply trimEnd_endsClean.
Qed.

(** *** Selecting interests *)

Lemma prefix_app entry s :
  String.prefix entry s = true ↔ ∃ post, s = entry +:+ post.
Proof.
  revert s. induction entry as [|c entry IH]; intros s.
  - split; [|by destruct s]. intros _. by exists s.
  - destruct s as [|c' s]; simpl.
    + split; [done|]. by intros [post ?].
    + destruct (ascii_dec c c') as [ -> |Hne].
      * rewrite IH. split; intros [post Hpost]; exists post.
        -- by rewrite Hpost.
        -- by injection Hpost.
      * split; [done|]. intros [post Hpost]. by injection Hpost.
Qed.

Lemma includes_substring s entry :
  includes s entry = true ↔ substringOf entry s.
Proof.
  unfold substringOf. induction s as [|c s IH].
  - change (includes "" entry) with (String.prefix entry "" || false).
    rewrite orb_false_r, prefix_app. split.
    + intros [post Hpost]. by exists "", post.
    + intros (pre & post & Hs). destruct pre; [by exists post|done].
  - change (includes (String c s) entry)
      with (String.prefix entry (String c s) || includes s entry).
    rewrite orb_true_iff, IH, prefix_app. split.
    + intros [[post Hpost]|(pre & post & Hs)].
      * by exists "", post.
      * exists (String c pre), post. simpl. by rewrite Hs.
    + intros (pre & post & Hs). destruct pre as [|c' pre].
      * left. by exists post.
      * right. exists pre, post. simpl in Hs. by injection Hs.
Qed.

Lemma handleAddInterest_cases bannedInterests f :
  let normalized := normalizeInterest (newInterest f) in
  (handleAddInterest bannedInterests f = setError "" f
   ∧ normalized = "")
  ∨ (handleAddInterest bannedInterests f
     = setError "That interest cannot be used on this platform. Please try another one."
         (setError "" f)
     ∧ normalized ≠ ""
     ∧ ∃ entry, entry ∈ bannedInterests
                ∧ substringOf entry (toLowerCase normalized))
  ∨ (handleAddInterest bannedInterests f
     = setNewInterest ""
         (setSelectedInterests
            (λ current, if bool_decide (normalized ∈ current) then current
                        else current ++ [normalized])
            (setError "" f))
     ∧ normalized ≠ ""
     ∧ ∀ entry, entry ∈ bannedInterests
                → ¬ substringOf entry (toLowerCase normalized)).
Proof.
  intros normalized. unfold handleAddInterest.
  change (newInterest (setError "" f)) with (newInterest f).
  fold normalized.
  destruct (String.eqb_spec normalized "") as [Hempty|Hne]; [by left|].
  right.
  destruct (existsb _ bannedInterests) eqn:Hviolates.
  - left. split; [done|]. split; [done|].
    apply existsb_exists in Hviolates as (entry & Hin & Hinc).
    exists entry. split; [by apply list_elem_of_In|].
    by apply includes_substring.
  - right. split; [done|]. split; [done|].
    intros entry Hin Hsub.
    assert (existsb (λ entry, includes (toLowerCase normalized) entry)
              bannedInterests = true) as Htrue; [|congruence].
    apply existsb_exists. exists entry.
    split; [by apply list_elem_of_In|]. by apply includes_substring.
Qed.

(** X17. [Add interest] never selects an interest that contains an entry of
    the banned list it was given: whatever it adds is the non-empty normal
    form of the typed text, whose lower-case form contains no banned entry;
    it removes nothing, and when it reports an error it leaves the selection
    and the typed text as they were. *)
Theorem banned_interest_is_never_added
    (bannedInterests : list string) (f : Form) :
  (∀ interest,
     interest ∈ selectedInterests (handleAddInterest bannedInterests f) →
     interest ∈ selectedInterests f
     ∨ (interest = normalizeInterest (newInterest f)
        ∧ interest ≠ ""
        ∧ ∀ entry, entry ∈ bannedInterests
                   → ¬ substringOf entry (toLowerCase interest)))
  ∧ (∀ interest,
       interest ∈ selectedInterests f →
       interest ∈ selectedInterests (handleAddInterest bannedInterests f))
  ∧ (error (handleAddInterest bannedInterests f) ≠ "" →
     selectedInterests (handleAddInterest bannedInterests f)
     = selectedInterests f
     ∧ newInterest (handleAddInterest bannedInterests f) = newInterest f
     ∧ ∃ entry, entry ∈ bannedInterests
                ∧ substringOf entry
                    (toLowerCase (normalizeInterest (newInterest f)))).
Proof.
  destruct (handleAddInterest_cases bannedInterests f)
    as [ [Heq Hempty] | [ (Heq & Hne & Hbanned) | (Heq & Hne & Hfree) ] ];
    rewrite Heq; simpl.
  - split; [by left|]. split; [done|]. done.
  - split; [by left|]. split; [done|]. done.
  - split; [|split; [|done]].
    + intros interest. case_bool_decide as Hin; [by left|].
      intros [Hold| ->%list_elem_of_singleton]%elem_of_app; [by left|].
      by right.
    + intros interest Hold. case_bool_decide; [done|].
      apply elem_of_app. by left.
Qed.

Lemma toggle_NoDup interest (current : list string) :
  NoDup current →
  NoDup (if bool_decide (interest ∈ current)
         then filter (λ item, item ≠ interest) current
         else current ++ [interest]).
Proof.
  intros Hnd. case_bool_decide as Hin.
  - by apply NoDup_filter.
  - apply NoDup_app. split; [done|]. split; [|apply NoDup_singleton].
    intros x Hx ->%list_elem_of_singleton. done.
Qed.

Lemma dispatch_NoDup f action :
  NoDup (selectedInterests f) →
  NoDup (selectedInterests (dispatch f action)).
Proof.
  intros Hnd. destruct action; simpl; try done.
  - by apply toggle_NoDup.
  - destruct (handleAddInterest_cases bannedInterests f)
      as [ [Heq _] | [ (Heq & _) | (Heq & _) ] ]; rewrite Heq; simpl;
      try done.
    case_bool_decide as Hin; [done|].
    apply NoDup_app. split; [done|]. split; [|apply NoDup_singleton].
    intros x Hx ->%list_elem_of_singleton. done.
  - unfold handleSubmit.
    destruct (String.eqb _ ""); [done|]. by destruct (negb _).
Qed.

Lemma formAfter_NoDup actions : NoDup (selectedInterests (formAfter actions)).
Proof.
  unfold formAfter. induction actions as [|action actions IH] using rev_ind.
  - apply NoDup_nil_2.
  - rewrite foldl_app. simpl. by apply dispatch_NoDup.
Qed.

Lemma dispatch_selected f action interest :
  interest ∈ selectedInterests (dispatch f action) →
  interest ∈ selectedInterests f
  ∨ action = ClickInterest interest
  ∨ (interest ≠ "" ∧ normalizeInterest interest = interest).
Proof.
  destruct action; simpl; try by left.
  - case_bool_decide as Hin.
    + intros [_ Hold]%list_elem_of_filter. by left.
    + intros [Hold| ->%list_elem_of_singleton]%elem_of_app; [by left|].
      right. by left.
  - destruct (handleAddInterest_cases bannedInterests f)
      as [ [Heq _] | [ (Heq & _) | (Heq & Hne & _) ] ]; rewrite Heq; simpl;
      try by left.
    case_bool_decide as Hin; [by left|].
    intros [Hold| ->%list_elem_of_singleton]%elem_of_app; [by left|].
    right. right. split; [done|]. apply normalizeInterest_idemp.
  - unfold handleSubmit.
    destruct (String.eqb _ ""); [by left|]. destruct (negb _); by left.
Qed.

(** X18. Whatever the user types and clicks in the sign-in form, the list of
    selected interests never holds an interest twice, and each interest in it
    is one that was clicked or a non-empty custom interest in normal form. *)
Theorem selected_interests_have_no_duplicates (actions : list Action) :
  NoDup (selectedInterests (formAfter actions))
  ∧ ∀ interest,
      interest ∈ selectedInterests (formAfter actions) →
      ClickInterest interest ∈ actions
      ∨ (interest ≠ "" ∧ normalizeInterest interest = interest).
Proof.
  split; [apply formAfter_NoDup|].
  unfold formAfter. induction actions as [|action actions IH] using rev_ind.
  - intros interest Hin. by apply elem_of_nil in Hin.
  - intros interest. rewrite foldl_app. simpl.
    intros [Hold|[ -> |Hcustom]]%dispatch_selected.
    + destruct (IH interest Hold) as [Hclicked|Hcustom]; [|by right].
      left. apply elem_of_app. by left.
    + left. apply elem_of_app. right. by apply list_elem_of_singleton.
    + by right.
Qed.

Lemma filter_out_absent (interest : string) (current : list string) :
  interest ∉ current → filter (λ item, item ≠ interest) current = current.
Proof.
  induction current as [|x current IH]; [done|].
  intros [Hx Hrest]%not_elem_of_cons.
  rewrite filter_cons, decide_True by done. by rewrite IH.
Qed.

Lemma filter_out_restore (interest : string) (current : list string) :
  NoDup current →
  interest ∈ current →
  filter (λ item, item ≠ interest) current ++ [interest] ≡ₚ current.
Proof.
  induction current as [|x current IH]; intros Hnd Hin.
  - by apply elem_of_nil in Hin.
  - apply NoDup_cons in Hnd as [Hx Hnd].
    rewrite filter_cons. destruct (decide (x ≠ interest)) as [Hne|Heq].
    + apply elem_of_cons in Hin as [ -> |Hin]; [done|].
      simpl. f_equiv. by apply IH.
    + apply dec_stable in Heq as ->.
      rewrite filter_out_absent by done.
      symmetry. apply Permutation_cons_append.
Qed.

(** X19. A click on an interest flips whether that interest is selected and
    touches no other interest or field; in a selection without duplicates a
    second click restores the selection, in the same order if the interest
    was not selected and up to order if it was. *)
Theorem second_click_restores_selection (interest : string) (f : Form) :
  NoDup (selectedInterests f) →
  (interest ∈ selectedInterests (toggleInterest interest f)
   ↔ interest ∉ selectedInterests f)
  ∧ (∀ other, other ≠ interest →
       (other ∈ selectedInterests (toggleInterest interest f)
        ↔ other ∈ selectedInterests f))
  ∧ selectedInterests (toggleInterest interest (toggleInterest interest f))
    ≡ₚ selectedInterests f
  ∧ (interest ∉ selectedInterests f →
     toggleInterest interest (toggleInterest interest f) = f).
Proof.
  intros Hnd. destruct f as [n e selected typed err]. simpl in *.
  destruct (decide (interest ∈ selected)) as [Hin|Hout].
  - rewrite (bool_decide_eq_true_2 _ Hin).
    assert (interest ∉ filter (λ item, item ≠ interest) selected) as Hgone.
    { by intros [? _]%list_elem_of_filter. }
    rewrite (bool_decide_eq_false_2 _ Hgone).
    split; [done|]. split.
    { intros other Hother. rewrite list_elem_of_filter. tauto. }
    split; [by apply filter_out_restore|done].
  - rewrite (bool_decide_eq_false_2 _ Hout).
    assert (interest ∈ selected ++ [interest]) as Hthere.
    { apply elem_of_app. right. by apply list_elem_of_singleton. }
    rewrite (bool_decide_eq_true_2 _ Hthere).
    assert (filter (λ item, item ≠ interest) (selected ++ [interest])
            = selected) as Hback.
    { rewrite filter_app, filter_out_absent by done.
      rewrite filter_cons, decide_False by (by intros ?).
      by rewrite filter_nil, app_nil_r. }
    split; [done|]. split.
    { intros other Hother. rewrite elem_of_app, list_elem_of_singleton.
      tauto. }
    unfold toggleInterest, setSelectedInterests. simpl.
    rewrite (bool_decide_eq_false_2 _ Hout), (bool_decide_eq_true_2 _ Hthere).
    rewrite Hback. done.
Qed.

Lemma second_click_restores_selection_witness :
  selectedInterests
    (toggleInterest "Coffee Chats"
       (toggleInterest "Coffee Chats"
          (formAfter [ClickInterest "UW Housing"; ClickInterest "Coffee Chats";
                      ClickInterest "Startup Ideas"])))
  ≡ₚ ["UW Housing"; "Coffee Chats"; "Startup Ideas"].
Proof.
  destruct (second_click_restores_selection "Coffee Chats"
              (formAfter [ClickInterest "UW Housing";
                          ClickInterest "Coffee Chats";
                          ClickInterest "Startup Ideas"]))
    as (_ & _ & Hperm & _).
  - apply (bool_decide_unpack _). vm_compute. exact I.
  - exact Hperm.
Defined.

End Interests.

(** ** Signing in: from the form to the server *)

Lemma skipLocal_split s :
  toLowerCase s = s →
  ∃ localPart,
    s = localPart +:+ LoginPage.skipLocal s
    ∧ allChars (λ c, LoginPage.isLocalChar c && Ascii.eqb (lowerAscii c) c)
        localPart = true
    ∧ toLowerCase (LoginPage.skipLocal s) = LoginPage.skipLocal s.
Proof.
  induction s as [|c s IH]; intros Hlower.
  - by exists "".
  - simpl in Hlower. injection Hlower as Hc Hs.
    simpl. destruct (LoginPage.isLocalChar c) eqn:Hlocal.
    + destruct (IH Hs) as (localPart & Hsplit & Hall & Hrest).
      exists (String c localPart). split; [exact (f_equal (String c) Hsplit)|].
      split; [|done]. simpl. rewrite Hlocal, Hall, Hc.
      by rewrite Ascii.eqb_refl.
    + exists "". split; [done|]. split; [done|]. simpl. by rewrite Hc, Hs.
Qed.

Lemma isWiscEmail_address email :
  toLowerCase email = email →
  LoginPage.isWiscEmail email = true →
  wiscAddress email.
Proof.
  intros Hlower Haccepted. destruct email as [|c s]; [done|].
  simpl in Hlower. injection Hlower as Hc Hs.
  simpl in Haccepted. apply andb_true_iff in Haccepted as [Hlocal Hdomain].
  apply String.eqb_eq in Hdomain.
  destruct (skipLocal_split s Hs) as (localPart & Hsplit & Hall & Hrest).
  rewrite Hrest in Hdomain.
  exists (String c localPart). split; [|split; [done|]].
  - rewrite <- Hdomain. exact (f_equal (String c) Hsplit).
  - simpl. rewrite Hlocal, Hall, Hc. by rewrite Ascii.eqb_refl.
Qed.

Lemma handleSubmit_accepted f profile :
  (LoginPage.handleSubmit f).2 = Some profile →
  LoginPage.user_name profile = JsString.trim (LoginPage.form_name f)
  ∧ LoginPage.user_name profile ≠ ""
  ∧ LoginPage.user_email profile
    = toLowerCase (JsString.trim (LoginPage.form_email f))
  ∧ LoginPage.isWiscEmail (LoginPage.user_email profile) = true
  ∧ LoginPage.user_interests profile = LoginPage.selectedInterests f.
Proof.
  unfold LoginPage.handleSubmit. simpl.
  destruct (String.eqb_spec (JsString.trim (LoginPage.form_name f)) "")
    as [|Hname]; [done|].
  destruct (LoginPage.isWiscEmail _) eqn:Hemail; [|done].
  simpl. intros [= <-]. done.
Qed.

(** X20. A profile that the sign-in form accepts reaches the server as
    typed: its name is not blank, its email is a lower-case campus address
    and its interests hold no duplicate; the server's [profile:update]
    handler stores name, email and interests unchanged for the socket, so
    partners never see the placeholder name, and registers the socket under
    exactly that email. *)
Theorem accepted_sign_in_is_stored_verbatim
    (actions : list LoginPage.Action) (profile : LoginPage.UserProfile)
    (now : Z) (st : State) (h : string) (data : SocketData) :
  (LoginPage.handleSubmit (formAfter actions)).2 = Some profile →
  sockets st !! h = Some data →
  wiscAddress (LoginPage.user_email profile)
  ∧ NoDup (LoginPage.user_interests profile)
  ∧ ∃ st' out stored,
      step now st (Message h (ProfileUpdate (App.handleAuthenticated profile)))
      = Some (st', out)
      ∧ sockets st' !! h
        = Some {| data_profile := Some stored; data_mode := data_mode data |}
      ∧ sanitizeProfile stored
        = {| sanitized_name := LoginPage.user_name profile;
             sanitized_email := LoginPage.user_email profile;
             sanitized_interests := LoginPage.user_interests profile |}
      ∧ h ∈ default [] (emailToSockets st' !! LoginPage.user_email profile).
Proof.
  intros (Hname & Hnamed & Hemail & Haccepted & Hinterests)%handleSubmit_accepted
    Hconn.
  assert (toLowerCase (LoginPage.user_email profile)
          = LoginPage.user_email profile) as Hlower.
  { rewrite Hemail. apply toLowerCase_idemp. }
  pose proof (isWiscEmail_address _ Hlower Haccepted) as Haddress.
  assert (LoginPage.user_email profile ≠ "") as Hne.
  { intros Hempty. rewrite Hempty in Haccepted. done. }
  split; [done|]. split.
  { rewrite Hinterests. apply formAfter_NoDup. }
  unfold step. rewrite Hconn. unfold onMessage, onProfileUpdate.
  unfold App.handleAuthenticated. simpl. rewrite !Hlower.
  destruct (getReputation (reputations st) (LoginPage.user_email profile))
    as [reps rep] eqn:Hrep.
  eexists _, _, _. split; [done|]. simpl.
  split; [by rewrite lookup_insert_eq|]. split.
  - pose proof (truthy_Some _ Hnamed) as Htruthy. simpl in Htruthy.
    unfold sanitizeProfile. simpl. rewrite Htruthy. done.
  - pose proof (registerSocketForEmail_member h (LoginPage.user_email profile)
                  (emailToSockets st) Hne) as Hmember.
    rewrite Hlower in Hmember. exact Hmember.
Qed.

Lemma accepted_sign_in_is_stored_verbatim_witness :
  wiscAddress "bucky@wisc.edu"
  ∧ ∃ st' out stored,
      step 1 connected1
        (Message "s1"
           (ProfileUpdate
              (mkProfilePayload (Some "Bucky Badger") (Some "bucky@wisc.edu")
                 (Some ["Coffee Chats"]))))
      = Some (st', out)
      ∧ sockets st' !! "s1"
        = Some {| data_profile := Some stored; data_mode := None |}
      ∧ sanitizeProfile stored
        = mkSanitizedProfile "Bucky Badger" "bucky@wisc.edu" ["Coffee Chats"].
Proof.
  destruct (accepted_sign_in_is_stored_verbatim
              [LoginPage.ChangeName " Bucky Badger ";
               LoginPage.ChangeEmail "Bucky@WISC.edu ";
               LoginPage.ClickInterest "Coffee Chats"]
              (LoginPage.mkUserProfile "Bucky Badger" "bucky@wisc.edu"
                 ["Coffee Chats"])
              1%Z connected1 "s1" (mkSocketData None None))
    as (Haddress & _ & st' & out & stored & Hstep & Hstored & Hseen & _).
  - vm_compute. reflexivity.
  - vm_compute. reflexivity.
  - split; [exact Haddress|]. exists st', out, stored.
    split; [exact Hstep|]. split; [exact Hstored|exact Hseen].
Defined.

(** ** The banned list *)

Section BannedList.
Import JsString LoginPage useBannedInterests.

Lemma eqb_lf_lowerAscii c : Ascii.eqb (lowerAscii c) "010" = Ascii.eqb c "010".
Proof. destruct c as [[] [] [] [] [] [] [] []]; reflexivity. Qed.

Lemma eqb_cr_lowerAscii c : Ascii.eqb (lowerAscii c) "013" = Ascii.eqb c "013".
Proof. destruct c as [[] [] [] [] [] [] [] []]; reflexivity. Qed.

Lemma consHead_toLowerCase c lines :
  toLowerCase <$> consHead c lines
  = consHead (lowerAscii c) (toLowerCase <$> lines).
Proof. by destruct lines. Qed.

Lemma splitLines_toLowerCase text :
  splitLines (toLowerCase text) = toLowerCase <$> splitLines text.
Proof.
  cut (∀ n text, (String.length text ≤ n)%nat →
         splitLines (toLowerCase text) = toLowerCase <$> splitLines text).
  { intros Hall. by apply (Hall (String.length text)). }
  clear text. intros n. induction n as [|n IH]; intros text Hlen.
  - destruct text; [done|]. simpl in Hlen. lia.
  - destruct text as [|c text]; [done|].
    simpl in Hlen.
    change (toLowerCase (String c text))
      with (String (lowerAscii c) (toLowerCase text)).
    destruct text as [|c' text].
    + simpl. rewrite eqb_lf_lowerAscii. by destruct (Ascii.eqb c "010").
    + change (toLowerCase (String c' text))
        with (String (lowerAscii c') (toLowerCase text)).
      change (splitLines (String (lowerAscii c)
                            (String (lowerAscii c') (toLowerCase text))))
        with (if Ascii.eqb (lowerAscii c) "010"
              then "" :: splitLines (String (lowerAscii c') (toLowerCase text))
              else if Ascii.eqb (lowerAscii c) "013"
                      && Ascii.eqb (lowerAscii c') "010"
                   then "" :: splitLines (toLowerCase text)
                   else consHead (lowerAscii c)
                          (splitLines (String (lowerAscii c')
                                         (toLowerCase text)))).
      change (splitLines (String c (String c' text)))
        with (if Ascii.eqb c "010" then "" :: splitLines (String c' text)
              else if Ascii.eqb c "013" && Ascii.eqb c' "010"
                   then "" :: splitLines text
                   else consHead c (splitLines (String c' text))).
      rewrite !eqb_lf_lowerAscii, eqb_cr_lowerAscii.
      change (String (lowerAscii c') (toLowerCase text))
        with (toLowerCase (String c' text)).
      rewrite (IH (String c' text)) by (simpl in Hlen |- *; lia).
      rewrite (IH text) by (simpl in Hlen; lia).
      destruct (Ascii.eqb c "010"); [done|].
      destruct (Ascii.eqb c "013" && Ascii.eqb c' "010"); [done|].
      by rewrite consHead_toLowerCase.
Qed.

Lemma trim_toLowerCase s : trim (toLowerCase s) = toLowerCase (trim s).
Proof. unfold trim. by rewrite trimStart_toLowerCase, trimEnd_toLowerCase. Qed.

Lemma nextList_toLowerCase text : nextList (toLowerCase text) = nextList text.
Proof.
  unfold nextList. rewrite splitLines_toLowerCase, <- list_fmap_compose.
  f_equal. apply list_fmap_ext. intros _ entry _. simpl.
  by rewrite trim_toLowerCase, toLowerCase_idemp.
Qed.

Lemma startsClean_toLowerCase s : startsClean s → startsClean (toLowerCase s).
Proof. destruct s as [|c s]; simpl; [done|]. by rewrite isSpace_lowerAscii. Qed.

Lemma endsClean_toLowerCase s : endsClean s → endsClean (toLowerCase s).
Proof.
  induction s as [|c s IH]; [done|].
  destruct s as [|c' s]; simpl in *; [by rewrite isSpace_lowerAscii|done].
Qed.

(** X21. The entries of the banned list are never empty, are in lower case
    and have no white space at either end, so a blank line of the file bans
    nothing; and neither the list nor what [Add interest] selects depends on
    the case in which the file or the interest is written. *)
Theorem banned_list_ignores_case
    (text text' typed typed' : string) (f : Form) :
  toLowerCase text = toLowerCase text' →
  toLowerCase typed = toLowerCase typed' →
  (∀ entry, entry ∈ nextList text →
     entry ≠ "" ∧ toLowerCase entry = entry
     ∧ startsClean entry ∧ endsClean entry)
  ∧ nextList text = nextList text'
  ∧ selectedInterests (handleAddInterest (nextList text)
                         (setNewInterest typed f))
    = selectedInterests (handleAddInterest (nextList text')
                           (setNewInterest typed' f)).
Proof.
  intros Htext Htyped.
  assert (nextList text = nextList text') as Hlist.
  { by rewrite <- (nextList_toLowerCase text), Htext, nextList_toLowerCase. }
  split; [|split; [done|]].
  - intros entry [Hne (line & -> & _)%list_elem_of_fmap]%list_elem_of_filter.
    split; [done|]. split; [apply toLowerCase_idemp|]. unfold trim. split.
    + apply startsClean_toLowerCase, trimEnd_startsClean, trimStart_startsClean.
    + apply endsClean_toLowerCase, trimEnd_endsClean.
  - rewrite <- Hlist. unfold handleAddInterest. simpl.
    rewrite <- (normalizeInterest_toLowerCase typed), Htyped,
      normalizeInterest_toLowerCase.
    destruct (String.eqb _ ""); [done|]. by destruct (existsb _ _).
Qed.

Lemma banned_list_ignores_case_witness :
  nextList (String "010" "Gambling  " +:+ String "013" (String "010" ""))
  = nextList (String "010" "GAMBLING  " +:+ String "013" (String "010" ""))
  ∧ selectedInterests
      (handleAddInterest
         (nextList (String "010" "Gambling  " +:+ String "013" (String "010" "")))
         (setNewInterest "online Gambling" initialForm))
    = selectedInterests
        (handleAddInterest
           (nextList
              (String "010" "GAMBLING  " +:+ String "013" (String "010" "")))
           (setNewInterest "ONLINE gambling" initialForm)).
Proof.
  destruct (banned_list_ignores_case
              (String "010" "Gambling  " +:+ String "013" (String "010" ""))
              (String "010" "GAMBLING  " +:+ String "013" (String "010" ""))
              "online Gambling" "ONLINE gambling" initialForm)
    as (_ & Hlist & Hsame); [reflexivity|reflexivity|].
  split; [exact Hlist|exact Hsame].
Defined.

End BannedList.
